(** * scikit-time: Bayesian HMM sampling and transition-matrix sampling

    A shallow embedding of

    - [sktime/markov/tools/estimation/dense/tmat_sampling/tmatrix_sampler.py]
      (class [TransitionMatrixSampler]) and
    - [sktime/markovprocess/bhmm/estimators/bayesian_sampling.py]
      (classes [BayesianHMMPosterior] and [BayesianHMMSampler]).

    Python objects that are mutated in place live in an explicit store;
    exceptions are results of a state-and-error monad whose state survives a
    raise (an exception does not roll back attribute assignments).  Numbers
    held in numpy arrays are IEEE binary64 values ([PrimFloat]). *)

From Stdlib Require Import ZArith List String Bool Lia.
From Stdlib Require Import Floats.PrimFloat Numbers.Cyclic.Int63.Uint63.
From stdpp Require Import base list.
Import ListNotations.

Local Open Scope string_scope.
Local Open Scope list_scope.
Local Open Scope nat_scope.

(* ===================================================================== *)
(** * Python: exceptions, results, and the state-and-error monad          *)
(* ===================================================================== *)

Module Py.

Inductive exn_class :=
| ValueError
| NotImplementedError
| AttributeError
| TypeError
| IndexError
| AssertionError
| RuntimeError.

(** An exception: its class and the fixed part of its message (values that
    the source interpolates into an f-string are left out). *)
Record exn := Exn { exn_cls : exn_class; exn_msg : string }.

Inductive res (A : Type) :=
| Ok (a : A)
| Raise (e : exn).
Arguments Ok {A} a.
Arguments Raise {A} e.

(** A computation over a store [S]: the store is returned in both outcomes. *)
Definition M (S A : Type) : Type := S -> res A * S.

Definition ret {S A} (a : A) : M S A := fun s => (Ok a, s).

Definition raise {S A} (e : exn) : M S A := fun s => (Raise e, s).

Definition bind {S A B} (m : M S A) (k : A -> M S B) : M S B :=
  fun s => match m s with
           | (Ok a, s') => k a s'
           | (Raise e, s') => (Raise e, s')
           end.

Definition gets {S A} (f : S -> A) : M S A := fun s => (Ok (f s), s).
Definition modify {S} (f : S -> S) : M S unit := fun s => (Ok tt, f s).

(** A pure step that may raise. *)
Definition lift {S A} (r : res A) : M S A := fun s => (r, s).

Declare Scope py_scope.
Delimit Scope py_scope with py.
Notation "x <- m ;; k" := (bind m (fun x => k))
  (at level 100, m at next level, right associativity) : py_scope.
Notation "m ;; k" := (bind m (fun _ => k))
  (at level 100, right associativity) : py_scope.

Local Open Scope py_scope.

(** [for i in range(i0, i0 + n): body i] *)
Fixpoint for_from {S} (i n : nat) (body : nat -> M S unit) : M S unit :=
  match n with
  | O => ret tt
  | Datatypes.S n' => body i ;; for_from (Datatypes.S i) n' body
  end.

(** [for i in range(n): body i]; a negative bound gives the empty range. *)
Definition for_range {S} (n : Z) (body : nat -> M S unit) : M S unit :=
  for_from 0 (Z.to_nat n) body.

(** A loop that rebinds local variables: the locals are the accumulator. *)
Fixpoint fold_from {S A} (i n : nat) (body : nat -> A -> M S A) (a : A) : M S A :=
  match n with
  | O => ret a
  | Datatypes.S n' => a' <- body i a ;; fold_from (Datatypes.S i) n' body a'
  end.

Definition fold_range {S A} (n : Z) (body : nat -> A -> M S A) (a : A) : M S A :=
  fold_from 0 (Z.to_nat n) body a.

(** A list comprehension [[f x for x in xs]], evaluated left to right. *)
Fixpoint comprehension {S A B} (f : A -> M S B) (xs : list A) : M S (list B) :=
  match xs with
  | [] => ret []
  | x :: xs' => y <- f x ;; ys <- comprehension f xs' ;; ret (y :: ys)
  end.

(** An attribute that may not have been assigned yet (reading it raises
    [AttributeError]) . *)
Inductive attr (A : Type) :=
| Unset
| Val (a : A).
Arguments Unset {A}.
Arguments Val {A} a.

Definition getattr {S A} (name : string) (a : attr A) : M S A :=
  match a with
  | Val v => ret v
  | Unset => raise (Exn AttributeError name)
  end.

(** A relation between the store before and after that every run of [m]
    establishes, whether it returns or raises. *)
Definition always {S A} (R : S -> S -> Prop) (m : M S A) : Prop :=
  forall s r s', m s = (r, s') -> R s s'.

End Py.

(* ===================================================================== *)
(** * numpy arrays                                                        *)
(* ===================================================================== *)

Module Np.
Import Py.

(** An n-dimensional array of doubles: its shape and its entries in
    row-major order. *)
Record ndarray := NdArray { shape : list nat; data : list float }.

Definition size_of (sh : list nat) : nat := fold_right Nat.mul 1 sh.

(** [np.zeros(sh)], [np.ones(sh)] *)
Definition zeros (sh : list nat) : ndarray := NdArray sh (repeat 0%float (size_of sh)).
Definition ones (sh : list nat) : ndarray := NdArray sh (repeat 1%float (size_of sh)).

(** [np.array(a)]: a copy; arrays are values here. *)
Definition array (a : ndarray) : ndarray := a.

(** [len(a.shape)] *)
Definition ndim (a : ndarray) : nat := length (shape a).

Definition shape_eqb (s1 s2 : list nat) : bool :=
  bool_decide (s1 = s2).

(** [a.shape[0]]; a 0-dimensional array has no first axis. *)
Definition shape0 (a : ndarray) : res nat :=
  match shape a with
  | n :: _ => Ok n
  | [] => Raise (Exn IndexError "tuple index out of range")
  end.

(** [a - x] for a scalar [x]: broadcast over every entry. *)
Definition sub_scalar (a : ndarray) (x : float) : ndarray :=
  NdArray (shape a) (map (fun v => v - x)%float (data a)).

(** [float(n)] for a non-negative Python int below [2^63] (array extents are). *)
Definition float_of_nat (n : nat) : float :=
  PrimFloat.of_uint63 (Uint63.of_Z (Z.of_nat n)).

(** [math.sqrt(n)] *)
Definition math_sqrt (n : nat) : float := PrimFloat.sqrt (float_of_nat n).

End Np.

(* ===================================================================== *)
(** * tmatrix_sampler.py                                                  *)
(* ===================================================================== *)

Module TransitionMatrixSampler.
Import Py Np.
Local Open Scope py_scope.

(** A Python number: [int] or [float]. *)
Inductive num :=
| Int (z : Z)
| Float (f : float).

(** The three sampler back ends ([sampler_nrev], [sampler_rev],
    [sampler_revpi]), as the constructor calls of [__init__] build them. *)
Inductive sampler_obj :=
| SamplerNonRev (C : ndarray)
| SamplerRev (C : ndarray) (P0 : option ndarray)
| SamplerRevPi (C : ndarray) (mu : ndarray) (P0 : option ndarray).

(** The instance attributes set by [__init__]. *)
Record t := Build {
  count_matrix : ndarray;
  sampler : sampler_obj;
  n_steps : option num
}.

(** The keyword arguments of [__init__]. *)
Record init_kwargs := InitKw {
  reversible : bool;
  mu : option ndarray;
  P0 : option ndarray;
  n_steps_arg : option num;
  prior : string
}.

(** The defaults of the signature
    [__init__(self, count_matrix, reversible=False, mu=None, P0=None,
              n_steps=1, prior='sparse')]:
    a caller who leaves an argument out passes the value given here. *)
Definition init_defaults : init_kwargs :=
  {| reversible := false; mu := None; P0 := None;
     n_steps_arg := Some (Int 1); prior := "sparse" |}.

Definition __init__ (count_matrix : ndarray) (kw : init_kwargs) : res t :=
  if negb (String.eqb (prior kw) "sparse") then
    Raise (Exn ValueError "Only Sparse prior is currently implemented")
  else
    if reversible kw then
      match mu kw with
      | None =>
          match n_steps_arg kw with
          | None =>
              (* use sqrt(n) as a rough guess for the decorrelation time *)
              match shape0 count_matrix with
              | Ok n =>
                  Ok (Build count_matrix (SamplerRev count_matrix (P0 kw))
                            (Some (Float (math_sqrt n))))
              | Raise e => Raise e
              end
          | Some k =>
              Ok (Build count_matrix (SamplerRev count_matrix (P0 kw)) (Some k))
          end
      | Some mu =>
          let n_steps :=
            match n_steps_arg kw with
            | None => Some (Int 6)
            | Some k => Some k
            end in
          Ok (Build count_matrix (SamplerRevPi count_matrix mu (P0 kw)) n_steps)
      end
    else
      match mu kw with
      | None =>
          (* just force to 1, because this is independent sampling *)
          Ok (Build count_matrix (SamplerNonRev (sub_scalar count_matrix 1%float))
                    (Some (Int 1)))
      | Some _ =>
          Raise (Exn ValueError
                   "Non reversible sampling with fixed stationary vector not implemented")
      end.

(** What is observable of a call of [sample]: the draws of the back end and
    the invocations of the callback, in order. *)
Inductive event :=
| EvDraw
| EvCallBack.

(** The collaborators of [sample]: the state [W] they act on (random
    generator, Markov chain of the back end, whatever the callback touches). *)
Class Backend := {
  W : Type;
  (** One call of the back end: [N] sweeps of its chain, giving a transition
      matrix and its stationary vector. *)
  sampler_step : sampler_obj -> option num -> W -> res (ndarray * ndarray) * W
}.

Section Sample.
Context {B : Backend}.

Record world := World { ext : W; trace : list event }.

Definition callback : Type := W -> res unit * W.

Definition log (e : event) : M world unit :=
  modify (fun w => World (ext w) (trace w ++ [e])).

Definition on_ext {A} (f : W -> res A * W) : M world A :=
  fun w => let '(r, x) := f (ext w) in (r, World x (trace w)).

(** What [self.sampler.sample(N, return_statdist)] returns. *)
Inductive draw :=
| DrawP (P : ndarray)
| DrawPair (P : ndarray) (pi : ndarray).

(** Modelled from the spec: the classes [SamplerNonRev], [SamplerRev] and
    [SamplerRevPi] (modules [sampler_nrev], [sampler_rev], [sampler_revpi])
    are absent.  Their [sample(N, return_statdist)] advances the chain and
    returns the transition matrix, together with its stationary vector when
    [return_statdist] is true. *)
Definition sampler_sample (s : sampler_obj) (N : option num) (return_statdist : bool)
  : M world draw :=
  log EvDraw ;;
  r <- on_ext (sampler_step s N) ;;
  let '(P, pi) := r in
  ret (if return_statdist then DrawPair P pi else DrawP P).

(** [if call_back is not None: call_back()] *)
Definition invoke (call_back : option callback) : M world unit :=
  match call_back with
  | None => ret tt
  | Some cb => log EvCallBack ;; on_ext cb
  end.

(** What [sample] returns: the value of a single back-end call, a stack of
    matrices ([P_samples]), or the two stacks [(P_samples, pi_samples)]. *)
Inductive sample_ret :=
| One (d : draw)
| Stack (P_samples : list ndarray)
| StackPair (P_samples : list ndarray) (pi_samples : list ndarray).

(** [np.zeros((k,) + sh)], kept as the list of its [k] slices along the first
    axis; numpy refuses a negative extent. *)
Definition zeros_stack (k : Z) (sh : list nat) : res (list ndarray) :=
  if (k <? 0)%Z then Raise (Exn ValueError "negative dimensions are not allowed")
  else Ok (repeat (zeros sh) (Z.to_nat k)).

(** The body of the loop [for i in range(nsamples)] without stationary
    vectors; the array [P_samples] is the accumulator. *)
Definition round (self : t) (call_back : option callback) (i : nat)
    (P_samples : list ndarray) : M world (list ndarray) :=
  d <- sampler_sample (sampler self) (n_steps self) false ;;
  match d with
  | DrawP P =>
      invoke call_back ;;
      ret (<[i := P]> P_samples)
  | DrawPair _ _ =>
      raise (Exn ValueError "could not broadcast input array")
  end.

(** The body of the loop [for i in range(nsamples)] with stationary
    vectors, on [P_samples] and [pi_samples]. *)
Definition round_statdist (self : t) (call_back : option callback) (i : nat)
    (stacks : list ndarray * list ndarray) : M world (list ndarray * list ndarray) :=
  let '(P_samples, pi_samples) := stacks in
  d <- sampler_sample (sampler self) (n_steps self) true ;;
  match d with
  | DrawPair P pi =>
      invoke call_back ;;
      ret (<[i := P]> P_samples, <[i := pi]> pi_samples)
  | DrawP _ =>
      raise (Exn TypeError "cannot unpack the sample")
  end.

Definition sample (self : t) (nsamples : Z) (return_statdist : bool)
    (call_back : option callback) : M world sample_ret :=
  if (nsamples =? 1)%Z then
    d <- sampler_sample (sampler self) (n_steps self) return_statdist ;;
    ret (One d)
  else
    n <- lift (shape0 (count_matrix self)) ;;
    P_samples <- lift (zeros_stack nsamples [n; n]) ;;
    if return_statdist then
      pi_samples <- lift (zeros_stack nsamples [n]) ;;
      stacks <- fold_range nsamples (round_statdist self call_back)
                           (P_samples, pi_samples) ;;
      let '(P_samples, pi_samples) := stacks in
      ret (StackPair P_samples pi_samples)
    else
      P_samples <- fold_range nsamples (round self call_back) P_samples ;;
      ret (Stack P_samples).

(** ** What a caller can observe of [sample] *)







(** ** Single calls *)





End Sample.

End TransitionMatrixSampler.

(* ===================================================================== *)
(** * numpy operations used by bayesian_sampling.py                       *)
(* ===================================================================== *)

Module NpOps.
Import Py Np.

(** [len(a)]: the extent of the first axis. *)
Definition len (a : ndarray) : res nat :=
  match shape a with
  | n :: _ => Ok n
  | [] => Raise (Exn TypeError "len() of unsized object")
  end.

Fixpoint zip_with_float (f : float -> float -> float) (xs ys : list float) : list float :=
  match xs, ys with
  | x :: xs', y :: ys' => f x y :: zip_with_float f xs' ys'
  | _, _ => []
  end.

(** [a + b].  Arrays of one shape are added entry by entry; for any other
    pair of shapes numpy's broadcasting decides, which is left to
    [broadcast]. *)
Definition add (broadcast : ndarray -> ndarray -> res ndarray) (a b : ndarray)
  : res ndarray :=
  if shape_eqb (shape a) (shape b)
  then Ok (NdArray (shape a) (zip_with_float PrimFloat.add (data a) (data b)))
  else broadcast a b.

(** [a + b] where [b] may be [None]. *)
Definition add_opt (broadcast : ndarray -> ndarray -> res ndarray)
    (a : ndarray) (b : option ndarray) : res ndarray :=
  match b with
  | Some b => add broadcast a b
  | None => Raise (Exn TypeError "unsupported operand type(s) for +: 'float' and 'NoneType'")
  end.

(** All multi-indices of a shape, in row-major order. *)
Fixpoint indices (sh : list nat) : list (list nat) :=
  match sh with
  | [] => [[]]
  | n :: sh' => flat_map (fun i => map (cons i) (indices sh')) (seq 0 n)
  end.

(** The row-major position of a multi-index. *)
Definition flat_index (sh idx : list nat) : nat :=
  fold_left (fun acc ni => acc * fst ni + snd ni) (combine sh idx) 0.

(** [a.T]: the axes reversed. *)
Definition transpose (a : ndarray) : ndarray :=
  NdArray (rev (shape a))
          (map (fun idx => nth (flat_index (shape a) (rev idx)) (data a) 0%float)
               (indices (rev (shape a)))).

(** [a == 0], entry by entry (IEEE comparison). *)
Definition eq_zero (a : ndarray) : list bool :=
  map (fun x => PrimFloat.eqb x 0%float) (data a).

(** [a > 0], entry by entry. *)
Definition gt_zero (a : ndarray) : list bool :=
  map (fun x => PrimFloat.ltb 0%float x) (data a).

Fixpoint set_where (xs : list float) (mask : list bool) (v : float) : list float :=
  match xs, mask with
  | x :: xs', b :: mask' => (if b then v else x) :: set_where xs' mask' v
  | _, _ => xs
  end.

(** [zeros = np.where(m == 0); C[zeros] = v] for [m] of the shape [sh]:
    the positions found in [m] are positions of [C] when the shapes agree. *)
Definition assign_where (C : ndarray) (sh : list nat) (mask : list bool) (v : float)
  : res ndarray :=
  if shape_eqb (shape C) sh
  then Ok (NdArray (shape C) (set_where (data C) mask v))
  else Raise (Exn IndexError "index is out of bounds").

(** [a[mask]]: the entries selected by a boolean mask. *)
Fixpoint select (xs : list float) (mask : list bool) : list float :=
  match xs, mask with
  | x :: xs', b :: mask' => if b then x :: select xs' mask' else select xs' mask'
  | _, _ => []
  end.

(** [a[mask] = vs]: as many values as the mask selects, or numpy raises. *)
Fixpoint scatter (xs : list float) (mask : list bool) (vs : list float) : option (list float) :=
  match xs, mask with
  | x :: xs', true :: mask' =>
      match vs with
      | v :: vs' => option_map (cons v) (scatter xs' mask' vs')
      | [] => None
      end
  | x :: xs', false :: mask' => option_map (cons x) (scatter xs' mask' vs)
  | _, _ => match vs with [] => Some xs | _ :: _ => None end
  end.

Definition assign_masked (a : ndarray) (mask : list bool) (vs : list float) : res ndarray :=
  match scatter (data a) mask vs with
  | Some d => Ok (NdArray (shape a) d)
  | None => Raise (Exn ValueError "NumPy boolean array indexing assignment cannot assign")
  end.

End NpOps.

(* ===================================================================== *)
(** * bayesian_sampling.py                                                *)
(* ===================================================================== *)

Module BayesianHMMSampler.
Import Py Np NpOps.
Local Open Scope py_scope.

(** A reference to an [HMM] object of the store. *)
Definition loc := nat.

(** The attributes of a [bhmm.HMM] object that this module reads or writes.
    [hidden_state_trajectories] is what a Gibbs sweep assigns;
    [hidden_state_trajectory] is the attribute [fit] assigns. *)
Record HMM (OM : Type) := MkHMM {
  hmm_nstates : nat;
  transition_matrix : ndarray;
  initial_distribution : ndarray;
  output_model : OM;
  hidden_state_trajectories : option (list (list nat));
  hidden_state_trajectory : attr (option (list nat))
}.
Arguments MkHMM {OM}.
Arguments hmm_nstates {OM}.
Arguments transition_matrix {OM}.
Arguments initial_distribution {OM}.
Arguments output_model {OM}.
Arguments hidden_state_trajectories {OM}.
Arguments hidden_state_trajectory {OM}.

(** Attribute assignment on an [HMM] object. *)
Definition with_transition_matrix {OM} (v : ndarray) (m : HMM OM) : HMM OM :=
  MkHMM (hmm_nstates m) v (initial_distribution m) (output_model m)
        (hidden_state_trajectories m) (hidden_state_trajectory m).

Definition with_initial_distribution {OM} (v : ndarray) (m : HMM OM) : HMM OM :=
  MkHMM (hmm_nstates m) (transition_matrix m) v (output_model m)
        (hidden_state_trajectories m) (hidden_state_trajectory m).

Definition with_output_model {OM} (v : OM) (m : HMM OM) : HMM OM :=
  MkHMM (hmm_nstates m) (transition_matrix m) (initial_distribution m) v
        (hidden_state_trajectories m) (hidden_state_trajectory m).

Definition with_hidden_state_trajectories {OM} (v : option (list (list nat))) (m : HMM OM) : HMM OM :=
  MkHMM (hmm_nstates m) (transition_matrix m) (initial_distribution m) (output_model m)
        v (hidden_state_trajectory m).

Definition with_hidden_state_trajectory {OM} (v : attr (option (list nat))) (m : HMM OM) : HMM OM :=
  MkHMM (hmm_nstates m) (transition_matrix m) (initial_distribution m) (output_model m)
        (hidden_state_trajectories m) v.

(** The collaborators: what the module imports and calls but does not
    define.  [W] is the state they share (the random generator, and whatever
    a progress callback touches). *)
Class Collaborators := {
  OM : Type;
  W : Type;
  (** [msmest.is_connected(C, directed=True)] *)
  is_connected : ndarray -> bool;
  (** [msmest.transition_matrix(C, reversible=r, maxiter=10000,
      warn_not_converged=False)] *)
  msm_transition_matrix : ndarray -> bool -> res ndarray;
  (** [msmest.sample_tmatrix(C, nsample=1, nsteps=k, reversible=r)] *)
  sample_tmatrix : ndarray -> Z -> bool -> W -> res ndarray * W;
  (** [_tmatrix_disconnected.stationary_distribution(P, C=C)] *)
  stationary_distribution : ndarray -> ndarray -> res ndarray;
  (** [np.random.dirichlet(alpha)] *)
  dirichlet : list float -> W -> res (list float) * W;
  (** [hidden.forward(A, pobs, pi, T=T, alpha=alpha)]: the new content of
      the buffer [alpha] *)
  forward : ndarray -> ndarray -> ndarray -> nat -> ndarray -> res ndarray;
  (** [hidden.sample_path(alpha, A, pobs, T=T)] *)
  sample_path : ndarray -> ndarray -> ndarray -> nat -> W -> res (list nat) * W;
  (** [output_model.p_obs(obs, out=pobs)]: the new content of the buffer *)
  p_obs : OM -> ndarray -> ndarray -> res ndarray;
  (** [output_model.sample(observations_by_state)]: the new parameters *)
  output_model_sample : OM -> list (list ndarray) -> W -> res OM * W;
  (** [model.count_matrix()], [model.count_init()] *)
  count_matrix : HMM OM -> res ndarray;
  count_init : HMM OM -> res ndarray;
  (** [model.collect_observations_in_state(observations, state)] *)
  collect_observations_in_state : HMM OM -> list ndarray -> nat -> res (list ndarray);
  (** [model.update(p0, Tij)]: the object after the call *)
  update : ndarray -> ndarray -> HMM OM -> res (HMM OM);
  (** [MaximumLikelihoodHMM(nstates, reversible=r, output=o).fit(observations)
      .fetch_model()] *)
  mlhmm : nat -> bool -> string -> list ndarray -> W -> res (HMM OM) * W;
  (** numpy's [+] on arrays of different shapes *)
  broadcast_add : ndarray -> ndarray -> res ndarray
}.

(** [class BayesianHMMPosterior]: both attributes default to [None]. *)
Record BayesianHMMPosterior := MkPosterior {
  prior : option loc;
  samples : option (list loc)
}.

(** A value passed as [p0_prior] or [transition_matrix_prior]. *)
Inductive prior_arg :=
| PNone
| PStr (s : string)
| PArray (a : ndarray)
| PFloat (f : float).

(** The instance attributes of a [BayesianHMMSampler]. *)
Record sampler := MkSampler {
  reversible : bool;
  stationary : bool;
  nstates : nat;
  initial_model : option loc;
  prior_n0 : option ndarray;
  prior_C : attr (option ndarray);
  transition_matrix_sampling_steps : Z;
  nsamples : Z;
  output : string;
  _alpha : attr ndarray;
  _pobs : attr ndarray;
  _model : BayesianHMMPosterior
}.

Definition with_initial_model (v : option loc) (x : sampler) : sampler :=
  MkSampler (reversible x) (stationary x) (nstates x) v (prior_n0 x) (prior_C x)
            (transition_matrix_sampling_steps x) (nsamples x) (output x)
            (_alpha x) (_pobs x) (_model x).

Definition with_prior_n0 (v : option ndarray) (x : sampler) : sampler :=
  MkSampler (reversible x) (stationary x) (nstates x) (initial_model x) v (prior_C x)
            (transition_matrix_sampling_steps x) (nsamples x) (output x)
            (_alpha x) (_pobs x) (_model x).

Definition with_prior_C (v : attr (option ndarray)) (x : sampler) : sampler :=
  MkSampler (reversible x) (stationary x) (nstates x) (initial_model x) (prior_n0 x) v
            (transition_matrix_sampling_steps x) (nsamples x) (output x)
            (_alpha x) (_pobs x) (_model x).

Definition with__alpha (v : attr ndarray) (x : sampler) : sampler :=
  MkSampler (reversible x) (stationary x) (nstates x) (initial_model x) (prior_n0 x)
            (prior_C x) (transition_matrix_sampling_steps x) (nsamples x) (output x)
            v (_pobs x) (_model x).

Definition with__pobs (v : attr ndarray) (x : sampler) : sampler :=
  MkSampler (reversible x) (stationary x) (nstates x) (initial_model x) (prior_n0 x)
            (prior_C x) (transition_matrix_sampling_steps x) (nsamples x) (output x)
            (_alpha x) v (_model x).

Definition with__model (v : BayesianHMMPosterior) (x : sampler) : sampler :=
  MkSampler (reversible x) (stationary x) (nstates x) (initial_model x) (prior_n0 x)
            (prior_C x) (transition_matrix_sampling_steps x) (nsamples x) (output x)
            (_alpha x) (_pobs x) v.

Section Sampler.
Context {X : Collaborators}.

Abbreviation hmm := (HMM OM).
Abbreviation heap_t := (list (HMM OM)).

(** ** The store of [HMM] objects *)

Definition deref (l : loc) : M heap_t hmm :=
  fun h => match h !! l with
           | Some m => (Ok m, h)
           | None => (Raise (Exn RuntimeError "dangling reference"), h)
           end.

Definition alloc (m : hmm) : M heap_t loc :=
  fun h => (Ok (length h), (h ++ [m])%list).

Definition store (l : loc) (m : hmm) : M heap_t unit :=
  modify (fun h => <[l := m]> h).

(** Modelled from the spec: [sktime.base.Model] is absent.  Its [copy()] is
    the deep copy the spec describes ("each emitted sample is a deep,
    independent copy"): a new object holding the attribute values of the
    old one, sharing nothing with it. *)
Definition copy (l : loc) : M heap_t loc :=
  m <- deref l ;;
  alloc m.

(** ** Construction *)

(** The keyword arguments of [__init__]. *)
Record init_kwargs := InitKw {
  initial_model_arg : option loc;
  reversible_arg : bool;
  stationary_arg : bool;
  transition_matrix_sampling_steps_arg : Z;
  p0_prior : prior_arg;
  transition_matrix_prior : prior_arg;
  output_arg : string;
  nsamples_arg : Z
}.

(** The defaults of the signature
    [__init__(self, nstates, initial_model=None, reversible=True,
              stationary=False, transition_matrix_sampling_steps=1000,
              p0_prior='mixed', transition_matrix_prior='mixed',
              output='gaussian', nsamples=100)]. *)
Definition init_defaults : init_kwargs :=
  {| initial_model_arg := None; reversible_arg := true; stationary_arg := false;
     transition_matrix_sampling_steps_arg := 1000%Z;
     p0_prior := PStr "mixed"; transition_matrix_prior := PStr "mixed";
     output_arg := "gaussian"; nsamples_arg := 100%Z |}.

(** The same call with another value for [p0_prior]. *)
Definition with_p0_prior (p : prior_arg) (kw : init_kwargs) : init_kwargs :=
  InitKw (initial_model_arg kw) (reversible_arg kw) (stationary_arg kw)
         (transition_matrix_sampling_steps_arg kw) p (transition_matrix_prior kw)
         (output_arg kw) (nsamples_arg kw).

Definition is_None (p : prior_arg) : bool :=
  match p with PNone => true | _ => false end.

(** [p == s] for a string literal [s].  Only a string compares equal to
    it; an array compared with a string is not equal as a whole (numpy's
    scalar [False] for that comparison). *)
Definition eq_str (p : prior_arg) (s : string) : bool :=
  match p with PStr s' => String.eqb s' s | _ => false end.

(** Modelled from the spec: [sktime.base.Estimator] is absent.  Its
    [__init__] leaves the posterior store created by [_create_model], which
    the spec describes as "created empty, populated once at the end of a fit
    call". *)
Definition _create_model : BayesianHMMPosterior := MkPosterior None None.

(** The block [# prior initial vector]. *)
Definition init_prior_n0 (nstates : nat) (kw : init_kwargs) (self_initial_model : option loc)
  : M heap_t (option ndarray) :=
  if is_None (p0_prior kw) || eq_str (p0_prior kw) "sparse" then
    ret (Some (zeros [nstates]))
  else
    match p0_prior kw with
    | PArray a =>
        if (ndim a =? 1) && (nth 0 (shape a) 0 =? nstates)
        then ret (Some (array a))
        else raise (Exn ValueError "initial distribution prior must have dimension")
    | p =>
        if eq_str p "mixed" then
          match initial_model_arg kw, self_initial_model with
          | Some _, Some l =>
              m <- deref l ;;
              ret (Some (array (initial_distribution m)))
          | _, _ => ret None
          end
        else if eq_str p "uniform" then
          ret (Some (ones [nstates]))
        else
          raise (Exn ValueError "initial distribution prior mode undefined")
    end.

(** The block [# prior count matrix].  An array of another shape than
    [(nstates, nstates)] leaves [self.prior_C] unassigned. *)
Definition init_prior_C (nstates : nat) (kw : init_kwargs) (self_initial_model : option loc)
  : M heap_t (attr (option ndarray)) :=
  if is_None (transition_matrix_prior kw) || eq_str (p0_prior kw) "sparse" then
    ret (Val (Some (zeros [nstates; nstates])))
  else
    match transition_matrix_prior kw with
    | PArray a =>
        if shape_eqb (shape a) [nstates; nstates]
        then ret (Val (Some (array a)))
        else ret Unset
    | p =>
        if eq_str p "mixed" then
          match initial_model_arg kw, self_initial_model with
          | Some _, Some l =>
              m <- deref l ;;
              ret (Val (Some (array (transition_matrix m))))
          | _, _ => ret (Val None)
          end
        else if eq_str (p0_prior kw) "uniform" then
          ret (Val (Some (ones [nstates; nstates])))
        else
          raise (Exn ValueError "transition matrix prior mode undefined")
    end.

(** The block [# check if we work with these options]. *)
Definition init_check (reversible : bool) (self_initial_model : option loc)
    (self_prior_C : attr (option ndarray)) : M heap_t unit :=
  if reversible then
    match self_initial_model with
    | Some l =>
        m <- deref l ;;
        pc <- getattr "prior_C" self_prior_C ;;
        C <- lift (add_opt broadcast_add (transition_matrix m) pc) ;;
        if negb (is_connected C) then
          raise (Exn NotImplementedError
                   "Trying to sample disconnected HMM with option reversible")
        else ret tt
    | None => ret tt
    end
  else ret tt.

Definition __init__ (nstates : nat) (kw : init_kwargs) : M heap_t sampler :=
  (* Use user-specified initial model, if provided. *)
  self_initial_model <-
    match initial_model_arg kw with
    | Some l => l' <- copy l ;; ret (Some l')
    | None => ret None
    end ;;
  self_prior_n0 <- init_prior_n0 nstates kw self_initial_model ;;
  self_prior_C <- init_prior_C nstates kw self_initial_model ;;
  init_check (reversible_arg kw) self_initial_model self_prior_C ;;
  (* sampling options *)
  ret {| reversible := reversible_arg kw;
         stationary := stationary_arg kw;
         nstates := nstates;
         initial_model := self_initial_model;
         prior_n0 := self_prior_n0;
         prior_C := self_prior_C;
         transition_matrix_sampling_steps := transition_matrix_sampling_steps_arg kw;
         nsamples := nsamples_arg kw;
         output := output_arg kw;
         _alpha := Unset;
         _pobs := Unset;
         _model := _create_model |}.

(** ** Sampling *)

(** What a call of [fit] acts on: the sampler object [self], the store of
    [HMM] objects, and the state of the collaborators. *)
Record state := MkState { self : sampler; heap : heap_t; ext : W }.

Definition on_heap {A} (f : M heap_t A) : M state A :=
  fun s => let '(r, h) := f (heap s) in (r, MkState (self s) h (ext s)).

Definition on_ext {A} (f : W -> res A * W) : M state A :=
  fun s => let '(r, x) := f (ext s) in (r, MkState (self s) (heap s) x).

Definition set_self (f : sampler -> sampler) : M state unit :=
  modify (fun s => MkState (f (self s)) (heap s) (ext s)).

(** [del self.<name>] for an attribute held as [a]. *)
Definition delattr {A} (name : string) (a : sampler -> attr A)
    (clear : sampler -> sampler) : M state unit :=
  x <- gets self ;;
  _ <- getattr name (a x) ;;
  set_self clear.

(** A progress callback: a function of no argument. *)
Definition callback : Type := W -> res unit * W.

(** The keyword arguments of [fit]. *)
Record fit_kwargs := FitKw {
  nburn : Z;
  nthin : Z;
  save_hidden_state_trajectory : bool;
  call_back : option callback
}.

(** The defaults of the signature
    [fit(self, observations, nburn=0, nthin=1,
         save_hidden_state_trajectory=False, call_back=None, **kwargs)]. *)
Definition fit_defaults : fit_kwargs :=
  {| nburn := 0%Z; nthin := 1%Z; save_hidden_state_trajectory := false;
     call_back := None |}.

Definition _sample_hidden_state_trajectory (model : loc) (obs : ndarray)
  : M state (list nat) :=
  (* Determine observation trajectory length *)
  T <- lift (shape0 obs) ;;
  (* Convenience access. *)
  m <- on_heap (deref model) ;;
  let A := transition_matrix m in
  let pi := initial_distribution m in
  (* compute output probability matrix *)
  x <- gets self ;;
  pobs <- getattr "_pobs" (_pobs x) ;;
  pobs <- lift (p_obs (output_model m) obs pobs) ;;
  set_self (with__pobs (Val pobs)) ;;
  (* compute forward variables *)
  x <- gets self ;;
  alpha <- getattr "_alpha" (_alpha x) ;;
  alpha <- lift (forward A pobs pi T alpha) ;;
  set_self (with__alpha (Val alpha)) ;;
  (* sample path *)
  S <- on_ext (sample_path alpha A pobs T) ;;
  ret S.

Definition _update_hidden_state_trajectories (model : loc) (observations : list ndarray)
  : M state unit :=
  trajectories <- comprehension (_sample_hidden_state_trajectory model) observations ;;
  m <- on_heap (deref model) ;;
  on_heap (store model (with_hidden_state_trajectories (Some trajectories) m)).

Definition _update_emission_probabilities (model : loc) (observations : list ndarray)
  : M state unit :=
  m <- on_heap (deref model) ;;
  observations_by_state <-
    comprehension (fun state => lift (collect_observations_in_state m observations state))
                  (seq 0 (hmm_nstates m)) ;;
  om <- on_ext (output_model_sample (output_model m) observations_by_state) ;;
  m <- on_heap (deref model) ;;
  on_heap (store model (with_output_model om m)).

Definition _update_transition_matrix (model : loc) : M state unit :=
  m <- on_heap (deref model) ;;
  counts <- lift (count_matrix m) ;;
  x <- gets self ;;
  pc <- getattr "prior_C" (prior_C x) ;;
  (* posterior count matrix *)
  C <- lift (add_opt broadcast_add counts pc) ;;
  (* check if we work with these options *)
  if reversible x && negb (is_connected C) then
    raise (Exn NotImplementedError
             "Encountered disconnected count matrix with sampling option reversible")
  else
    (* ensure consistent sparsity pattern *)
    P0 <- lift (msm_transition_matrix C (reversible x)) ;;
    S <- lift (add broadcast_add P0 (transpose P0)) ;;
    C <- lift (assign_where C (shape S) (eq_zero S) 0%float) ;;
    (* run sampler *)
    Tij <- on_ext (sample_tmatrix C (transition_matrix_sampling_steps x) (reversible x)) ;;
    (* INITIAL DISTRIBUTION *)
    p0 <-
      (if stationary x then
         lift (stationary_distribution Tij C)
       else
         n0 <- lift (count_init m) ;;
         first_timestep_counts_with_prior <- lift (add_opt broadcast_add n0 (prior_n0 x)) ;;
         let positive := gt_zero first_timestep_counts_with_prior in
         let p0 := zeros (shape n0) in
         d <- on_ext (dirichlet (select (data first_timestep_counts_with_prior) positive)) ;;
         lift (assign_masked p0 positive d)) ;;
    (* update HMM with new sample *)
    m <- on_heap (deref model) ;;
    m <- lift (update p0 Tij m) ;;
    on_heap (store model m).

(** One round of Gibbs sampling. *)
Definition _update (model : loc) (observations : list ndarray) : M state unit :=
  _update_hidden_state_trajectories model observations ;;
  _update_emission_probabilities model observations ;;
  _update_transition_matrix model.

(** Initialize using an MLHMM. *)
Definition _generateInitialModel (observations : list ndarray) (output_model_type : string)
  : M state loc :=
  x <- gets self ;;
  m <- on_ext (mlhmm (nstates x) (reversible x) output_model_type observations) ;;
  on_heap (alloc m).

(** [if call_back is not None: call_back()] *)
Definition invoke (call_back : option callback) : M state unit :=
  match call_back with
  | None => ret tt
  | Some cb => on_ext cb
  end.

(** The body of the loop [for _ in range(self.nsamples)] of [fit]; the local
    list [models] is the accumulator. *)
Definition collect (sample_model : loc) (observations : list ndarray) (kw : fit_kwargs)
    (models : list loc) : M state (list loc) :=
  (* Run a number of Gibbs sampling updates to generate each sample. *)
  for_range (nthin kw) (fun _ => _update sample_model observations) ;;
  (* Save a copy of the current model. *)
  model_copy <- on_heap (copy sample_model) ;;
  (if negb (save_hidden_state_trajectory kw) then
     m <- on_heap (deref model_copy) ;;
     on_heap (store model_copy (with_hidden_state_trajectory (Val None) m))
   else ret tt) ;;
  let models := (models ++ [model_copy])%list in
  invoke (call_back kw) ;;
  ret models.

(** The block [# Generate our own initial model.] of [fit]: afterwards
    [self.initial_model] refers to a model, which is returned. *)
Definition own_initial_model (observations : list ndarray) : M state loc :=
  x <- gets self ;;
  match initial_model x with
  | None =>
      l <- _generateInitialModel observations (output x) ;;
      set_self (with_initial_model (Some l)) ;;
      m <- on_heap (deref l) ;;
      x <- gets self ;;
      (match prior_n0 x with
       | None => set_self (with_prior_n0 (Some (initial_distribution m)))
       | Some _ => ret tt
       end) ;;
      x <- gets self ;;
      pc <- getattr "prior_C" (prior_C x) ;;
      (match pc with
       | None => set_self (with_prior_C (Val (Some (array (transition_matrix m)))))
       | Some _ => ret tt
       end) ;;
      ret l
  | Some l => ret l
  end.

Definition fit (observations : list ndarray) (kw : fit_kwargs) : M state unit :=
  (* Sanity checks. *)
  if length observations =? 0 then
    raise (Exn ValueError "No observations were provided.")
  else
    lens <- comprehension (fun o => lift (len o)) observations ;;
    let maxT := fold_right Nat.max 0 lens in
    (* pre-construct hidden variables *)
    x <- gets self ;;
    set_self (with__alpha (Val (zeros [maxT; nstates x]))) ;;
    x <- gets self ;;
    set_self (with__pobs (Val (zeros [maxT; nstates x]))) ;;
    (* Generate our own initial model. *)
    initial <- own_initial_model observations ;;
    (* save a copy of the initial model as the prior *)
    prior <- on_heap (copy initial) ;;
    sample_model <- on_heap (copy prior) ;;
    (* Run burn-in. *)
    for_range (nburn kw) (fun _ => _update sample_model observations) ;;
    (* Collect data. *)
    x <- gets self ;;
    models <- fold_range (nsamples x)
                (fun _ models => collect sample_model observations kw models) [] ;;
    x <- gets self ;;
    set_self (with__model (MkPosterior (BayesianHMMSampler.prior (_model x)) (Some models))) ;;
    x <- gets self ;;
    set_self (with__model (MkPosterior (Some prior) (samples (_model x)))) ;;
    (* free estimation variables *)
    delattr "_alpha" _alpha (with__alpha Unset) ;;
    delattr "_pobs" _pobs (with__pobs Unset) ;;
    ret tt.

(** ** What a sweep may touch *)

(** The sampler object with its two scratch buffers cleared: what is left
    are the attributes that a Gibbs sweep does not assign. *)
Definition without_buffers (x : sampler) : sampler :=
  with__alpha Unset (with__pobs Unset x).

(** Between [s] and [s'] nothing changed but, at most, the object at [l],
    objects allocated since [s], the scratch buffers of the sampler, and the
    state of the collaborators. *)
Definition frame (l : loc) (s s' : state) : Prop :=
  length (heap s) <= length (heap s')
  /\ (forall l', l' < length (heap s) -> l' <> l -> heap s' !! l' = heap s !! l')
  /\ without_buffers (self s') = without_buffers (self s).

(** The model that [fit] starts from, read off the state at entry: the
    object [self.initial_model] refers to, or else the model the
    maximum-likelihood estimator returns for the observations. *)
Definition initial_model_at_entry (s : state) (observations : list ndarray) (im : hmm)
  : Prop :=
  match initial_model (self s) with
  | Some l => heap s !! l = Some im
  | None =>
      fst (mlhmm (nstates (self s)) (reversible (self s)) (output (self s))
                 observations (ext s)) = Ok im
  end.

(** Both scratch buffers are attributes of the sampler. *)
Definition buffers_set (x : sampler) : Prop :=
  _alpha x <> Unset /\ _pobs x <> Unset.

(** [frame l], and no buffer has been deleted. *)
Definition sweeps (l : loc) (s s' : state) : Prop :=
  frame l s s' /\ (buffers_set (self s) -> buffers_set (self s')).

(** The objects below [n] and the posterior are in [s'] what they are in
    [s]. *)
Definition keeps (n : nat) (s s' : state) : Prop :=
  n <= length (heap s) ->
  n <= length (heap s')
  /\ (forall l, l < n -> heap s' !! l = heap s !! l)
  /\ _model (self s') = _model (self s).

(** ** What the collection loop stores *)

(** The object appended to [models] in a round whose working model holds
    [m]: the copy, with [hidden_state_trajectory] set to [None] unless the
    trajectory is to be saved. *)
Definition snapshot_of (kw : fit_kwargs) (m : hmm) : hmm :=
  if save_hidden_state_trajectory kw then m
  else with_hidden_state_trajectory (Val None) m.

(** The rounds of the collection loop that lead from [s] to [s'], one for
    each element [(l, c)] of [snaps]: [nthin] sweeps of the working model
    [sample_model]; then the new object [l] that holds [c], the snapshot of
    the working model as these sweeps left it; then the callback. *)
Fixpoint snapshots (sample_model : loc) (observations : list ndarray) (kw : fit_kwargs)
    (s : state) (snaps : list (loc * hmm)) (s' : state) : Prop :=
  match snaps with
  | [] => s' = s
  | (l, c) :: rest =>
      exists t m u,
        for_range (nthin kw) (fun _ => _update sample_model observations) s = (Ok tt, t)
        /\ heap t !! sample_model = Some m
        /\ l = length (heap t)
        /\ c = snapshot_of kw m
        /\ invoke (call_back kw) (MkState (self t) (heap t ++ [c]) (ext t)) = (Ok tt, u)
        /\ snapshots sample_model observations kw u rest s'
  end.

End Sampler.
End BayesianHMMSampler.

(* ===================================================================== *)
(** * data/util.py: timeshifted_split                                     *)
(* ===================================================================== *)

Module TimeshiftedSplit.
Import Py.

(** [np.random.RandomState]: the state of a generator, its in-place
    [shuffle] of an index array, and the state of a newly created generator
    ([np.random.RandomState()]). *)
Class RandomState := {
  RS : Type;
  rs_shuffle : list nat -> RS -> list nat * RS;
  rs_new : RS
}.

(** What the generator yields: [x] alone when [lagtime] is 0, the pair
    [(x, x_lagged)] otherwise. *)
Inductive block (F : Type) :=
| Single (x : list F)
| Pair (x x_lagged : list F).
Arguments Single {F} x.
Arguments Pair {F} x x_lagged.

(** How the iteration of the generator goes on after the blocks it has
    yielded: it is exhausted, it raises, or its [while] loop is still
    running when the rounds granted to it are used up. *)
Inductive ending :=
| Exhausted
| Raised (e : exn)
| Running.

Section Generator.
Context {R : RandomState}.
(** [F] is the type of a frame, one entry of a trajectory along its first
    axis; [asarray_chkfinite] is [np.asarray_chkfinite] on a trajectory. *)
Context {F : Type} (asarray_chkfinite : list F -> res (list F)).

(** An iteration of the generator: the blocks in the order they were
    yielded, how it ended, and the random state it leaves. *)
Record run := Run {
  blocks : list (block F);
  ended : ending;
  random_state_after : option RS
}.

(** The keyword arguments. *)
Record kwargs := Kw {
  chunksize : Z;
  stride : Z;
  n_splits : option Z;
  shuffle : bool;
  random_state : option RS
}.

(** The defaults of the signature
    [timeshifted_split(inputs, lagtime, chunksize=1000, stride=1,
                       n_splits=None, shuffle=False, random_state=None)]. *)
Definition defaults : kwargs :=
  {| chunksize := 1000%Z; stride := 1%Z; n_splits := None; shuffle := false;
     random_state := None |}.

(** Every [gap + 1]-th entry of [l], the first one after [wait] entries. *)
Fixpoint take_every {X} (gap wait : nat) (l : list X) : list X :=
  match l with
  | [] => []
  | x :: l' =>
      match wait with
      | O => x :: take_every gap gap l'
      | S w => take_every gap w l'
      end
  end.

(** [l[::s]]: a zero step is refused, a negative one walks from the end. *)
Definition step_slice {X} (s : Z) (l : list X) : res (list X) :=
  if (s =? 0)%Z then Raise (Exn ValueError "slice step cannot be zero")
  else if (0 <? s)%Z then Ok (take_every (Z.to_nat s - 1) 0 l)
  else Ok (take_every (Z.to_nat (- s) - 1) 0 (rev l)).

(** [l[0::s]]: the walk starts at the first entry, and with a negative step
    it ends there. *)
Definition step_slice_from_0 {X} (s : Z) (l : list X) : res (list X) :=
  if (s =? 0)%Z then Raise (Exn ValueError "slice step cannot be zero")
  else if (0 <? s)%Z then Ok (take_every (Z.to_nat s - 1) 0 l)
  else Ok (firstn 1 l).

(** [l[a:b]] for [0 <= a] and [0 <= b]. *)
Definition slice {X} (l : list X) (a b : nat) : list X :=
  firstn (b - a) (skipn a l).

(** [data[ixs]] for an array of indices: numpy refuses an index out of
    bounds. *)
Fixpoint index (data : list F) (ixs : list nat) : res (list F) :=
  match ixs with
  | [] => Ok []
  | i :: ixs' =>
      match data !! i with
      | Some a =>
          match index data ixs' with
          | Ok l => Ok (a :: l)
          | Raise e => Raise e
          end
      | None => Raise (Exn IndexError "index is out of bounds")
      end
  end.

(** [np.array_split(ix, n)] for [n >= 1]: the first [len(ix) % n] parts
    have [len(ix) // n + 1] entries, the others [len(ix) // n]. *)
Fixpoint cut {X} (sizes : list nat) (l : list X) : list (list X) :=
  match sizes with
  | [] => []
  | k :: sizes' => firstn k l :: cut sizes' (skipn k l)
  end.

Definition array_split {X} (l : list X) (n : nat) : list (list X) :=
  let each := length l / n in
  let extras := length l mod n in
  cut (repeat (Datatypes.S each) extras ++ repeat each (n - extras)) l.

(** The block for the indices [ix_x] of [data] and [ix_lagged] of
    [data_lagged]. *)
Definition make_block (lagtime : Z) (data data_lagged : list F) (ix_x ix_lagged : list nat)
  : res (block F) :=
  match index data ix_x with
  | Ok x =>
      if (0 <? lagtime)%Z then
        match index data_lagged ix_lagged with
        | Ok x_lagged => Ok (Pair x x_lagged)
        | Raise e => Raise e
        end
      else Ok (Single x)
  | Raise e => Raise e
  end.

(** The loop [for ix_split in np.array_split(ix, n_splits)]. *)
Fixpoint over_splits (lagtime : Z) (data data_lagged : list F) (splits : list (list nat))
  : list (block F) * ending :=
  match splits with
  | [] => ([], Exhausted)
  | ix_split :: rest =>
      if 0 <? length ix_split then
        match make_block lagtime data data_lagged ix_split ix_split with
        | Ok b =>
            let '(bs, e) := over_splits lagtime data data_lagged rest in
            (b :: bs, e)
        | Raise e => ([], Raised e)
        end
      else ([], Exhausted)
  end.

(** The loop [while t < len(data)], for at most [rounds] rounds. *)
Fixpoint over_chunks (rounds : nat) (lagtime : Z) (chunksize : nat)
    (data data_lagged : list F) (ix : list nat) (t : nat) : list (block F) * ending :=
  if t <? length data then
    if t =? length data_lagged then ([], Exhausted)
    else
      match rounds with
      | O => ([], Running)
      | S rounds' =>
          match make_block lagtime data data_lagged
                           (slice ix t (Nat.min (t + chunksize) (length data)))
                           (slice ix t (Nat.min (t + chunksize) (length data_lagged))) with
          | Ok b =>
              let '(bs, e) :=
                over_chunks rounds' lagtime chunksize data data_lagged ix (t + chunksize) in
              (b :: bs, e)
          | Raise e => ([], Raised e)
          end
      end
  else ([], Exhausted).

(** The body of the loop [for data in inputs]. *)
Definition split_one (rounds : nat) (lagtime : Z) (kw : kwargs) (rs : option RS)
    (data : list F) : run :=
  match asarray_chkfinite data with
  | Raise e => Run [] (Raised e) rs
  | Ok data =>
      match step_slice (stride kw) (skipn (Z.to_nat lagtime) data) with
      | Raise e => Run [] (Raised e) rs
      | Ok data_lagged =>
          match
            (if (0 <? lagtime)%Z
             then step_slice (stride kw) (firstn (length data - Z.to_nat lagtime) data)
             else step_slice_from_0 (stride kw) data)
          with
          | Raise e => Run [] (Raised e) rs
          | Ok data =>
              (* iota range over data *)
              let ix := seq 0 (length data) in
              let shuffled :=
                if shuffle kw then
                  match rs with
                  | Some r => let '(ix', r') := rs_shuffle ix r in Ok (ix', Some r')
                  | None =>
                      Raise (Exn AttributeError
                               "'NoneType' object has no attribute 'shuffle'")
                  end
                else Ok (ix, rs) in
              match shuffled with
              | Raise e => Run [] (Raised e) rs
              | Ok (ix, rs) =>
                  match n_splits kw with
                  | Some n =>
                      if (n <? 1)%Z then Run [] (Raised (Exn AssertionError "")) rs
                      else
                        let '(bs, e) :=
                          over_splits lagtime data data_lagged
                                      (array_split ix (Z.to_nat n)) in
                        Run bs e rs
                  | None =>
                      let '(bs, e) :=
                        over_chunks rounds lagtime (Z.to_nat (chunksize kw))
                                    data data_lagged ix 0 in
                      Run bs e rs
                  end
              end
          end
      end
  end.

(** The loop [for data in inputs]: the blocks of a trajectory follow those
    of the trajectories before it, unless the iteration has ended there. *)
Fixpoint over_inputs (rounds : nat) (lagtime : Z) (kw : kwargs) (rs : option RS)
    (inputs : list (list F)) : run :=
  match inputs with
  | [] => Run [] Exhausted rs
  | data :: rest =>
      let r := split_one rounds lagtime kw rs data in
      match ended r with
      | Exhausted =>
          let r' := over_inputs rounds lagtime kw (random_state_after r) rest in
          Run (blocks r ++ blocks r') (ended r') (random_state_after r')
      | _ => r
      end
  end.

(** The body of [timeshifted_split] on a list of trajectories, iterated
    until the generator is exhausted or raises, with at most [rounds] rounds
    of the [while] loop for a trajectory. *)
Definition split_list (rounds : nat) (inputs : list (list F)) (lagtime : Z) (kw : kwargs)
  : run :=
  if (lagtime <? 0)%Z then
    Run [] (Raised (Exn ValueError "lagtime has to be positive")) (random_state kw)
  else if (chunksize kw <? 0)%Z then
    Run [] (Raised (Exn ValueError "chunksize has to be positive")) (random_state kw)
  else
    let rs :=
      match shuffle kw, random_state kw with
      | true, None => Some rs_new
      | _, r => r
      end in
    if negb (forallb (fun data => (lagtime <? Z.of_nat (length data))%Z) inputs) then
      Run [] (Raised (Exn ValueError "Input contained to short (smaller than lagtime)")) rs
    else over_inputs rounds lagtime kw rs inputs.

End Generator.

Arguments run {R} F.
Arguments Run {R F} blocks ended random_state_after.
Arguments blocks {R F} r.
Arguments ended {R F} r.
Arguments random_state_after {R F} r.

(** What [inputs] may be: a list of trajectories, one trajectory (an
    array), or a tuple of trajectories. *)
Inductive inputs_arg (F : Type) :=
| AsList (l : list (list F))
| AsArray (a : list F)
| AsTuple (l : list (list F)).
Arguments AsList {F} l.
Arguments AsArray {F} a.
Arguments AsTuple {F} l.

Section Entry.
Context {R : RandomState} {F : Type}.
(** All numbers of a frame are finite. *)
Context (finite : F -> bool).

(** [np.asarray_chkfinite] on a trajectory. *)
Definition chkfinite (data : list F) : res (list F) :=
  if forallb finite data then Ok data
  else Raise (Exn ValueError "array must not contain infs or NaNs").

(** [np.asarray_chkfinite] on a list of trajectories: they become the
    frames of one array, which numpy builds when they have one length. *)
Definition chkfinite_nested (data : list (list F)) : res (list (list F)) :=
  match data with
  | [] => Ok []
  | d :: _ =>
      if forallb (fun d' => length d' =? length d) data then
        if forallb (forallb finite) data then Ok data
        else Raise (Exn ValueError "array must not contain infs or NaNs")
      else Raise (Exn ValueError "setting an array element with a sequence")
  end.

(** [timeshifted_split(inputs, lagtime, **kw)], iterated.  Whatever is no
    list is wrapped into a list of one element; a tuple is made a list
    before, so that the list of its trajectories is that one element. *)
Definition timeshifted_split (rounds : nat) (inputs : inputs_arg F) (lagtime : Z)
    (kw : kwargs) : run F + run (list F) :=
  match inputs with
  | AsList l => inl (split_list chkfinite rounds l lagtime kw)
  | AsArray a => inl (split_list chkfinite rounds [a] lagtime kw)
  | AsTuple l => inr (split_list chkfinite_nested rounds [l] lagtime kw)
  end.

End Entry.

(** ** What the blocks are made of *)

(** The entries of the first and of the second component of the blocks, in
    the order of the blocks. *)
Definition block_x {F} (b : block F) : list F :=
  match b with Single x => x | Pair x _ => x end.

Definition block_lagged {F} (b : block F) : list F :=
  match b with Single _ => [] | Pair _ y => y end.

(** [l[::s]] for a step [s] that is not zero. *)
Definition strided {X} (s : Z) (l : list X) : list X :=
  match step_slice s l with
  | Ok r => r
  | Raise _ => []
  end.

(** [l[0::s]] for a step [s] that is not zero. *)
Definition strided_from_0 {X} (s : Z) (l : list X) : list X :=
  match step_slice_from_0 s l with
  | Ok r => r
  | Raise _ => []
  end.

(** The frames of [d] that go to the first component of the blocks:
    [d[:-lagtime][::s]] for a positive [lagtime], [d[0::s]] for
    [lagtime = 0]. *)
Definition x_frames {X} (lagtime s : Z) (d : list X) : list X :=
  if (0 <? lagtime)%Z then strided s (firstn (length d - Z.to_nat lagtime) d)
  else strided_from_0 s d.

(** The frames [a] and [b] stand [lagtime] apart in the trajectory [d]. *)
Definition shifted_in {F} (lagtime : nat) (d : list F) (a b : F) : Prop :=
  exists p, d !! p = Some a /\ d !! (p + lagtime) = Some b.

(** Entry [i] of [data] and entry [i] of [data_lagged] stand [lag] apart
    in [d]. *)
Definition pointwise {F} (lag : nat) (d data data_lagged : list F) : Prop :=
  forall i a c, data !! i = Some a -> data_lagged !! i = Some c -> shifted_in lag d a c.

(** A block pairs every frame with the frame [lagtime] later in [d]. *)
Definition aligned_in {F} (lagtime : nat) (d : list F) (b : block F) : Prop :=
  match b with
  | Single _ => False
  | Pair x y =>
      length x = length y
      /\ forall j a c, x !! j = Some a -> y !! j = Some c -> shifted_in lagtime d a c
  end.

End TimeshiftedSplit.

(* ===================================================================== *)
(** * A deterministic instance of the collaborators                       *)
(* ===================================================================== *)

(** Small, executable stand-ins for the numerical libraries, on which the
    samplers can be run: the "random" draws are determined by a counter of
    the draws made so far. *)
Module Standin.
Import Py Np NpOps.

Definition fsum (xs : list float) : float := fold_right PrimFloat.add 0%float xs.

(** A vector of weights scaled to sum one (left alone when the sum is zero). *)
Definition normalize (xs : list float) : list float :=
  let s := fsum xs in
  if PrimFloat.eqb s 0%float then xs else map (fun x => x / s)%float xs.

(** [k] rows of [n] entries each. *)
Fixpoint rows (k n : nat) (xs : list float) : list (list float) :=
  match k with
  | O => []
  | S k' => firstn n xs :: rows k' n (skipn n xs)
  end.

(** The row-stochastic matrix with the proportions of the rows of [C]. *)
Definition row_normalize (C : ndarray) : ndarray :=
  match shape C with
  | [r; c] => NdArray [r; c] (concat (map normalize (rows r c (data C))))
  | _ => C
  end.

Definition uniform_vector (n : nat) : ndarray :=
  NdArray [n] (repeat (1 / float_of_nat n)%float n).

Definition uniform_matrix (n : nat) : ndarray :=
  NdArray [n; n] (repeat (1 / float_of_nat n)%float (n * n)).

(** Directed connectivity: every state reaches every other one along
    positive entries (Warshall's closure over the intermediate states). *)
Fixpoint closure (k : nat) (R : nat -> nat -> bool) : nat -> nat -> bool :=
  match k with
  | O => R
  | S k' => fun i j => closure k' R i j || (closure k' R i k' && closure k' R k' j)
  end.

Definition edge (C : ndarray) (n i j : nat) : bool :=
  PrimFloat.ltb 0%float (nth (i * n + j) (data C) 0%float).

Definition strongly_connected (C : ndarray) : bool :=
  let n := nth 0 (shape C) 0 in
  forallb (fun i => forallb (fun j => (i =? j) || closure n (edge C n) i j) (seq 0 n))
          (seq 0 n).

(** The consecutive pairs of a trajectory. *)
Fixpoint transitions (traj : list nat) : list (nat * nat) :=
  match traj with
  | a :: (b :: _) as rest => (a, b) :: transitions rest
  | _ => []
  end.

Definition count_transitions (n : nat) (trajs : list (list nat)) : ndarray :=
  let ts := flat_map transitions trajs in
  NdArray [n; n]
    (map (fun k => float_of_nat (length (List.filter (fun ij => fst ij * n + snd ij =? k) ts)))
         (seq 0 (n * n))).

Definition count_first (n : nat) (trajs : list (list nat)) : ndarray :=
  NdArray [n]
    (map (fun i => float_of_nat
                     (length (List.filter (fun t => match t with s :: _ => s =? i | [] => false end)
                                     trajs)))
         (seq 0 n)).

Definition no_trajectories {A} : res A :=
  Raise (Exn TypeError "'NoneType' object is not iterable").

Definition observations_in_state (obs : ndarray) (traj : list nat) (state : nat) : ndarray :=
  let xs := select (data obs) (map (Nat.eqb state) traj) in
  NdArray [length xs] xs.

(** A path that cycles through the states, starting at the draw counter. *)
Definition cyclic_path (n T w : nat) : list nat :=
  map (fun t => (t + w) mod n) (seq 0 T).

#[local] Instance collaborators : BayesianHMMSampler.Collaborators := {|
  BayesianHMMSampler.OM := unit;
  BayesianHMMSampler.W := nat;
  BayesianHMMSampler.is_connected := strongly_connected;
  BayesianHMMSampler.msm_transition_matrix := fun C _ => Ok (row_normalize C);
  BayesianHMMSampler.sample_tmatrix := fun C _ _ w => (Ok (row_normalize C), S w);
  BayesianHMMSampler.stationary_distribution :=
    fun P _ => Ok (uniform_vector (nth 0 (shape P) 0));
  BayesianHMMSampler.dirichlet := fun alpha w => (Ok (normalize alpha), S w);
  BayesianHMMSampler.forward := fun _ _ _ _ alpha => Ok alpha;
  BayesianHMMSampler.sample_path :=
    fun _ A _ T w => (Ok (cyclic_path (nth 0 (shape A) 0) T w), S w);
  BayesianHMMSampler.p_obs := fun _ _ out => Ok (ones (shape out));
  BayesianHMMSampler.output_model_sample := fun om _ w => (Ok om, S w);
  BayesianHMMSampler.count_matrix :=
    fun m => match BayesianHMMSampler.hidden_state_trajectories m with
             | Some trajs => Ok (count_transitions (BayesianHMMSampler.hmm_nstates m) trajs)
             | None => no_trajectories
             end;
  BayesianHMMSampler.count_init :=
    fun m => match BayesianHMMSampler.hidden_state_trajectories m with
             | Some trajs => Ok (count_first (BayesianHMMSampler.hmm_nstates m) trajs)
             | None => no_trajectories
             end;
  BayesianHMMSampler.collect_observations_in_state :=
    fun m observations state =>
      match BayesianHMMSampler.hidden_state_trajectories m with
      | Some trajs =>
          Ok (map (fun ot => observations_in_state (fst ot) (snd ot) state)
                  (combine observations trajs))
      | None => no_trajectories
      end;
  BayesianHMMSampler.update :=
    fun p0 Tij m =>
      Ok (BayesianHMMSampler.with_initial_distribution p0
            (BayesianHMMSampler.with_transition_matrix Tij m));
  BayesianHMMSampler.mlhmm :=
    fun n _ _ _ w =>
      (Ok (BayesianHMMSampler.MkHMM n (uniform_matrix n) (uniform_vector n) tt None Unset),
       S w);
  BayesianHMMSampler.broadcast_add :=
    fun _ _ => Raise (Exn ValueError "operands could not be broadcast together")
|}.

Definition sampler_matrix (s : TransitionMatrixSampler.sampler_obj) : ndarray :=
  match s with
  | TransitionMatrixSampler.SamplerNonRev C => C
  | TransitionMatrixSampler.SamplerRev C _ => C
  | TransitionMatrixSampler.SamplerRevPi C _ _ => C
  end.

#[local] Instance backend : TransitionMatrixSampler.Backend := {|
  TransitionMatrixSampler.W := nat;
  TransitionMatrixSampler.sampler_step :=
    fun s _ w =>
      let P := row_normalize (sampler_matrix s) in
      (Ok (P, uniform_vector (nth 0 (shape P) 0)), S w)
|}.

(** A callback that counts its calls on the shared state. *)
Definition tick : @TransitionMatrixSampler.callback backend := fun w => (Ok tt, S w).

(** ** Inputs *)

Definition C22 : ndarray := NdArray [2; 2] [3; 2; 1; 4]%float.

(** One observation sequence of three scalars. *)
Definition obs3 : ndarray := NdArray [3] [0.5; 0.25; 0.75]%float.

(** A [3 x 3] array, of the wrong shape for two states. *)
Definition prior33 : ndarray := ones [3; 3].

(** A reversible sampler on [C22], and the state before any draw. *)
Definition sampler22 : TransitionMatrixSampler.t :=
  TransitionMatrixSampler.Build C22 (TransitionMatrixSampler.SamplerRev C22 None)
                                (Some (TransitionMatrixSampler.Int 1)).

Definition world0 : TransitionMatrixSampler.world :=
  TransitionMatrixSampler.World 0 [].

(** [BayesianHMMSampler(nstates, transition_matrix_prior=tmp)], every other
    argument left at its default. *)
Definition kw_transition_matrix_prior (tmp : BayesianHMMSampler.prior_arg)
  : BayesianHMMSampler.init_kwargs :=
  {| BayesianHMMSampler.initial_model_arg := None;
     BayesianHMMSampler.reversible_arg := true;
     BayesianHMMSampler.stationary_arg := false;
     BayesianHMMSampler.transition_matrix_sampling_steps_arg := 1000%Z;
     BayesianHMMSampler.p0_prior := BayesianHMMSampler.PStr "mixed";
     BayesianHMMSampler.transition_matrix_prior := tmp;
     BayesianHMMSampler.output_arg := "gaussian";
     BayesianHMMSampler.nsamples_arg := 100%Z |}.

(** [BayesianHMMSampler(nstates, p0_prior=None, transition_matrix_prior=None,
    nsamples=k)]: no pseudo-counts. *)
Definition kw_no_prior (k : Z) : BayesianHMMSampler.init_kwargs :=
  {| BayesianHMMSampler.initial_model_arg := None;
     BayesianHMMSampler.reversible_arg := true;
     BayesianHMMSampler.stationary_arg := false;
     BayesianHMMSampler.transition_matrix_sampling_steps_arg := 1000%Z;
     BayesianHMMSampler.p0_prior := BayesianHMMSampler.PNone;
     BayesianHMMSampler.transition_matrix_prior := BayesianHMMSampler.PNone;
     BayesianHMMSampler.output_arg := "gaussian";
     BayesianHMMSampler.nsamples_arg := k |}.

(** [BayesianHMMSampler(nstates, nsamples=k)]. *)
Definition kw_nsamples (k : Z) : BayesianHMMSampler.init_kwargs :=
  {| BayesianHMMSampler.initial_model_arg := None;
     BayesianHMMSampler.reversible_arg := true;
     BayesianHMMSampler.stationary_arg := false;
     BayesianHMMSampler.transition_matrix_sampling_steps_arg := 1000%Z;
     BayesianHMMSampler.p0_prior := BayesianHMMSampler.PStr "mixed";
     BayesianHMMSampler.transition_matrix_prior := BayesianHMMSampler.PStr "mixed";
     BayesianHMMSampler.output_arg := "gaussian";
     BayesianHMMSampler.nsamples_arg := k |}.

(** A three-state model whose trajectory [1, 2, 0] never leaves state 0,
    and a reversible sampler without pseudo-counts holding it. *)
Definition model_120 : BayesianHMMSampler.HMM unit :=
  BayesianHMMSampler.MkHMM 3 (uniform_matrix 3) (uniform_vector 3) tt
                           (Some [[1; 2; 0]]) Unset.

Definition sampler_no_prior : BayesianHMMSampler.sampler :=
  {| BayesianHMMSampler.reversible := true;
     BayesianHMMSampler.stationary := false;
     BayesianHMMSampler.nstates := 3;
     BayesianHMMSampler.initial_model := Some 0;
     BayesianHMMSampler.prior_n0 := Some (zeros [3]);
     BayesianHMMSampler.prior_C := Val (Some (zeros [3; 3]));
     BayesianHMMSampler.transition_matrix_sampling_steps := 1000%Z;
     BayesianHMMSampler.nsamples := 1%Z;
     BayesianHMMSampler.output := "gaussian";
     BayesianHMMSampler._alpha := Val (zeros [3; 3]);
     BayesianHMMSampler._pobs := Val (zeros [3; 3]);
     BayesianHMMSampler._model := BayesianHMMSampler._create_model |}.

Definition state_120 : BayesianHMMSampler.state :=
  BayesianHMMSampler.MkState sampler_no_prior [model_120; model_120] 0.

(** A user-supplied initial model whose state 1 is absorbing. *)
Definition model_absorbing : BayesianHMMSampler.HMM unit :=
  BayesianHMMSampler.MkHMM 2 (NdArray [2; 2] [0.5; 0.5; 0; 1]%float)
                           (uniform_vector 2) tt None Unset.

Definition kw_absorbing : BayesianHMMSampler.init_kwargs :=
  {| BayesianHMMSampler.initial_model_arg := Some 0;
     BayesianHMMSampler.reversible_arg := true;
     BayesianHMMSampler.stationary_arg := false;
     BayesianHMMSampler.transition_matrix_sampling_steps_arg := 1000%Z;
     BayesianHMMSampler.p0_prior := BayesianHMMSampler.PStr "sparse";
     BayesianHMMSampler.transition_matrix_prior := BayesianHMMSampler.PStr "uniform";
     BayesianHMMSampler.output_arg := "gaussian";
     BayesianHMMSampler.nsamples_arg := 100%Z |}.

(** [BayesianHMMSampler(nstates, p0_prior='sparse',
    transition_matrix_prior='uniform')]. *)
Definition kw_sparse : BayesianHMMSampler.init_kwargs :=
  {| BayesianHMMSampler.initial_model_arg := None;
     BayesianHMMSampler.reversible_arg := true;
     BayesianHMMSampler.stationary_arg := false;
     BayesianHMMSampler.transition_matrix_sampling_steps_arg := 1000%Z;
     BayesianHMMSampler.p0_prior := BayesianHMMSampler.PStr "sparse";
     BayesianHMMSampler.transition_matrix_prior := BayesianHMMSampler.PStr "uniform";
     BayesianHMMSampler.output_arg := "gaussian";
     BayesianHMMSampler.nsamples_arg := 100%Z |}.

(** [BayesianHMMSampler(nstates, **kw)] on an empty store, then
    [fit(observations, **fkw)]: the result of [fit] and the final state, or
    the exception of the constructor. *)
Definition construct_and_fit (nstates : nat) (kw : BayesianHMMSampler.init_kwargs)
    (observations : list ndarray) (fkw : BayesianHMMSampler.fit_kwargs)
  : res (res unit * BayesianHMMSampler.state) :=
  match BayesianHMMSampler.__init__ nstates kw [] with
  | (Ok x, h) =>
      Ok (BayesianHMMSampler.fit observations fkw (BayesianHMMSampler.MkState x h 0))
  | (Raise e, _) => Raise e
  end.

(** The sampler [BayesianHMMSampler(2, nsamples=2)] (priors in ['mixed']
    mode, no initial model), before its first [fit]. *)
Definition sampler_mixed : BayesianHMMSampler.sampler :=
  {| BayesianHMMSampler.reversible := true;
     BayesianHMMSampler.stationary := false;
     BayesianHMMSampler.nstates := 2;
     BayesianHMMSampler.initial_model := None;
     BayesianHMMSampler.prior_n0 := None;
     BayesianHMMSampler.prior_C := Val None;
     BayesianHMMSampler.transition_matrix_sampling_steps := 1000%Z;
     BayesianHMMSampler.nsamples := 2%Z;
     BayesianHMMSampler.output := "gaussian";
     BayesianHMMSampler._alpha := Unset;
     BayesianHMMSampler._pobs := Unset;
     BayesianHMMSampler._model := BayesianHMMSampler._create_model |}.

Definition state_mixed : BayesianHMMSampler.state :=
  BayesianHMMSampler.MkState sampler_mixed [] 0.

(** [fit(observations, nburn=1, nthin=2)] with the other arguments at their
    defaults. *)
Definition fit_burn_thin : BayesianHMMSampler.fit_kwargs :=
  {| BayesianHMMSampler.nburn := 1%Z;
     BayesianHMMSampler.nthin := 2%Z;
     BayesianHMMSampler.save_hidden_state_trajectory := false;
     BayesianHMMSampler.call_back := None |}.

(** [fit(observations, nburn=1)]. *)
Definition fit_burn : BayesianHMMSampler.fit_kwargs :=
  {| BayesianHMMSampler.nburn := 1%Z;
     BayesianHMMSampler.nthin := 1%Z;
     BayesianHMMSampler.save_hidden_state_trajectory := false;
     BayesianHMMSampler.call_back := None |}.

(** The state in which [fit [obs3]] leaves [state_mixed]. *)
Definition state_mixed_fitted : BayesianHMMSampler.state :=
  snd (BayesianHMMSampler.fit [obs3] fit_burn_thin state_mixed).


(** A two-state model with uniform parameters, and
    [BayesianHMMSampler(2, initial_model=model)] for the object 0 of the
    store, every other argument at its default. *)
Definition model_uniform : BayesianHMMSampler.HMM unit :=
  BayesianHMMSampler.MkHMM 2 (uniform_matrix 2) (uniform_vector 2) tt None Unset.

Definition kw_initial_model : BayesianHMMSampler.init_kwargs :=
  {| BayesianHMMSampler.initial_model_arg := Some 0;
     BayesianHMMSampler.reversible_arg := true;
     BayesianHMMSampler.stationary_arg := false;
     BayesianHMMSampler.transition_matrix_sampling_steps_arg := 1000%Z;
     BayesianHMMSampler.p0_prior := BayesianHMMSampler.PStr "mixed";
     BayesianHMMSampler.transition_matrix_prior := BayesianHMMSampler.PStr "mixed";
     BayesianHMMSampler.output_arg := "gaussian";
     BayesianHMMSampler.nsamples_arg := 100%Z |}.

(** The state in which a second [fit [obs3]] leaves [state_mixed_fitted]. *)
Definition state_mixed_refitted : BayesianHMMSampler.state :=
  snd (BayesianHMMSampler.fit [obs3] BayesianHMMSampler.fit_defaults state_mixed_fitted).

(** The state in which [fit [obs3] nburn=1], which raises, leaves
    [state_120]. *)
Definition state_120_failed : BayesianHMMSampler.state :=
  snd (BayesianHMMSampler.fit [obs3] fit_burn state_120).

(** The sampler [BayesianHMMSampler(2, transition_matrix_prior=prior33)],
    whose [prior_C] has not been assigned, before its first [fit]. *)
Definition sampler_unset : BayesianHMMSampler.sampler :=
  {| BayesianHMMSampler.reversible := true;
     BayesianHMMSampler.stationary := false;
     BayesianHMMSampler.nstates := 2;
     BayesianHMMSampler.initial_model := None;
     BayesianHMMSampler.prior_n0 := None;
     BayesianHMMSampler.prior_C := Unset;
     BayesianHMMSampler.transition_matrix_sampling_steps := 1000%Z;
     BayesianHMMSampler.nsamples := 100%Z;
     BayesianHMMSampler.output := "gaussian";
     BayesianHMMSampler._alpha := Unset;
     BayesianHMMSampler._pobs := Unset;
     BayesianHMMSampler._model := BayesianHMMSampler._create_model |}.

Definition state_unset : BayesianHMMSampler.state :=
  BayesianHMMSampler.MkState sampler_unset [] 0.

End Standin.

(* ===================================================================== *)
(** * Trajectories to split                                               *)
(* ===================================================================== *)

Module SplitInputs.
Import Py TimeshiftedSplit.

(** A random state whose shuffle reverses the index array, counting its
    calls. *)
#[local] Instance reversing : RandomState := {|
  RS := nat;
  rs_shuffle := fun ix r => (rev ix, S r);
  rs_new := 0
|}.

(** The trajectory of the docstring, [np.array([0, 1, 2, 3, 4, 5, 6])]. *)
Definition data7 : list float := [0; 1; 2; 3; 4; 5; 6]%float.

Definition data3 : list float := [7; 8; 9]%float.

Definition data_nan : list float := [1; PrimFloat.nan; 3]%float.

(** [timeshifted_split] on trajectories of numbers. *)
Definition split (rounds : nat) (inputs : inputs_arg float) (lagtime : Z)
    (kw : @kwargs reversing) : run float + run (list float) :=
  timeshifted_split PrimFloat.is_finite rounds inputs lagtime kw.

(** [chunksize=c] with the other arguments at their defaults. *)
Definition kw_chunksize (c : Z) : @kwargs reversing :=
  {| chunksize := c; stride := 1%Z; n_splits := None; shuffle := false;
     random_state := None |}.

(** [n_splits=n] with the other arguments at their defaults. *)
Definition kw_n_splits (n : Z) : @kwargs reversing :=
  {| chunksize := 1000%Z; stride := 1%Z; n_splits := Some n; shuffle := false;
     random_state := None |}.

(** [chunksize=2, stride=-2, shuffle=True]. *)
Definition kw_shuffled : @kwargs reversing :=
  {| chunksize := 2%Z; stride := (-2)%Z; n_splits := None; shuffle := true;
     random_state := None |}.

(** [stride=-1, n_splits=n, shuffle=sh]: the trajectory walked backwards. *)
Definition kw_backwards (n : option Z) (sh : bool) : @kwargs reversing :=
  {| chunksize := 1000%Z; stride := (-1)%Z; n_splits := n; shuffle := sh;
     random_state := None |}.

(** [stride=s] with the other arguments at their defaults. *)
Definition kw_stride (s : Z) : @kwargs reversing :=
  {| chunksize := 1000%Z; stride := s; n_splits := None; shuffle := false;
     random_state := None |}.

End SplitInputs.

(* ===================================================================== *)
(** * Reasoning about computations                                        *)
(* ===================================================================== *)

Import Py Np NpOps.
Local Open Scope py_scope.

Section MonadFacts.
Context {S : Type}.

Lemma bind_Ok_inv {A B} (m : M S A) (k : A -> M S B) s b s' :
  bind m k s = (Ok b, s') ->
  exists a s1, m s = (Ok a, s1) /\ k a s1 = (Ok b, s').
Proof.
  unfold bind. destruct (m s) as [[a | e] s1]; intros H.
  - exists a, s1. split; [reflexivity | exact H].
  - discriminate H.
Qed.

Lemma bind_Ok_eq {A B} (m : M S A) (k : A -> M S B) s a s1 :
  m s = (Ok a, s1) -> bind m k s = k a s1.
Proof. intros H. unfold bind. rewrite H. reflexivity. Qed.

Lemma bind_Raise_eq {A B} (m : M S A) (k : A -> M S B) s e s1 :
  m s = (Raise e, s1) -> bind m k s = (Raise e, s1).
Proof. intros H. unfold bind. rewrite H. reflexivity. Qed.

Lemma lift_Ok_inv {A} (r : res A) (s s' : S) a :
  lift r s = (Ok a, s') -> r = Ok a /\ s' = s.
Proof. unfold lift. intros H. injection H as -> ->. split; reflexivity. Qed.

Lemma getattr_Ok_inv {A} name (x : attr A) (s s' : S) a :
  getattr name x s = (Ok a, s') -> x = Val a /\ s' = s.
Proof.
  destruct x as [| v]; cbn; intros H.
  - discriminate H.
  - injection H as -> ->. split; reflexivity.
Qed.

(** A relation between the store before and after that every successful run
    of [m] establishes. *)
Definition establishes {A} (R : S -> S -> Prop) (m : M S A) : Prop :=
  forall s a s', m s = (Ok a, s') -> R s s'.

Context (R : S -> S -> Prop) (R_refl : forall s, R s s)
        (R_trans : forall s1 s2 s3, R s1 s2 -> R s2 s3 -> R s1 s3).

Lemma establishes_ret {A} (a : A) : establishes R (ret a).
Proof. intros s a' s' H. injection H as _ <-. apply R_refl. Qed.

Lemma establishes_raise {A} e : establishes R (@raise S A e).
Proof. intros s a s' H. discriminate H. Qed.

Lemma establishes_lift {A} (r : res A) : establishes R (lift r).
Proof. intros s a s' H. apply lift_Ok_inv in H as [_ ->]. apply R_refl. Qed.

Lemma establishes_gets {A} (f : S -> A) : establishes R (gets f).
Proof. intros s a s' H. injection H as _ <-. apply R_refl. Qed.

Lemma establishes_getattr {A} name (x : attr A) : establishes R (getattr name x).
Proof. intros s a s' H. apply getattr_Ok_inv in H as [_ ->]. apply R_refl. Qed.

Lemma establishes_bind {A B} (m : M S A) (k : A -> M S B) :
  establishes R m -> (forall a, establishes R (k a)) -> establishes R (bind m k).
Proof.
  intros Hm Hk s b s' H.
  apply bind_Ok_inv in H as (a & s1 & H1 & H2).
  eapply R_trans; [eapply Hm | eapply Hk]; eassumption.
Qed.

Lemma establishes_for_from (body : nat -> M S unit) :
  (forall i, establishes R (body i)) ->
  forall n i, establishes R (for_from i n body).
Proof.
  intros Hb n. induction n as [| n IH]; intros i; cbn.
  - apply establishes_ret.
  - apply establishes_bind; [apply Hb | intros _; apply IH].
Qed.

Lemma establishes_for_range (body : nat -> M S unit) n :
  (forall i, establishes R (body i)) -> establishes R (for_range n body).
Proof. intros Hb. apply establishes_for_from, Hb. Qed.

Lemma establishes_comprehension {A B} (f : A -> M S B) xs :
  (forall x, establishes R (f x)) -> establishes R (comprehension f xs).
Proof.
  intros Hf. induction xs as [| x xs IH]; cbn.
  - apply establishes_ret.
  - apply establishes_bind; [apply Hf | intros y].
    apply establishes_bind; [apply IH | intros ys; apply establishes_ret].
Qed.

End MonadFacts.

(** An invariant of a loop with an accumulator: it holds after the loop when
    every successful round keeps it. *)
Lemma fold_from_invariant {S A} (I : nat -> A -> S -> Prop) (body : nat -> A -> M S A) :
  (forall j b t b' t', I j b t -> body j b t = (Ok b', t') -> I (Datatypes.S j) b' t') ->
  forall n i a s a' s',
    I i a s -> fold_from i n body a s = (Ok a', s') -> I (i + n) a' s'.
Proof.
  intros Hb n. induction n as [| n IH]; intros i a s a' s' HI H; cbn in H.
  - injection H as <- <-. rewrite Nat.add_0_r. exact HI.
  - apply bind_Ok_inv in H as (b & t & H1 & H2).
    replace (i + Datatypes.S n) with (Datatypes.S i + n) by lia.
    eapply IH; [eapply Hb; eassumption | exact H2].
Qed.

(** A loop with an accumulator runs to the end when every round below
    [bound] succeeds under the invariant. *)
Lemma fold_from_total {S A} (I : nat -> A -> S -> Prop) (body : nat -> A -> M S A) bound :
  (forall j b t, j < bound -> I j b t ->
                 exists b' t', body j b t = (Ok b', t') /\ I (Datatypes.S j) b' t') ->
  forall n i a s,
    i + n <= bound -> I i a s ->
    exists a' s', fold_from i n body a s = (Ok a', s') /\ I (i + n) a' s'.
Proof.
  intros Hb n. induction n as [| n IH]; intros i a s Hle HI; cbn.
  - exists a, s. rewrite Nat.add_0_r. split; [reflexivity | exact HI].
  - destruct (Hb i a s) as (b & t & H1 & HI'); [lia | exact HI |].
    destruct (IH (Datatypes.S i) b t) as (a' & s' & H2 & HI''); [lia | exact HI' |].
    exists a', s'. rewrite (bind_Ok_eq _ _ _ _ _ H1).
    replace (i + Datatypes.S n) with (Datatypes.S i + n) by lia.
    split; assumption.
Qed.

(* ===================================================================== *)
(** * TransitionMatrixSampler: construction                               *)
(* ===================================================================== *)

Section TransitionMatrixSamplerInit.
Import TransitionMatrixSampler.

(** C6.  Constructed with [reversible=False] and no fixed stationary vector
    ([mu=None]), the sampler holds a [SamplerNonRev] built on
    [count_matrix - 1.0] (every count lowered by one) and its [n_steps] is 1,
    whatever [n_steps] (and [P0]) the caller passed. *)
Theorem nonreversible_sampler_on_counts_minus_one (C : ndarray) (kw : init_kwargs) :
  prior kw = "sparse" ->
  reversible kw = false ->
  mu kw = None ->
  __init__ C kw
  = Ok (Build C (SamplerNonRev (NdArray (shape C) (map (fun v => v - 1)%float (data C))))
              (Some (Int 1))).
Proof.
  intros Hprior Hrev Hmu. unfold __init__.
  rewrite Hprior, Hrev, Hmu. reflexivity.
Qed.

Lemma nonreversible_sampler_on_counts_minus_one_witness :
  __init__ Standin.C22 (InitKw false None (Some Standin.C22) (Some (Int 7)) "sparse")
  = Ok (Build Standin.C22
              (SamplerNonRev (NdArray [2; 2] [2; 1; 0; 3]%float))
              (Some (Int 1))).
Proof.
  exact (nonreversible_sampler_on_counts_minus_one Standin.C22
           (InitKw false None (Some Standin.C22) (Some (Int 7)) "sparse")
           eq_refl eq_refl eq_refl).
Defined.

(** C7, as the code has it.  In reversible mode the heuristics apply when
    [n_steps] is passed as [None]: then [n_steps] becomes
    [math.sqrt(count_matrix.shape[0])] without a fixed stationary vector and
    [6] with one.  Any other value is kept; a caller who leaves the argument
    out passes the default of the signature, [1], and keeps it. *)
Theorem reversible_n_steps_heuristics (C : ndarray) (kw : init_kwargs) :
  prior kw = "sparse" ->
  reversible kw = true ->
  (forall n sh, n_steps_arg kw = None -> mu kw = None -> shape C = n :: sh ->
     __init__ C kw = Ok (Build C (SamplerRev C (P0 kw)) (Some (Float (math_sqrt n)))))
  /\ (forall v, n_steps_arg kw = None -> mu kw = Some v ->
     __init__ C kw = Ok (Build C (SamplerRevPi C v (P0 kw)) (Some (Int 6))))
  /\ (forall k, n_steps_arg kw = Some k ->
     exists x, __init__ C kw = Ok x /\ n_steps x = Some k)
  /\ n_steps_arg init_defaults = Some (Int 1).
Proof.
  intros Hprior Hrev. unfold __init__. rewrite Hprior, Hrev. cbn.
  repeat split.
  - intros n sh Hn Hmu Hsh. rewrite Hmu, Hn. unfold shape0. rewrite Hsh. reflexivity.
  - intros v Hn Hmu. rewrite Hmu, Hn. reflexivity.
  - intros k Hn. rewrite Hn. destruct (mu kw); eexists; split; reflexivity.
Qed.

Lemma reversible_n_steps_heuristics_witness :
  __init__ Standin.C22 (InitKw true None None None "sparse")
  = Ok (Build Standin.C22 (SamplerRev Standin.C22 None) (Some (Float (math_sqrt 2)))).
Proof.
  exact (proj1 (reversible_n_steps_heuristics Standin.C22
                  (InitKw true None None None "sparse") eq_refl eq_refl)
               2 [2] eq_refl eq_refl eq_refl).
Defined.

(** C7 as stated fails: a caller who does not specify [n_steps] in
    reversible mode gets [n_steps = 1], neither [sqrt(2)] for the two-state
    count matrix nor [6] with a fixed stationary vector. *)
Lemma reversible_n_steps_unspecified_is_one :
  (exists x,
      __init__ Standin.C22
        (InitKw true None None (n_steps_arg init_defaults) (prior init_defaults)) = Ok x
      /\ n_steps x = Some (Int 1)
      /\ n_steps x <> Some (Float (math_sqrt 2)))
  /\ (exists x,
      __init__ Standin.C22
        (InitKw true (Some (Standin.uniform_vector 2)) None
                (n_steps_arg init_defaults) (prior init_defaults)) = Ok x
      /\ n_steps x = Some (Int 1)
      /\ n_steps x <> Some (Int 6)).
Proof.
  split; eexists; (split; [reflexivity | split; [reflexivity | discriminate]]).
Qed.

End TransitionMatrixSamplerInit.

(* ===================================================================== *)
(** * TransitionMatrixSampler: sample                                     *)
(* ===================================================================== *)

Section TransitionMatrixSamplerSample.
Import TransitionMatrixSampler.
Context {B : Backend}.








End TransitionMatrixSamplerSample.

Section TransitionMatrixSamplerRuns.
Import TransitionMatrixSampler.
#[local] Existing Instance Standin.backend.





End TransitionMatrixSamplerRuns.

(* ===================================================================== *)
(** * BayesianHMMSampler: construction                                    *)
(* ===================================================================== *)

Section BayesianHMMSamplerInit.
Import BayesianHMMSampler.
Context {X : Collaborators}.

(** The two prior blocks read the store and leave it as it is. *)
Lemma init_prior_n0_store nstates kw li (h : list (HMM OM)) :
  snd (init_prior_n0 nstates kw li h) = h.
Proof.
  unfold init_prior_n0.
  destruct (is_None (p0_prior kw) || eq_str (p0_prior kw) "sparse"); [reflexivity |].
  destruct (p0_prior kw) as [| s | a | f];
    repeat match goal with
           | |- context [if ?b then _ else _] => destruct b
           | |- context [match ?o with Some _ => _ | None => _ end] => destruct o
           end;
    try reflexivity;
    unfold bind, deref; destruct (h !! _); reflexivity.
Qed.

Lemma init_prior_C_store nstates kw li (h : list (HMM OM)) :
  snd (init_prior_C nstates kw li h) = h.
Proof.
  unfold init_prior_C.
  destruct (is_None (transition_matrix_prior kw) || eq_str (p0_prior kw) "sparse");
    [reflexivity |].
  destruct (transition_matrix_prior kw) as [| s | a | f];
    repeat match goal with
           | |- context [if ?b then _ else _] => destruct b
           | |- context [match ?o with Some _ => _ | None => _ end] => destruct o
           end;
    try reflexivity;
    unfold bind, deref; destruct (h !! _); reflexivity.
Qed.

(** The prior-vector block raises nothing but [ValueError]s, whenever the
    initial model it may read is in the store. *)
Lemma init_prior_n0_raises nstates kw l (h : list (HMM OM)) m e h' :
  h !! l = Some m ->
  init_prior_n0 nstates kw (Some l) h = (Raise e, h') ->
  exn_cls e = ValueError.
Proof.
  intros Hl. unfold init_prior_n0.
  destruct (is_None (p0_prior kw) || eq_str (p0_prior kw) "sparse"); [discriminate |].
  destruct (p0_prior kw) as [| s | a | f];
    repeat match goal with
           | |- context [if ?b then _ else _] => destruct b
           | |- context [match ?o with Some _ => _ | None => _ end] => destruct o
           end;
    unfold bind, deref, ret, raise; rewrite ?Hl;
    intros H; try discriminate H; injection H as <- _; reflexivity.
Qed.

(** A [p0_prior] array of another shape than [(nstates,)] is refused. *)
Lemma p0_prior_wrong_shape_raises nstates kw li a (h : list (HMM OM)) :
  p0_prior kw = PArray a ->
  shape a <> [nstates] ->
  init_prior_n0 nstates kw li h
  = (Raise (Exn ValueError "initial distribution prior must have dimension"), h).
Proof.
  intros Hp Hsh. unfold init_prior_n0. rewrite Hp. cbn.
  destruct (shape a) as [| n [| n' sh]] eqn:Ha.
  - unfold ndim. rewrite Ha. reflexivity.
  - unfold ndim. rewrite Ha. cbn.
    destruct (Nat.eqb_spec n nstates) as [-> | Hne]; [congruence | reflexivity].
  - unfold ndim. rewrite Ha. reflexivity.
Qed.

(** A [transition_matrix_prior] array of another shape than
    [(nstates, nstates)] is not refused: the block assigns nothing. *)
Lemma transition_matrix_prior_wrong_shape_unset nstates kw li a (h : list (HMM OM)) :
  transition_matrix_prior kw = PArray a ->
  eq_str (p0_prior kw) "sparse" = false ->
  shape a <> [nstates; nstates] ->
  init_prior_C nstates kw li h = (Ok Unset, h).
Proof.
  intros Hp Hsparse Hsh. unfold init_prior_C. rewrite Hp, Hsparse. cbn.
  unfold shape_eqb. rewrite bool_decide_eq_false_2 by exact Hsh. reflexivity.
Qed.

(** What [transition_matrix_prior='uniform'] leads to depends on [p0_prior]
    alone: zeros for ['sparse'], ones for ['uniform'], an error otherwise. *)
Lemma transition_matrix_prior_uniform_cases nstates kw li (h : list (HMM OM)) :
  transition_matrix_prior kw = PStr "uniform" ->
  init_prior_C nstates kw li h
  = (if eq_str (p0_prior kw) "sparse" then Ok (Val (Some (zeros [nstates; nstates])))
     else if eq_str (p0_prior kw) "uniform" then Ok (Val (Some (ones [nstates; nstates])))
     else Raise (Exn ValueError "transition matrix prior mode undefined"),
     h).
Proof.
  intros Hp. unfold init_prior_C. rewrite Hp. cbn.
  destruct (eq_str (p0_prior kw) "sparse"); [reflexivity |].
  destruct (eq_str (p0_prior kw) "uniform"); reflexivity.
Qed.

(** C2.  [BayesianHMMSampler(2, transition_matrix_prior='uniform')], every
    other argument at its default, does not get the all-ones prior: the
    constructor raises [ValueError], because the ['uniform'] branch of the
    count-matrix block tests [p0_prior], which is ['mixed'] here. *)
Theorem uniform_transition_matrix_prior_is_rejected (h : list (HMM OM)) :
  __init__ 2 (Standin.kw_transition_matrix_prior (PStr "uniform")) h
  = (Raise (Exn ValueError "transition matrix prior mode undefined"), h).
Proof. reflexivity. Qed.

(** C4.  [BayesianHMMSampler(2, transition_matrix_prior=numpy.ones((3, 3)))]
    is constructed without an error, with [prior_C] left unassigned. *)
Theorem wrong_shape_transition_matrix_prior_is_accepted (h : list (HMM OM)) :
  exists x,
    __init__ 2 (Standin.kw_transition_matrix_prior (PArray Standin.prior33)) h = (Ok x, h)
    /\ prior_C x = Unset.
Proof. eexists. split; reflexivity. Qed.

End BayesianHMMSamplerInit.

Section BayesianHMMSamplerPriors.
Import BayesianHMMSampler.
Context {X : Collaborators}.

Lemma size_of_square n : size_of [n; n] = n * n.
Proof. cbn. lia. Qed.

Lemma size_of_vector n : size_of [n] = n.
Proof. cbn. lia. Qed.

(** C10.  [p0_prior='sparse'] is a mode the constructor knows: the prior
    vector is the zero vector, as for [p0_prior=None]; and the prior count
    matrix is the zero matrix whatever [transition_matrix_prior] is.  Every
    sampler the constructor returns for it carries these two, and without an
    initial model it does return one. *)
Theorem sparse_p0_prior_zeroes_both_priors (nstates : nat) (kw : init_kwargs)
    (h : list (HMM OM)) :
  p0_prior kw = PStr "sparse" ->
  (forall li,
      init_prior_n0 nstates kw li h
      = (Ok (Some (NdArray [nstates] (repeat 0%float nstates))), h)
      /\ init_prior_n0 nstates kw li h = init_prior_n0 nstates (with_p0_prior PNone kw) li h
      /\ init_prior_C nstates kw li h
         = (Ok (Val (Some (NdArray [nstates; nstates] (repeat 0%float (nstates * nstates))))),
            h))
  /\ (forall x h',
         __init__ nstates kw h = (Ok x, h') ->
         prior_n0 x = Some (NdArray [nstates] (repeat 0%float nstates))
         /\ prior_C x
            = Val (Some (NdArray [nstates; nstates] (repeat 0%float (nstates * nstates)))))
  /\ (initial_model_arg kw = None ->
      exists x,
        __init__ nstates kw h = (Ok x, h)
        /\ prior_n0 x = Some (NdArray [nstates] (repeat 0%float nstates))
        /\ prior_C x
           = Val (Some (NdArray [nstates; nstates] (repeat 0%float (nstates * nstates))))).
Proof.
  intros Hp.
  assert (Hn0 : forall li h0,
             init_prior_n0 nstates kw li h0
             = (Ok (Some (NdArray [nstates] (repeat 0%float nstates))), h0)).
  { intros li h0. unfold init_prior_n0. rewrite Hp. cbn.
    unfold ret, zeros. rewrite size_of_vector. reflexivity. }
  assert (HC : forall li h0,
             init_prior_C nstates kw li h0
             = (Ok (Val (Some (NdArray [nstates; nstates]
                                       (repeat 0%float (nstates * nstates))))), h0)).
  { intros li h0. unfold init_prior_C. rewrite Hp. cbn.
    rewrite orb_true_r. unfold ret, zeros. rewrite size_of_square. reflexivity. }
  split; [| split].
  - intros li. split; [apply Hn0 | split; [| apply HC]].
    rewrite Hn0. unfold init_prior_n0, with_p0_prior. cbn.
    unfold ret, zeros. rewrite size_of_vector. reflexivity.
  - intros x h' H. unfold __init__ in H.
    apply bind_Ok_inv in H as (li & h1 & _ & H).
    rewrite (bind_Ok_eq _ _ _ _ _ (Hn0 li h1)) in H.
    rewrite (bind_Ok_eq _ _ _ _ _ (HC li h1)) in H.
    apply bind_Ok_inv in H as (u & h2 & _ & H).
    injection H as <- _. split; reflexivity.
  - intros Hno. unfold __init__. rewrite Hno.
    rewrite (bind_Ok_eq _ _ _ None h) by reflexivity.
    rewrite (bind_Ok_eq _ _ _ _ _ (Hn0 None h)).
    rewrite (bind_Ok_eq _ _ _ _ _ (HC None h)).
    assert (Hcheck : forall pc, init_check (reversible_arg kw) None pc h = (Ok tt, h)).
    { intros pc. unfold init_check. destruct (reversible_arg kw); reflexivity. }
    rewrite (bind_Ok_eq _ _ _ _ _ (Hcheck _)).
    eexists. split; [reflexivity | split; reflexivity].
Qed.

End BayesianHMMSamplerPriors.

Lemma sparse_p0_prior_zeroes_both_priors_witness :
  exists x,
    BayesianHMMSampler.__init__ (X := Standin.collaborators) 2 Standin.kw_sparse []
    = (Ok x, [])
    /\ BayesianHMMSampler.prior_n0 x = Some (NdArray [2] [0; 0]%float)
    /\ BayesianHMMSampler.prior_C x = Val (Some (NdArray [2; 2] [0; 0; 0; 0]%float)).
Proof.
  exact (proj2 (proj2 (sparse_p0_prior_zeroes_both_priors
                         (X := Standin.collaborators) 2 Standin.kw_sparse [] eq_refl))
               eq_refl).
Defined.

(* ===================================================================== *)
(** * BayesianHMMSampler: the connectivity check                          *)
(* ===================================================================== *)

Section BayesianHMMSamplerConnectivity.
Import BayesianHMMSampler.
Context {X : Collaborators}.

Lemma on_heap_deref (l : loc) (s : state) m :
  heap s !! l = Some m -> on_heap (deref l) s = (Ok m, s).
Proof.
  intros H. unfold on_heap, deref. rewrite H. destruct s; reflexivity.
Qed.

Lemma init_check_disconnected (h : list (HMM OM)) l m pc C :
  h !! l = Some m ->
  add_opt broadcast_add (transition_matrix m) pc = Ok C ->
  is_connected C = false ->
  init_check true (Some l) (Val pc) h
  = (Raise (Exn NotImplementedError
              "Trying to sample disconnected HMM with option reversible"), h).
Proof.
  intros Hl Hadd Hconn. unfold init_check, bind, deref, getattr, ret, lift.
  rewrite Hl, Hadd, Hconn. reflexivity.
Qed.

(** C3.  With [reversible=True], a posterior count matrix (the counts of the
    current hidden trajectories plus [prior_C]) that is not connected makes
    the transition-matrix update, hence the sweep, raise
    [NotImplementedError] and change nothing: no transition matrix is
    sampled, in no mode.  The constructor does the same for an initial model
    whose transition matrix plus [prior_C] is not connected: it raises
    (this error, or the [ValueError] of an unknown [p0_prior]). *)
Theorem disconnected_reversible_raises :
  (forall (model : loc) (s : state) m counts pc C,
      reversible (self s) = true ->
      heap s !! model = Some m ->
      count_matrix m = Ok counts ->
      prior_C (self s) = Val pc ->
      add_opt broadcast_add counts pc = Ok C ->
      is_connected C = false ->
      _update_transition_matrix model s
      = (Raise (Exn NotImplementedError
                  "Encountered disconnected count matrix with sampling option reversible"),
         s)
      /\ forall observations s0 s1,
          _update_hidden_state_trajectories model observations s0 = (Ok tt, s1) ->
          _update_emission_probabilities model observations s1 = (Ok tt, s) ->
          _update model observations s0
          = (Raise (Exn NotImplementedError
                      "Encountered disconnected count matrix with sampling option reversible"),
             s))
  /\ (forall nstates kw (h : list (HMM OM)) l0 m pc C,
         reversible_arg kw = true ->
         initial_model_arg kw = Some l0 ->
         h !! l0 = Some m ->
         fst (init_prior_C nstates kw (Some (length h)) (h ++ [m])) = Ok (Val pc) ->
         add_opt broadcast_add (transition_matrix m) pc = Ok C ->
         is_connected C = false ->
         exists e,
           __init__ nstates kw h = (Raise e, h ++ [m])
           /\ (exn_cls e = NotImplementedError \/ exn_cls e = ValueError)).
Proof.
  split.
  - intros model s m counts pc C Hrev Hm Hcounts Hpc Hadd Hconn.
    assert (Hraise :
              _update_transition_matrix model s
              = (Raise (Exn NotImplementedError
                          "Encountered disconnected count matrix with sampling option reversible"),
                 s)).
    { unfold _update_transition_matrix.
      rewrite (bind_Ok_eq _ _ _ _ _ (on_heap_deref _ _ _ Hm)).
      unfold bind at 1. unfold lift at 1. rewrite Hcounts.
      unfold bind at 1. unfold gets at 1.
      unfold bind at 1. rewrite Hpc. unfold getattr at 1, ret at 1.
      unfold bind at 1. unfold lift at 1. rewrite Hadd.
      rewrite Hrev, Hconn. reflexivity. }
    split; [exact Hraise |].
    intros observations s0 s1 H1 H2. unfold _update.
    rewrite (bind_Ok_eq _ _ _ _ _ H1), (bind_Ok_eq _ _ _ _ _ H2). exact Hraise.
  - intros nstates kw h l0 m pc C Hrev Harg Hl0 HpC Hadd Hconn.
    assert (Hnew : (h ++ [m]) !! length h = Some m).
    { rewrite lookup_app_r by lia. rewrite Nat.sub_diag. reflexivity. }
    unfold __init__. rewrite Harg.
    assert (Hcopy : bind (copy l0) (fun l' => ret (Some l')) h
                    = (Ok (Some (length h)), h ++ [m])).
    { unfold copy, bind, deref, alloc, ret. rewrite Hl0. reflexivity. }
    rewrite (bind_Ok_eq _ _ _ _ _ Hcopy).
    pose proof (init_prior_n0_store nstates kw (Some (length h)) (h ++ [m])) as Hst0.
    destruct (init_prior_n0 nstates kw (Some (length h)) (h ++ [m])) as [[n0 | e] h1] eqn:Hn0;
      cbn in Hst0; subst h1.
    + rewrite (bind_Ok_eq _ _ _ _ _ Hn0).
      pose proof (init_prior_C_store nstates kw (Some (length h)) (h ++ [m])) as HstC.
      destruct (init_prior_C nstates kw (Some (length h)) (h ++ [m])) as [rC h1] eqn:HC.
      cbn in HpC, HstC. subst rC h1.
      rewrite (bind_Ok_eq _ _ _ _ _ HC), Hrev.
      rewrite (bind_Raise_eq _ _ _ _ _ (init_check_disconnected _ _ _ _ _ Hnew Hadd Hconn)).
      eexists. split; [reflexivity | left; reflexivity].
    + rewrite (bind_Raise_eq _ _ _ _ _ Hn0).
      exists e. split; [reflexivity | right].
      eapply init_prior_n0_raises; eassumption.
Qed.

End BayesianHMMSamplerConnectivity.

Lemma disconnected_reversible_raises_witness :
  BayesianHMMSampler._update_transition_matrix (X := Standin.collaborators) 0 Standin.state_120
  = (Raise (Exn NotImplementedError
              "Encountered disconnected count matrix with sampling option reversible"),
     Standin.state_120).
Proof.
  exact (proj1 (proj1 (disconnected_reversible_raises (X := Standin.collaborators))
                      0 Standin.state_120 Standin.model_120
                      (Standin.count_transitions 3 [[1; 2; 0]])
                      (Some (zeros [3; 3]))
                      (Standin.count_transitions 3 [[1; 2; 0]])
                      eq_refl eq_refl eq_refl eq_refl eq_refl eq_refl)).
Defined.

(* ===================================================================== *)
(** * BayesianHMMSampler: what a sweep touches                            *)
(* ===================================================================== *)

Section BayesianHMMSamplerFrame.
Import BayesianHMMSampler.
Context {X : Collaborators}.

Lemma frame_refl l (s : state) : frame l s s.
Proof. split; [lia | split; [reflexivity | reflexivity]]. Qed.

Lemma frame_trans l (s1 s2 s3 : state) : frame l s1 s2 -> frame l s2 s3 -> frame l s1 s3.
Proof.
  intros (Hlen1 & Hobj1 & Hself1) (Hlen2 & Hobj2 & Hself2).
  split; [lia | split].
  - intros l' Hl' Hne. rewrite Hobj2 by (try lia; exact Hne). apply Hobj1; assumption.
  - congruence.
Qed.

Lemma on_heap_Ok_inv {A} (f : M (list (HMM OM)) A) (s s' : state) a :
  on_heap f s = (Ok a, s') ->
  exists h', f (heap s) = (Ok a, h') /\ s' = MkState (self s) h' (ext s).
Proof.
  unfold on_heap. destruct (f (heap s)) as [r h'].
  intros H. injection H as -> <-. exists h'. split; reflexivity.
Qed.

Lemma on_ext_Ok_inv {A} (f : W -> res A * W) (s s' : state) a :
  on_ext f s = (Ok a, s') ->
  exists x', f (ext s) = (Ok a, x') /\ s' = MkState (self s) (heap s) x'.
Proof.
  unfold on_ext. destruct (f (ext s)) as [r x'].
  intros H. injection H as -> <-. exists x'. split; reflexivity.
Qed.

Lemma deref_Ok_inv (l : loc) (h h' : list (HMM OM)) m :
  deref l h = (Ok m, h') -> h !! l = Some m /\ h' = h.
Proof.
  unfold deref. destruct (h !! l) as [m' |]; intros H; [| discriminate H].
  injection H as -> ->. split; reflexivity.
Qed.

Lemma copy_Ok_inv (l : loc) (h h' : list (HMM OM)) l' :
  copy l h = (Ok l', h') ->
  exists m, h !! l = Some m /\ l' = length h /\ h' = h ++ [m].
Proof.
  unfold copy. intros H. apply bind_Ok_inv in H as (m & h1 & H1 & H2).
  apply deref_Ok_inv in H1 as [Hm ->].
  unfold alloc in H2. injection H2 as <- <-. exists m. auto.
Qed.

Lemma establishes_frame_deref l l' : establishes (frame l) (on_heap (deref l')).
Proof.
  intros s m s' H. apply on_heap_Ok_inv in H as (h' & H & ->).
  apply deref_Ok_inv in H as [_ ->]. destruct s; apply frame_refl.
Qed.

Lemma establishes_frame_store l m : establishes (frame l) (on_heap (store l m)).
Proof.
  intros s u s' H. apply on_heap_Ok_inv in H as (h' & H & ->).
  unfold store, modify in H. injection H as Hh. subst h'.
  split; cbn [heap self ext]; [rewrite length_insert; lia | split; [| reflexivity]].
  intros l' _ Hne. apply list_lookup_insert_ne. congruence.
Qed.

Lemma establishes_frame_alloc l m : establishes (frame l) (on_heap (alloc m)).
Proof.
  intros s l' s' H. apply on_heap_Ok_inv in H as (h' & H & ->).
  unfold alloc in H. injection H as _ Hh. subst h'.
  split; cbn [heap self ext]; [rewrite length_app; lia | split; [| reflexivity]].
  intros l'' Hl'' _. apply lookup_app_l. exact Hl''.
Qed.

Lemma establishes_frame_on_ext l {A} (f : W -> res A * W) :
  establishes (frame l) (on_ext f).
Proof.
  intros s a s' H. apply on_ext_Ok_inv in H as (x' & _ & ->).
  split; [cbn [heap self ext]; lia | split; reflexivity].
Qed.

Lemma establishes_frame_set_alpha l v : establishes (frame l) (set_self (with__alpha v)).
Proof.
  intros s u s' H. unfold set_self, modify in H. injection H as Hs. subst s'.
  split; [cbn [heap self ext]; lia | split; reflexivity].
Qed.

Lemma establishes_frame_set_pobs l v : establishes (frame l) (set_self (with__pobs v)).
Proof.
  intros s u s' H. unfold set_self, modify in H. injection H as Hs. subst s'.
  split; [cbn [heap self ext]; lia | split; reflexivity].
Qed.

End BayesianHMMSamplerFrame.

(** Walks a computation made of the steps above, one rule per construct. *)
Ltac frame_steps l :=
  repeat
    (cbv beta zeta;
     lazymatch goal with
     | |- establishes _ (bind _ _) =>
         apply (establishes_bind _ (frame_trans l)); [| intros ?]
     | |- establishes _ (ret _) => apply (establishes_ret _ (frame_refl l))
     | |- establishes _ (raise _) => apply establishes_raise
     | |- establishes _ (lift _) => apply (establishes_lift _ (frame_refl l))
     | |- establishes _ (gets _) => apply (establishes_gets _ (frame_refl l))
     | |- establishes _ (getattr _ _) => apply (establishes_getattr _ (frame_refl l))
     | |- establishes _ (BayesianHMMSampler.on_heap (BayesianHMMSampler.deref _)) =>
         apply establishes_frame_deref
     | |- establishes _ (BayesianHMMSampler.on_heap (BayesianHMMSampler.store _ _)) =>
         apply establishes_frame_store
     | |- establishes _ (BayesianHMMSampler.on_heap (BayesianHMMSampler.alloc _)) =>
         apply establishes_frame_alloc
     | |- establishes _ (BayesianHMMSampler.on_ext _) => apply establishes_frame_on_ext
     | |- establishes _ (BayesianHMMSampler.set_self (BayesianHMMSampler.with__alpha _)) =>
         apply establishes_frame_set_alpha
     | |- establishes _ (BayesianHMMSampler.set_self (BayesianHMMSampler.with__pobs _)) =>
         apply establishes_frame_set_pobs
     | |- establishes _ (comprehension _ _) =>
         apply (establishes_comprehension _ (frame_refl l) (frame_trans l)); intros ?
     | |- establishes _ (if ?b then _ else _) => destruct b
     | |- establishes _ (match ?x with _ => _ end) => destruct x
     end).

Section BayesianHMMSamplerSweep.
Import BayesianHMMSampler.
Context {X : Collaborators}.

Lemma establishes_frame_sample_path l obs :
  establishes (frame l) (_sample_hidden_state_trajectory l obs).
Proof. unfold _sample_hidden_state_trajectory. frame_steps l. Qed.

Lemma establishes_frame_trajectories l observations :
  establishes (frame l) (_update_hidden_state_trajectories l observations).
Proof.
  unfold _update_hidden_state_trajectories. frame_steps l.
  apply establishes_frame_sample_path.
Qed.

Lemma establishes_frame_emissions l observations :
  establishes (frame l) (_update_emission_probabilities l observations).
Proof. unfold _update_emission_probabilities. frame_steps l. Qed.

Lemma establishes_frame_transition_matrix l :
  establishes (frame l) (_update_transition_matrix l).
Proof. unfold _update_transition_matrix. frame_steps l. Qed.

(** A Gibbs sweep on the object [l] touches that object, the scratch
    buffers and the collaborators, and nothing else. *)
Lemma establishes_frame_update l observations :
  establishes (frame l) (_update l observations).
Proof.
  unfold _update. frame_steps l.
  - apply establishes_frame_trajectories.
  - apply establishes_frame_emissions.
  - apply establishes_frame_transition_matrix.
Qed.

Lemma establishes_frame_sweeps l observations n :
  establishes (frame l) (for_range n (fun _ => _update l observations)).
Proof.
  apply (establishes_for_range _ (frame_refl l) (frame_trans l)).
  intros _. apply establishes_frame_update.
Qed.

End BayesianHMMSamplerSweep.

(* ===================================================================== *)
(** * BayesianHMMSampler: fit                                             *)
(* ===================================================================== *)

(** Opens the next successful step of a computation that returned. *)
Ltac next_step H s' H' :=
  let a := fresh "a" in
  apply bind_Ok_inv in H as (a & s' & H' & H).

(** The same, naming the value of the step. *)
Ltac next_value H a s' H' :=
  apply bind_Ok_inv in H as (a & s' & H' & H).

Section BayesianHMMSamplerFit.
Import BayesianHMMSampler.
Context {X : Collaborators}.

Lemma set_self_Ok_inv f (s s' : state) u :
  set_self f s = (Ok u, s') -> s' = MkState (f (self s)) (heap s) (ext s).
Proof. unfold set_self, modify. intros H. injection H as Hs. congruence. Qed.

Lemma gets_Ok_inv {A} (f : state -> A) (s s' : state) a :
  gets f s = (Ok a, s') -> a = f s /\ s' = s.
Proof. unfold gets. intros H. injection H as <- <-. split; reflexivity. Qed.

Lemma delattr_Ok_inv {A} name (a : sampler -> attr A) clear (s s' : state) u :
  delattr name a clear s = (Ok u, s') -> s' = MkState (clear (self s)) (heap s) (ext s).
Proof.
  unfold delattr. intros H.
  next_step H s1 H1. apply gets_Ok_inv in H1 as [-> ->].
  next_step H s2 H2. apply getattr_Ok_inv in H2 as [_ ->].
  eapply set_self_Ok_inv, H.
Qed.

(** C8, as the code has it.  When [fit] returns normally, the attributes
    [_alpha] and [_pobs] have been deleted from the sampler. *)
Theorem fit_success_releases_buffers (observations : list ndarray) (kw : fit_kwargs)
    (s s' : state) :
  fit observations kw s = (Ok tt, s') ->
  _alpha (self s') = Unset /\ _pobs (self s') = Unset.
Proof.
  unfold fit. destruct (length observations =? 0); [discriminate |].
  intros H.
  repeat lazymatch type of H with
         | bind (delattr _ _ _) _ _ = _ => fail
         | bind _ _ _ = _ =>
             let t := fresh "t" in let Ht := fresh "Ht" in next_step H t Ht
         end.
  lazymatch type of H with
  | bind (delattr _ _ _) _ _ = _ =>
      let t := fresh "t" in let Ht := fresh "Ht" in next_step H t Ht;
      apply delattr_Ok_inv in Ht; subst t
  end.
  lazymatch type of H with
  | bind (delattr _ _ _) _ _ = _ =>
      let t := fresh "t" in let Ht := fresh "Ht" in next_step H t Ht;
      apply delattr_Ok_inv in Ht; subst t
  end.
  injection H as <-. split; reflexivity.
Qed.

End BayesianHMMSamplerFit.

Section BayesianHMMSamplerPosterior.
Import BayesianHMMSampler.
Context {X : Collaborators}.

Lemma lens_leave_state (observations : list ndarray) (s s1 : state) lens :
  comprehension (fun o => lift (len o)) observations s = (Ok lens, s1) -> s1 = s.
Proof.
  apply (establishes_comprehension (fun s s' : state => s' = s)).
  - reflexivity.
  - intros t1 t2 t3 -> ->. reflexivity.
  - intros o. apply (establishes_lift (fun s s' : state => s' = s)). reflexivity.
Qed.

Lemma invoke_leaves_store call_back (s s' : state) u :
  invoke call_back s = (Ok u, s') -> self s' = self s /\ heap s' = heap s.
Proof.
  destruct call_back as [cb |]; cbn; intros H.
  - apply on_ext_Ok_inv in H as (x' & _ & ->). split; reflexivity.
  - injection H as _ <-. split; reflexivity.
Qed.

(** One round of the collection loop appends one new object to [models]: a
    copy of the working model, made after the sweeps of the round, that
    carries the hidden trajectories the working model has. *)
Lemma collect_spec lsm observations kw models (s s' : state) models' :
  collect lsm observations kw models s = (Ok models', s') ->
  frame lsm s s'
  /\ exists l m0 m',
      models' = models ++ [l]
      /\ length (heap s) <= l
      /\ l < length (heap s')
      /\ heap s' !! lsm = Some m0
      /\ heap s' !! l = Some m'
      /\ hidden_state_trajectories m' = hidden_state_trajectories m0.
Proof.
  unfold collect. intros H.
  next_step H s1 H1. apply establishes_frame_sweeps in H1 as Hf1.
  next_step H s2 H2. apply on_heap_Ok_inv in H2 as (h2 & Hc & ->).
  apply copy_Ok_inv in Hc as (m0 & Hm0 & -> & ->).
  pose proof (lookup_lt_Some _ _ _ Hm0) as Hlsm.
  next_step H s3 H3.
  next_step H s4 H4. apply invoke_leaves_store in H4 as [Hself4 Hheap4].
  injection H as <- <-.
  assert (Hs3 : self s3 = self s1
                /\ length (heap s3) = Datatypes.S (length (heap s1))
                /\ (forall l', l' < length (heap s1) -> heap s3 !! l' = heap s1 !! l')
                /\ exists m', heap s3 !! length (heap s1) = Some m'
                              /\ hidden_state_trajectories m' = hidden_state_trajectories m0).
  { destruct (save_hidden_state_trajectory kw); cbn [negb] in H3.
    - injection H3 as _ <-. cbn [self heap ext].
      split; [reflexivity | split; [rewrite length_app; cbn; lia | split]].
      + intros l' Hl'. apply lookup_app_l. exact Hl'.
      + exists m0. split; [| reflexivity].
        rewrite lookup_app_r by lia. rewrite Nat.sub_diag. reflexivity.
    - next_step H3 u1 G1. apply on_heap_Ok_inv in G1 as (h' & Hd & ->).
      cbn [self heap ext] in Hd. apply deref_Ok_inv in Hd as [Hlook ->].
      rewrite lookup_app_r in Hlook by lia. rewrite Nat.sub_diag in Hlook.
      cbn in Hlook. injection Hlook as <-.
      apply on_heap_Ok_inv in H3 as (h' & Hst & ->). cbn [self heap ext] in Hst.
      unfold store, modify in Hst. injection Hst as Hst. subst h'.
      cbn [self heap ext].
      split; [reflexivity | split; [rewrite length_insert, length_app; cbn; lia | split]].
      + intros l' Hl'. rewrite list_lookup_insert_ne by lia.
        apply lookup_app_l. exact Hl'.
      + exists (with_hidden_state_trajectory (Val None) m0). split; [| reflexivity].
        apply list_lookup_insert_eq. rewrite length_app. cbn. lia. }
  destruct Hs3 as (Hself3 & Hlen3 & Hold3 & m' & Hnew3 & Htraj).
  destruct Hf1 as (Hlen1 & Hobj1 & Hbuf1).
  split.
  - split; [rewrite Hheap4, Hlen3; lia | split].
    + intros l' Hl' Hne. rewrite Hheap4, Hold3 by lia. apply Hobj1; assumption.
    + rewrite Hself4, Hself3. exact Hbuf1.
  - exists (length (heap s1)), m0, m'.
    rewrite Hheap4, Hlen3, Hold3 by exact Hlsm.
    repeat split; try assumption; lia.
Qed.

End BayesianHMMSamplerPosterior.

(* ===================================================================== *)
(** * BayesianHMMSampler: runs on the stand-in collaborators              *)
(* ===================================================================== *)

Section BayesianHMMSamplerRuns.
Import BayesianHMMSampler.
#[local] Existing Instance Standin.collaborators.

Lemma sampler_mixed_constructed :
  __init__ 2 (Standin.kw_nsamples 2) [] = (Ok Standin.sampler_mixed, []).
Proof. reflexivity. Qed.

Lemma state_mixed_fit_returns :
  fit [Standin.obs3] Standin.fit_burn_thin Standin.state_mixed
  = (Ok tt, Standin.state_mixed_fitted).
Proof. vm_compute. reflexivity. Defined.

Lemma fit_success_releases_buffers_witness :
  _alpha (self Standin.state_mixed_fitted) = Unset
  /\ _pobs (self Standin.state_mixed_fitted) = Unset.
Proof.
  exact (fit_success_releases_buffers [Standin.obs3] Standin.fit_burn_thin
           Standin.state_mixed Standin.state_mixed_fitted state_mixed_fit_returns).
Defined.

(** C8 as stated fails.  [BayesianHMMSampler(3, p0_prior=None,
    transition_matrix_prior=None, nsamples=1).fit([obs3], nburn=1)]: the
    first burn-in sweep finds a disconnected count matrix and raises, and
    both scratch buffers are still attributes of the sampler afterwards. *)
Lemma fit_failure_keeps_buffers :
  exists e s',
    Standin.construct_and_fit 3 (Standin.kw_no_prior 1) [Standin.obs3] Standin.fit_burn
    = Ok (Raise e, s')
    /\ exn_cls e = NotImplementedError
    /\ _alpha (self s') = Val (zeros [3; 3])
    /\ _pobs (self s') = Val (ones [3; 3])
    /\ _model (self s') = _create_model.
Proof.
  eexists _, _. split; [vm_compute; reflexivity |].
  repeat split.
Qed.

(** C1.  [BayesianHMMSampler(2, nsamples=1).fit([obs3])], with
    [save_hidden_state_trajectory] left [False]: the one stored sample still
    holds the hidden trajectory resampled in the sweep.  What [fit] set to
    [None] on the copy is another attribute, [hidden_state_trajectory]. *)
Theorem snapshot_keeps_hidden_state_trajectories :
  exists s' l m,
    Standin.construct_and_fit 2 (Standin.kw_nsamples 1) [Standin.obs3] fit_defaults
    = Ok (Ok tt, s')
    /\ samples (_model (self s')) = Some [l]
    /\ heap s' !! l = Some m
    /\ hidden_state_trajectories m = Some [[1; 0; 1]]
    /\ hidden_state_trajectory m = Val None.
Proof.
  eexists _, _, _. split; [vm_compute; reflexivity |].
  split; [reflexivity |]. split; [reflexivity |]. split; reflexivity.
Qed.

(** After construction with a [transition_matrix_prior] of the wrong shape,
    the error comes only from [fit], as an [AttributeError], once the
    maximum-likelihood estimation has run. *)
Lemma wrong_shape_transition_matrix_prior_fails_late :
  exists e s',
    Standin.construct_and_fit 2 (Standin.kw_transition_matrix_prior (PArray Standin.prior33))
                              [Standin.obs3] fit_defaults
    = Ok (Raise e, s')
    /\ e = Exn AttributeError "prior_C"
    /\ ext s' = 1.
Proof.
  eexists _, _. split; [vm_compute; reflexivity |]. split; reflexivity.
Qed.

(** With [p0_prior='sparse'] the ['uniform'] count-matrix prior is dropped,
    so that an initial model with an absorbing state is refused. *)
Lemma sparse_drops_uniform_prior :
  exists e h,
    __init__ 2 Standin.kw_absorbing [Standin.model_absorbing] = (Raise e, h)
    /\ exn_cls e = NotImplementedError.
Proof. eexists _, _. split; [vm_compute; reflexivity | reflexivity]. Qed.

End BayesianHMMSamplerRuns.

(* ===================================================================== *)
(** * timeshifted_split: slices and index arrays                          *)
(* ===================================================================== *)

Section SliceFacts.
Import TimeshiftedSplit.

Lemma take_every_lookup {X} gap (l : list X) :
  forall wait i, take_every gap wait l !! i = l !! (wait + i * Datatypes.S gap).
Proof.
  induction l as [| x l IH]; intros wait i; cbn [take_every].
  - rewrite !lookup_nil. reflexivity.
  - destruct wait as [| w].
    + destruct i as [| i]; [reflexivity |].
      cbn [lookup list_lookup Nat.add Nat.mul]. rewrite IH. reflexivity.
    + rewrite IH. reflexivity.
Qed.

Lemma take_every_length {X Y} gap (l1 : list X) :
  forall (l2 : list Y) wait,
    length l1 = length l2 ->
    length (take_every gap wait l1) = length (take_every gap wait l2).
Proof.
  induction l1 as [| x l1 IH]; intros [| y l2] wait Hlen; try discriminate Hlen;
    [reflexivity |].
  injection Hlen as Hlen. cbn [take_every].
  destruct wait; cbn [length]; rewrite (IH l2); auto.
Qed.

Lemma take_every_nonempty {X} gap (x : X) l : take_every gap 0 (x :: l) <> [].
Proof. discriminate. Qed.

Lemma rev_is_reverse {X} (l : list X) : rev l = reverse l.
Proof. unfold reverse. symmetry. rewrite <- rev_alt. reflexivity. Qed.

(** The two strided arrays of a trajectory have one length. *)
Lemma step_slice_length {X} s (l1 l2 r1 r2 : list X) :
  length l1 = length l2 ->
  step_slice s l1 = Ok r1 -> step_slice s l2 = Ok r2 -> length r1 = length r2.
Proof.
  unfold step_slice. intros Hlen.
  destruct (s =? 0)%Z; [discriminate |].
  destruct (0 <? s)%Z; intros H1 H2; injection H1 as <-; injection H2 as <-;
    apply take_every_length; rewrite ?length_rev; exact Hlen.
Qed.

Lemma step_slice_Ok {X} s (l : list X) :
  s <> 0%Z -> step_slice s l = Ok (strided s l).
Proof.
  intros Hs. unfold strided, step_slice.
  destruct (Z.eqb_spec s 0) as [-> | _]; [congruence |].
  destruct (0 <? s)%Z; reflexivity.
Qed.

Lemma step_slice_zero {X} (l : list X) :
  step_slice 0 l = Raise (Exn ValueError "slice step cannot be zero").
Proof. reflexivity. Qed.

Lemma strided_nonempty {X} s (l : list X) : s <> 0%Z -> l <> [] -> strided s l <> [].
Proof.
  intros Hs Hl. unfold strided, step_slice.
  destruct (Z.eqb_spec s 0) as [-> | _]; [congruence |].
  destruct (0 <? s)%Z.
  - destruct l; [congruence | discriminate].
  - destruct (rev l) eqn:Hrev; [| discriminate].
    apply (f_equal (@length X)) in Hrev. rewrite length_rev in Hrev.
    destruct l; [congruence | discriminate].
Qed.

(** Entry [i] of the strided head and of the strided tail of a trajectory
    stand [lag] apart in it, for a step of either sign. *)
Lemma strided_shifted {X} s lag (d : list X) i a c :
  s <> 0%Z ->
  strided s (firstn (length d - lag) d) !! i = Some a ->
  strided s (skipn lag d) !! i = Some c ->
  shifted_in lag d a c.
Proof.
  intros Hs. unfold strided, step_slice.
  destruct (Z.eqb_spec s 0) as [-> | _]; [congruence |].
  destruct (0 <? s)%Z; rewrite !take_every_lookup; cbn [Nat.add]; intros Ha Hc.
  - exists (i * Datatypes.S (Z.to_nat s - 1)). split.
    + apply lookup_take_Some in Ha as [Ha _]. exact Ha.
    + rewrite lookup_drop in Hc. rewrite Nat.add_comm. exact Hc.
  - rewrite rev_is_reverse in Ha, Hc.
    pose proof (lookup_lt_Some _ _ _ Ha) as Hlta.
    pose proof (lookup_lt_Some _ _ _ Hc) as Hltc.
    rewrite length_reverse in Hlta, Hltc.
    rewrite reverse_lookup in Ha by exact Hlta.
    rewrite reverse_lookup in Hc by exact Hltc.
    rewrite length_take in Hlta, Ha. rewrite length_drop in Hltc, Hc.
    apply lookup_take_Some in Ha as [Ha _].
    rewrite lookup_drop in Hc.
    exists (length d - lag - Datatypes.S (i * Datatypes.S (Z.to_nat (- s) - 1))).
    split.
    + rewrite <- Ha. f_equal. lia.
    + rewrite <- Hc. f_equal. lia.
Qed.

End SliceFacts.

Section IndexFacts.
Import TimeshiftedSplit.
Context {F : Type}.

Lemma index_Ok_inv (data : list F) ixs x :
  index data ixs = Ok x ->
  length x = length ixs
  /\ forall j a, x !! j = Some a -> exists i, ixs !! j = Some i /\ data !! i = Some a.
Proof.
  revert x. induction ixs as [| i ixs IH]; intros x H; cbn [index] in H.
  - injection H as <-. split; [reflexivity |]. intros j a Hj.
    rewrite lookup_nil in Hj. discriminate.
  - destruct (data !! i) as [a0 |] eqn:Hi; [| discriminate].
    destruct (index data ixs) as [l | e]; [| discriminate].
    injection H as <-. destruct (IH l eq_refl) as [Hlen Hl].
    split; [cbn; congruence |].
    intros [| j] a Hj.
    + injection Hj as <-. exists i. auto.
    + apply Hl. exact Hj.
Qed.

(** Indexing with a run of consecutive indices is slicing. *)
Lemma index_seq (data : list F) a k :
  a + k <= length data -> index data (seq a k) = Ok (firstn k (skipn a data)).
Proof.
  revert a. induction k as [| k IH]; intros a Hle; cbn [seq index].
  - reflexivity.
  - destruct (lookup_lt_is_Some_2 data a) as [x Hx]; [lia |].
    rewrite Hx, (IH (Datatypes.S a)) by lia.
    rewrite (drop_S _ _ _ Hx). reflexivity.
Qed.

Lemma slice_seq n t hi :
  hi <= n -> slice (seq 0 n) t hi = seq t (hi - t).
Proof.
  intros Hle. unfold slice. rewrite drop_seq, take_seq. cbn [Nat.add].
  f_equal. lia.
Qed.

End IndexFacts.

(* ===================================================================== *)
(** * timeshifted_split: every pair is time-shifted                       *)
(* ===================================================================== *)

Section SplitAlignment.
Import TimeshiftedSplit.
Context {R : RandomState} {F : Type}.

Lemma make_block_aligned lagtime (d data data_lagged : list F) ixs b :
  (0 < lagtime)%Z ->
  pointwise (Z.to_nat lagtime) d data data_lagged ->
  make_block lagtime data data_lagged ixs ixs = Ok b ->
  aligned_in (Z.to_nat lagtime) d b.
Proof.
  intros Hlag Hpt. unfold make_block.
  destruct (index data ixs) as [x | e] eqn:Hx; [| discriminate].
  destruct (Z.ltb_spec 0 lagtime) as [_ | Hge]; [| lia].
  destruct (index data_lagged ixs) as [y | e] eqn:Hy; [| discriminate].
  intros H. injection H as <-.
  apply index_Ok_inv in Hx as [Hlx Hx]. apply index_Ok_inv in Hy as [Hly Hy].
  split; [congruence |].
  intros j a c Ha Hc.
  destruct (Hx j a Ha) as (i & Hi & Hda). destruct (Hy j c Hc) as (i' & Hi' & Hdc).
  assert (i' = i) by congruence. subst i'.
  eapply Hpt; eassumption.
Qed.

Lemma over_splits_aligned lagtime (d data data_lagged : list F) splits :
  (0 < lagtime)%Z ->
  pointwise (Z.to_nat lagtime) d data data_lagged ->
  Forall (aligned_in (Z.to_nat lagtime) d)
         (fst (over_splits lagtime data data_lagged splits)).
Proof.
  intros Hlag Hpt. induction splits as [| ixs rest IH]; cbn [over_splits].
  - constructor.
  - destruct (0 <? length ixs); [| constructor].
    destruct (make_block lagtime data data_lagged ixs ixs) as [b | e] eqn:Hb;
      [| constructor].
    destruct (over_splits lagtime data data_lagged rest) as [bs e]. cbn [fst] in *.
    constructor; [| exact IH].
    eapply make_block_aligned; eassumption.
Qed.

Lemma over_chunks_aligned lagtime c (d data data_lagged : list F) ix :
  (0 < lagtime)%Z ->
  length data = length data_lagged ->
  pointwise (Z.to_nat lagtime) d data data_lagged ->
  forall rounds t,
    Forall (aligned_in (Z.to_nat lagtime) d)
           (fst (over_chunks rounds lagtime c data data_lagged ix t)).
Proof.
  intros Hlag Hlen Hpt rounds.
  induction rounds as [| rounds IH]; intros t; cbn [over_chunks].
  - destruct (t <? length data); [| constructor].
    destruct (t =? length data_lagged); constructor.
  - destruct (t <? length data); [| constructor].
    destruct (t =? length data_lagged); [constructor |].
    rewrite <- Hlen.
    destruct (make_block lagtime data data_lagged
                         (slice ix t (Nat.min (t + c) (length data)))
                         (slice ix t (Nat.min (t + c) (length data)))) as [b | e] eqn:Hb;
      [| constructor].
    specialize (IH (t + c)).
    destruct (over_chunks rounds lagtime c data data_lagged ix (t + c)) as [bs e].
    cbn [fst] in *. constructor; [| exact IH].
    eapply make_block_aligned; eassumption.
Qed.

Lemma split_one_aligned (chk : list F -> res (list F)) rounds lagtime kw rs d :
  (forall x y, chk x = Ok y -> y = x) ->
  (0 < lagtime)%Z ->
  Forall (aligned_in (Z.to_nat lagtime) d) (blocks (split_one chk rounds lagtime kw rs d)).
Proof.
  intros Hchk Hlag. unfold split_one.
  destruct (chk d) as [d' | e] eqn:Hd; [| constructor].
  apply Hchk in Hd. subst d'.
  destruct (step_slice (stride kw) (skipn (Z.to_nat lagtime) d)) as [dl | e] eqn:Hdl;
    [| constructor].
  destruct (Z.ltb_spec 0 lagtime) as [_ | Hge]; [| lia].
  destruct (step_slice (stride kw) (firstn (length d - Z.to_nat lagtime) d))
    as [dx | e] eqn:Hdx; [| constructor].
  assert (Hs : stride kw <> 0%Z).
  { intros Hz. rewrite Hz in Hdl. discriminate Hdl. }
  assert (Hlen : length dx = length dl).
  { eapply step_slice_length; [| exact Hdx | exact Hdl].
    rewrite length_take, length_drop. lia. }
  assert (Hpt : pointwise (Z.to_nat lagtime) d dx dl).
  { rewrite step_slice_Ok in Hdx by exact Hs.
    rewrite step_slice_Ok in Hdl by exact Hs.
    injection Hdx as <-. injection Hdl as <-.
    intros i a c. apply strided_shifted. exact Hs. }
  match goal with
  | |- context [match ?sh with Ok _ => _ | Raise _ => _ end] =>
      destruct sh as [[ix rs'] | e]
  end; [| constructor].
  destruct (n_splits kw) as [n |].
  - destruct (n <? 1)%Z; [constructor |].
    pose proof (over_splits_aligned lagtime d dx dl (array_split ix (Z.to_nat n)) Hlag Hpt)
      as Hall.
    destruct (over_splits lagtime dx dl (array_split ix (Z.to_nat n))) as [bs e].
    exact Hall.
  - pose proof (over_chunks_aligned lagtime (Z.to_nat (chunksize kw)) d dx dl ix
                  Hlag Hlen Hpt rounds 0) as Hall.
    destruct (over_chunks rounds lagtime (Z.to_nat (chunksize kw)) dx dl ix 0) as [bs e].
    exact Hall.
Qed.

Lemma over_inputs_aligned (chk : list F -> res (list F)) rounds lagtime kw inputs :
  (forall x y, chk x = Ok y -> y = x) ->
  (0 < lagtime)%Z ->
  forall rs,
    Forall (fun b => exists d, In d inputs /\ aligned_in (Z.to_nat lagtime) d b)
           (blocks (over_inputs chk rounds lagtime kw rs inputs)).
Proof.
  intros Hchk Hlag. induction inputs as [| d rest IH]; intros rs; cbn [over_inputs].
  - constructor.
  - pose proof (split_one_aligned chk rounds lagtime kw rs d Hchk Hlag) as Hd.
    assert (Hd' : Forall (fun b => exists d0, In d0 (d :: rest)
                                              /\ aligned_in (Z.to_nat lagtime) d0 b)
                         (blocks (split_one chk rounds lagtime kw rs d))).
    { eapply Forall_impl; [exact Hd |]. intros b Hb. exists d. split; [left; reflexivity | exact Hb]. }
    destruct (ended (split_one chk rounds lagtime kw rs d)); try exact Hd'.
    cbn [blocks]. apply Forall_app. split; [exact Hd' |].
    eapply Forall_impl; [apply IH |]. intros b (d0 & Hin & Hb).
    exists d0. split; [right; exact Hin | exact Hb].
Qed.

Lemma split_list_aligned (chk : list F -> res (list F)) rounds inputs lagtime kw :
  (forall x y, chk x = Ok y -> y = x) ->
  (0 < lagtime)%Z ->
  Forall (fun b => exists d, In d inputs /\ aligned_in (Z.to_nat lagtime) d b)
         (blocks (split_list chk rounds inputs lagtime kw)).
Proof.
  intros Hchk Hlag. unfold split_list.
  destruct (lagtime <? 0)%Z; [constructor |].
  destruct (chunksize kw <? 0)%Z; [constructor |].
  destruct (negb _); [constructor |].
  apply over_inputs_aligned; assumption.
Qed.

Lemma chkfinite_same (finite : F -> bool) x y : chkfinite finite x = Ok y -> y = x.
Proof. unfold chkfinite. destruct (forallb finite x); congruence. Qed.

Lemma chkfinite_nested_same (finite : F -> bool) x y :
  chkfinite_nested finite x = Ok y -> y = x.
Proof.
  unfold chkfinite_nested. destruct x as [| d x]; [congruence |].
  destruct (forallb _ (d :: x)); [| discriminate].
  destruct (forallb (forallb finite) (d :: x)); congruence.
Qed.

End SplitAlignment.

Section SplitAlignmentEntry.
Import TimeshiftedSplit.
Context {R : RandomState} {F : Type}.

(** X1.  With a positive [lagtime], whatever the chunk size, stride (of
    either sign), number of splits, shuffling and random state: every block
    the generator yields is a pair [(x, x_lagged)] of equal lengths in which
    [x_lagged[j]] is the frame [lagtime] steps after [x[j]] in one and the
    same trajectory: in a trajectory of the list given, in the array given,
    and, for a tuple, in the tuple itself, whose trajectories are taken as
    the frames of one trajectory. *)
Theorem timeshifted_pairs_are_shifted (finite : F -> bool) (rounds : nat) (lagtime : Z)
    (kw : kwargs) :
  (0 < lagtime)%Z ->
  (forall l,
      exists r,
        timeshifted_split finite rounds (AsList l) lagtime kw = inl r
        /\ Forall (fun b => exists d, In d l /\ aligned_in (Z.to_nat lagtime) d b) (blocks r))
  /\ (forall a,
         exists r,
           timeshifted_split finite rounds (AsArray a) lagtime kw = inl r
           /\ Forall (aligned_in (Z.to_nat lagtime) a) (blocks r))
  /\ (forall l,
         exists r,
           timeshifted_split finite rounds (AsTuple l) lagtime kw = inr r
           /\ Forall (aligned_in (Z.to_nat lagtime) l) (blocks r)).
Proof.
  intros Hlag. split; [| split].
  - intros l. eexists. split; [reflexivity |].
    apply split_list_aligned; [apply chkfinite_same | exact Hlag].
  - intros a. eexists. split; [reflexivity |].
    eapply Forall_impl.
    + apply (split_list_aligned (chkfinite finite) rounds [a] lagtime kw);
        [apply chkfinite_same | exact Hlag].
    + intros b (d & [<- | []] & Hb). exact Hb.
  - intros l. eexists. split; [reflexivity |].
    eapply Forall_impl.
    + apply (split_list_aligned (chkfinite_nested finite) rounds [l] lagtime kw);
        [apply chkfinite_nested_same | exact Hlag].
    + intros b (d & [<- | []] & Hb). exact Hb.
Qed.

End SplitAlignmentEntry.

(* ===================================================================== *)
(** * timeshifted_split: arguments, chunks, splits                        *)
(* ===================================================================== *)

Section SplitModes.
Import TimeshiftedSplit.
Context {R : RandomState} {F : Type}.

(** X2.  The three checks at the head of the body come before any block:
    a negative [lagtime], a negative [chunksize], or one trajectory with no
    more than [lagtime] frames (be it the last of the list, and be it exactly
    [lagtime] frames long) end the iteration with a [ValueError] at once. *)
Theorem split_rejects_arguments_first (chk : list F -> res (list F)) (rounds : nat)
    (inputs : list (list F)) (lagtime : Z) (kw : kwargs) :
  ((lagtime < 0)%Z ->
   split_list chk rounds inputs lagtime kw
   = Run [] (Raised (Exn ValueError "lagtime has to be positive")) (random_state kw))
  /\ ((0 <= lagtime)%Z -> (chunksize kw < 0)%Z ->
      split_list chk rounds inputs lagtime kw
      = Run [] (Raised (Exn ValueError "chunksize has to be positive")) (random_state kw))
  /\ ((0 <= lagtime)%Z -> (0 <= chunksize kw)%Z ->
      Exists (fun d => (Z.of_nat (length d) <= lagtime)%Z) inputs ->
      blocks (split_list chk rounds inputs lagtime kw) = []
      /\ ended (split_list chk rounds inputs lagtime kw)
         = Raised (Exn ValueError "Input contained to short (smaller than lagtime)")).
Proof.
  unfold split_list. split; [| split].
  - intros Hlag. destruct (Z.ltb_spec lagtime 0); [reflexivity | lia].
  - intros Hlag Hc. destruct (Z.ltb_spec lagtime 0); [lia |].
    destruct (Z.ltb_spec (chunksize kw) 0); [reflexivity | lia].
  - intros Hlag Hc Hshort. destruct (Z.ltb_spec lagtime 0); [lia |].
    destruct (Z.ltb_spec (chunksize kw) 0); [lia |].
    assert (Hall : forallb (fun data => (lagtime <? Z.of_nat (length data))%Z) inputs = false).
    { apply not_true_is_false. intros Hall. rewrite forallb_forall in Hall.
      apply Exists_exists in Hshort as (d & Hin & Hd).
      apply list_elem_of_In in Hin.
      specialize (Hall d Hin). apply Z.ltb_lt in Hall. lia. }
    rewrite Hall. split; reflexivity.
Qed.

(** The [while] loop on the unshuffled index array: with a chunk size of at
    least one and enough rounds it ends, and its blocks are the consecutive
    chunks of [data] and [data_lagged] from [t] on. *)
Lemma over_chunks_seq lagtime c (data data_lagged : list F) :
  length data = length data_lagged ->
  1 <= c ->
  forall rounds t,
    length data - t <= rounds ->
    exists bs,
      over_chunks rounds lagtime c data data_lagged (seq 0 (length data)) t
      = (bs, Exhausted)
      /\ concat (map block_x bs) = skipn t data
      /\ concat (map block_lagged bs) = (if (0 <? lagtime)%Z then skipn t data_lagged else [])
      /\ Forall (fun b => 1 <= length (block_x b) <= c
                          /\ (if (0 <? lagtime)%Z
                              then exists x y, b = Pair x y /\ length x = length y
                              else exists x, b = Single x)) bs
      /\ (forall i b, bs !! i = Some b -> Datatypes.S i < length bs ->
                      length (block_x b) = c).
Proof.
  intros Hlen Hc rounds. induction rounds as [| rounds IH]; intros t Hr.
  - cbn [over_chunks]. destruct (Nat.ltb_spec t (length data)); [lia |].
    exists []. repeat split.
    + cbn. rewrite drop_ge by lia. reflexivity.
    + cbn. destruct (0 <? lagtime)%Z; [| reflexivity].
      rewrite drop_ge by lia. reflexivity.
    + constructor.
    + intros i b Hb. rewrite lookup_nil in Hb. discriminate.
  - cbn [over_chunks]. destruct (Nat.ltb_spec t (length data)) as [Hlt | Hge].
    2:{ exists []. repeat split.
        + cbn. rewrite drop_ge by lia. reflexivity.
        + cbn. destruct (0 <? lagtime)%Z; [| reflexivity].
          rewrite drop_ge by lia. reflexivity.
        + constructor.
        + intros i b Hb. rewrite lookup_nil in Hb. discriminate. }
    destruct (Nat.eqb_spec t (length data_lagged)) as [Heq | _]; [lia |].
    rewrite <- Hlen.
    rewrite slice_seq by lia.
    set (k := Nat.min (t + c) (length data) - t).
    assert (Hk : 1 <= k <= c) by (unfold k; lia).
    unfold make_block.
    rewrite index_seq by (unfold k; lia).
    destruct (IH (t + c)) as (bs & Hrun & Hx & Hy & Hall & Hfull); [lia |].
    assert (Hxk : forall l : list F, length l = length data ->
                    firstn k (skipn t l) ++ skipn (t + c) l = skipn t l).
    { intros l Hl. destruct (Nat.le_gt_cases (t + c) (length data)) as [Hle | Hgt].
      - replace k with c by (unfold k; lia).
        rewrite <- (drop_drop l c t). apply take_drop.
      - rewrite (drop_ge l (t + c)) by lia. rewrite app_nil_r.
        apply take_ge. rewrite length_drop. unfold k. lia. }
    assert (Hlast : length data <= t + c -> bs = []).
    { intros Hle. destruct rounds; cbn [over_chunks] in Hrun;
        destruct (Nat.ltb_spec (t + c) (length data)); try lia;
        injection Hrun as <-; reflexivity. }
    assert (Hlk : forall l : list F, length l = length data ->
                    length (firstn k (skipn t l)) = k).
    { intros l Hl. rewrite length_take, length_drop. unfold k. lia. }
    destruct (Z.ltb_spec 0 lagtime) as [Hlag | Hlag].
    + rewrite index_seq by (unfold k; lia). rewrite Hrun.
      eexists. split; [reflexivity |]. cbn [map concat block_x block_lagged].
      rewrite Hx, Hy. split; [apply Hxk; reflexivity |].
      split; [apply Hxk; congruence |]. split.
      * constructor; [| exact Hall]. cbn [block_x].
        rewrite (Hlk data eq_refl). split; [exact Hk |].
        eexists _, _. split; [reflexivity |].
        rewrite (Hlk data eq_refl), (Hlk data_lagged) by congruence. reflexivity.
      * intros [| i] b Hb Hi.
        -- injection Hb as <-. cbn [block_x]. rewrite (Hlk data eq_refl).
           destruct (Nat.le_gt_cases (length data) (t + c)) as [Hle | Hgt].
           ++ rewrite (Hlast Hle) in Hi. cbn in Hi. lia.
           ++ unfold k. lia.
        -- apply (Hfull i b Hb). cbn in Hi. lia.
    + rewrite Hrun.
      eexists. split; [reflexivity |]. cbn [map concat block_x block_lagged].
      rewrite Hx, Hy. split; [apply Hxk; reflexivity |].
      split; [reflexivity |]. split.
      * constructor; [| exact Hall]. cbn [block_x].
        rewrite (Hlk data eq_refl). split; [exact Hk |].
        eexists. reflexivity.
      * intros [| i] b Hb Hi.
        -- injection Hb as <-. cbn [block_x]. rewrite (Hlk data eq_refl).
           destruct (Nat.le_gt_cases (length data) (t + c)) as [Hle | Hgt].
           ++ rewrite (Hlast Hle) in Hi. cbn in Hi. lia.
           ++ unfold k. lia.
        -- apply (Hfull i b Hb). cbn in Hi. lia.
Qed.

(** The random state the loop over the trajectories starts with. *)
Lemma split_list_checked (chk : list F -> res (list F)) rounds inputs lagtime kw :
  (0 <= lagtime)%Z -> (0 <= chunksize kw)%Z ->
  Forall (fun d => (lagtime < Z.of_nat (length d))%Z) inputs ->
  split_list chk rounds inputs lagtime kw
  = over_inputs chk rounds lagtime kw
                (match shuffle kw, random_state kw with
                 | true, None => Some rs_new
                 | _, r => r
                 end) inputs.
Proof.
  intros Hlag Hc Hall. unfold split_list.
  destruct (Z.ltb_spec lagtime 0); [lia |].
  destruct (Z.ltb_spec (chunksize kw) 0); [lia |].
  assert (Hf : forallb (fun data => (lagtime <? Z.of_nat (length data))%Z) inputs = true).
  { apply forallb_forall. intros d Hin. apply Z.ltb_lt.
    rewrite Forall_forall in Hall. apply Hall.
    apply list_elem_of_In. exact Hin. }
  rewrite Hf. reflexivity.
Qed.

Lemma step_slice_from_0_Ok s (l : list F) :
  s <> 0%Z -> step_slice_from_0 s l = Ok (strided_from_0 s l).
Proof.
  intros Hs. unfold strided_from_0, step_slice_from_0.
  destruct (Z.eqb_spec s 0) as [-> | _]; [congruence |].
  destruct (0 <? s)%Z; reflexivity.
Qed.

(** [l[0::s]] is [l[::s]] for a positive step, and the first entry alone
    for a negative one. *)
Lemma strided_from_0_cases s (l : list F) :
  s <> 0%Z ->
  strided_from_0 s l = if (0 <? s)%Z then strided s l else firstn 1 l.
Proof.
  intros Hs. unfold strided_from_0, step_slice_from_0, strided, step_slice.
  destruct (Z.eqb_spec s 0) as [-> | _]; [congruence |].
  destruct (0 <? s)%Z; reflexivity.
Qed.

(** With [lagtime = 0] and a negative stride, one frame is left of the
    trajectory: the first. *)
Lemma x_frames_backwards s (d : list F) :
  (s < 0)%Z -> x_frames 0 s d = firstn 1 d.
Proof.
  intros Hs. unfold x_frames. cbn [Z.ltb Z.compare].
  rewrite strided_from_0_cases by lia.
  destruct (Z.ltb_spec 0 s); [lia | reflexivity].
Qed.

(** A block without lagged frames does not look at the lagged trajectory. *)
Lemma make_block_unlagged lagtime (data dl dl' : list F) ix ix' ix'' :
  (lagtime <= 0)%Z ->
  make_block lagtime data dl ix ix' = make_block lagtime data dl' ix ix''.
Proof.
  intros Hlag. unfold make_block.
  destruct (index data ix); [| reflexivity].
  destruct (Z.ltb_spec 0 lagtime); [lia | reflexivity].
Qed.

Lemma over_splits_unlagged lagtime (data dl dl' : list F) splits :
  (lagtime <= 0)%Z ->
  over_splits lagtime data dl splits = over_splits lagtime data dl' splits.
Proof.
  intros Hlag. induction splits as [| ix rest IH]; cbn [over_splits]; [reflexivity |].
  rewrite (make_block_unlagged lagtime data dl dl' ix ix ix Hlag), IH. reflexivity.
Qed.

Lemma over_chunks_unlagged lagtime c (data dl : list F) ix :
  (lagtime <= 0)%Z ->
  length data <= length dl ->
  forall rounds t,
    over_chunks rounds lagtime c data dl ix t = over_chunks rounds lagtime c data data ix t.
Proof.
  intros Hlag Hle rounds. induction rounds as [| rounds IH]; intros t; cbn [over_chunks].
  - destruct (Nat.ltb_spec t (length data)); [| reflexivity].
    destruct (Nat.eqb_spec t (length dl)); [lia |].
    destruct (Nat.eqb_spec t (length data)); [lia | reflexivity].
  - destruct (Nat.ltb_spec t (length data)); [| reflexivity].
    destruct (Nat.eqb_spec t (length dl)); [lia |].
    destruct (Nat.eqb_spec t (length data)); [lia |].
    rewrite (make_block_unlagged lagtime data dl data _ _
               (slice ix t (Nat.min (t + c) (length data))) Hlag).
    rewrite IH. reflexivity.
Qed.

Lemma strided_head_tail_length s lag (d : list F) :
  s <> 0%Z ->
  length (strided s (firstn (length d - lag) d)) = length (strided s (skipn lag d)).
Proof.
  intros Hs. eapply step_slice_length; [| apply step_slice_Ok, Hs | apply step_slice_Ok, Hs].
  rewrite length_take, length_drop. lia.
Qed.

Lemma strided_length_le s (l : list F) : length (strided s l) <= length l.
Proof.
  assert (Hte : forall gap (k : list F) wait, length (take_every gap wait k) <= length k).
  { intros gap k. induction k as [| x k IH]; intros wait; cbn [take_every length]; [lia |].
    destruct wait; cbn [length]; [specialize (IH gap) | specialize (IH wait)]; lia. }
  unfold strided, step_slice.
  destruct (s =? 0)%Z; [cbn; lia |].
  destruct (0 <? s)%Z; [apply Hte |].
  rewrite <- (length_rev l). apply Hte.
Qed.

Lemma x_frames_length_le lagtime s (d : list F) :
  s <> 0%Z -> length (x_frames lagtime s d) <= length d.
Proof.
  intros Hs. unfold x_frames. destruct (0 <? lagtime)%Z.
  - pose proof (strided_length_le s (firstn (length d - Z.to_nat lagtime) d)) as H.
    rewrite length_take in H. lia.
  - rewrite strided_from_0_cases by exact Hs. destruct (0 <? s)%Z.
    + apply strided_length_le.
    + rewrite length_take. lia.
Qed.

(** The frames of the first component are no more than the lagged ones,
    and as many when there is a lag. *)
Lemma x_frames_lagged_length lagtime s (d : list F) :
  s <> 0%Z -> (0 <= lagtime)%Z ->
  length (x_frames lagtime s d) <= length (strided s (skipn (Z.to_nat lagtime) d))
  /\ ((0 < lagtime)%Z ->
      length (x_frames lagtime s d) = length (strided s (skipn (Z.to_nat lagtime) d))).
Proof.
  intros Hs Hlag. unfold x_frames. destruct (Z.ltb_spec 0 lagtime) as [Hpos | Hzero].
  - rewrite strided_head_tail_length by exact Hs. split; [lia | reflexivity].
  - split; [| lia]. replace (Z.to_nat lagtime) with 0 by lia. rewrite drop_0.
    rewrite strided_from_0_cases by exact Hs. destruct (0 <? s)%Z; [lia |].
    rewrite length_take.
    destruct d as [| x d]; [cbn [length]; lia |].
    pose proof (strided_nonempty s (x :: d) Hs ltac:(discriminate)) as Hne.
    destruct (strided s (x :: d)); [congruence | cbn [length]; lia].
Qed.

(** One finite trajectory, not shuffled: its frames go to the loop of the
    mode chosen; without a lag the loop does not look at the lagged
    frames. *)
Lemma split_one_unshuffled (finite : F -> bool) rounds lagtime kw rs d :
  forallb finite d = true -> stride kw <> 0%Z -> (0 <= lagtime)%Z ->
  shuffle kw = false ->
  split_one (chkfinite finite) rounds lagtime kw rs d
  = let data := x_frames lagtime (stride kw) d in
    let data_lagged :=
      if (0 <? lagtime)%Z then strided (stride kw) (skipn (Z.to_nat lagtime) d) else data in
    match n_splits kw with
    | Some n =>
        if (n <? 1)%Z then Run [] (Raised (Exn AssertionError "")) rs
        else
          let '(bs, e) :=
            over_splits lagtime data data_lagged
                        (array_split (seq 0 (length data)) (Z.to_nat n)) in
          Run bs e rs
    | None =>
        let '(bs, e) :=
          over_chunks rounds lagtime (Z.to_nat (chunksize kw)) data data_lagged
                      (seq 0 (length data)) 0 in
        Run bs e rs
    end.
Proof.
  intros Hfin Hs Hlag Hsh. unfold split_one, chkfinite. rewrite Hfin, Hsh.
  rewrite step_slice_Ok by exact Hs.
  assert (Hx : (if (0 <? lagtime)%Z
                then step_slice (stride kw) (firstn (length d - Z.to_nat lagtime) d)
                else step_slice_from_0 (stride kw) d)
               = Ok (x_frames lagtime (stride kw) d)).
  { unfold x_frames. destruct (0 <? lagtime)%Z.
    - apply step_slice_Ok, Hs.
    - apply step_slice_from_0_Ok, Hs. }
  rewrite Hx. cbv zeta.
  destruct (x_frames_lagged_length lagtime (stride kw) d Hs Hlag) as [Hle _].
  destruct (Z.ltb_spec 0 lagtime) as [Hpos | Hzero]; [reflexivity |].
  destruct (n_splits kw) as [n |].
  - destruct (n <? 1)%Z; [reflexivity |].
    rewrite (over_splits_unlagged lagtime _ _ (x_frames lagtime (stride kw) d))
      by exact Hzero.
    reflexivity.
  - rewrite (over_chunks_unlagged lagtime _ _ _ _ Hzero Hle). reflexivity.
Qed.

Lemma x_frames_same_length lagtime s (d : list F) :
  s <> 0%Z -> (0 <= lagtime)%Z ->
  length (x_frames lagtime s d)
  = length (if (0 <? lagtime)%Z then strided s (skipn (Z.to_nat lagtime) d)
            else x_frames lagtime s d).
Proof.
  intros Hs Hlag. destruct (x_frames_lagged_length lagtime s d Hs Hlag) as [_ Heq].
  destruct (Z.ltb_spec 0 lagtime); [apply Heq; assumption | reflexivity].
Qed.

(** X3.  One finite trajectory [d] with more than [lagtime] frames, split
    by chunk size (no [n_splits], no shuffling, [chunksize >= 1], a stride
    other than 0): the generator is exhausted after at most [len(d)] rounds
    of its loop; the [x] of its blocks, put end to end, are the frames
    [d[:-lagtime][::stride]], or [d[0::stride]] when [lagtime = 0] (with a
    negative stride that is the first frame alone), and the [x_lagged] are
    [d[lagtime:][::stride]]; a block is a pair exactly when [lagtime > 0];
    every block has between 1 and [chunksize] frames, and every block but
    the last has [chunksize]. *)
Theorem chunks_cover_the_trajectory (finite : F -> bool) (rounds : nat) (d : list F)
    (lagtime : Z) (kw : kwargs) :
  forallb finite d = true ->
  (0 <= lagtime < Z.of_nat (length d))%Z ->
  (1 <= chunksize kw)%Z ->
  stride kw <> 0%Z ->
  n_splits kw = None ->
  shuffle kw = false ->
  length d <= rounds ->
  exists bs,
    split_list (chkfinite finite) rounds [d] lagtime kw = Run bs Exhausted (random_state kw)
    /\ concat (map block_x bs) = x_frames lagtime (stride kw) d
    /\ concat (map block_lagged bs)
       = (if (0 <? lagtime)%Z then strided (stride kw) (skipn (Z.to_nat lagtime) d) else [])
    /\ Forall (fun b => 1 <= length (block_x b) <= Z.to_nat (chunksize kw)
                        /\ (if (0 <? lagtime)%Z
                            then exists x y, b = Pair x y /\ length x = length y
                            else exists x, b = Single x)) bs
    /\ (forall i b, bs !! i = Some b -> Datatypes.S i < length bs ->
                    length (block_x b) = Z.to_nat (chunksize kw)).
Proof.
  intros Hfin Hlag Hc Hs Hn Hsh Hr.
  rewrite split_list_checked by first [lia | constructor; [lia | constructor]].
  rewrite Hsh. cbn [over_inputs].
  rewrite split_one_unshuffled by (try assumption; lia).
  cbv zeta. rewrite Hn.
  pose proof (x_frames_same_length lagtime (stride kw) d Hs ltac:(lia)) as Hlen.
  pose proof (x_frames_length_le lagtime (stride kw) d Hs) as Hle.
  set (data := x_frames lagtime (stride kw) d) in *.
  set (data_lagged := if (0 <? lagtime)%Z
                      then strided (stride kw) (skipn (Z.to_nat lagtime) d) else data) in *.
  destruct (over_chunks_seq lagtime (Z.to_nat (chunksize kw)) data data_lagged)
    with (rounds := rounds) (t := 0)
    as (bs & Hrun & Hx & Hy & Hall & Hfull).
  - exact Hlen.
  - lia.
  - lia.
  - rewrite Hrun. cbn [ended blocks random_state_after].
    exists bs. rewrite app_nil_r.
    split; [reflexivity |]. split; [exact Hx |]. split; [| split; [exact Hall | exact Hfull]].
    rewrite Hy. unfold data_lagged. destruct (0 <? lagtime)%Z; reflexivity.
Qed.

Lemma over_chunks_zero lagtime (data data_lagged : list F) ix :
  0 < length data -> 0 < length data_lagged ->
  forall rounds,
    over_chunks rounds lagtime 0 data data_lagged ix 0
    = (repeat (if (0 <? lagtime)%Z then Pair [] [] else Single []) rounds, Running).
Proof.
  intros Hpos Hlen rounds. induction rounds as [| rounds IH]; cbn [over_chunks].
  - destruct (Nat.ltb_spec 0 (length data)); [| lia].
    destruct (Nat.eqb_spec 0 (length data_lagged)); [lia | reflexivity].
  - destruct (Nat.ltb_spec 0 (length data)); [| lia].
    destruct (Nat.eqb_spec 0 (length data_lagged)); [lia |].
    unfold slice. cbn [Nat.add Nat.min Nat.sub]. rewrite take_0.
    unfold make_block. cbn [index].
    rewrite IH. destruct (0 <? lagtime)%Z; reflexivity.
Qed.

(** X4.  [chunksize=0] passes the check of the arguments, and without
    [n_splits] the loop over the first trajectory never ends: however many
    rounds it is given, it has yielded one empty block per round and is
    still running; no later trajectory is reached.  (This holds with and
    without shuffling.) *)
Theorem zero_chunksize_never_ends (finite : F -> bool) (rounds : nat) (d : list F)
    (rest : list (list F)) (lagtime : Z) (kw : kwargs) :
  forallb finite d = true ->
  (0 <= lagtime)%Z ->
  Forall (fun d' => (lagtime < Z.of_nat (length d'))%Z) (d :: rest) ->
  chunksize kw = 0%Z ->
  stride kw <> 0%Z ->
  n_splits kw = None ->
  blocks (split_list (chkfinite finite) rounds (d :: rest) lagtime kw)
  = repeat (if (0 <? lagtime)%Z then Pair [] [] else Single []) rounds
  /\ ended (split_list (chkfinite finite) rounds (d :: rest) lagtime kw) = Running.
Proof.
  intros Hfin Hlag Hall Hc Hs Hn.
  rewrite split_list_checked by (try assumption; lia).
  apply Forall_cons in Hall as [Hd _].
  set (rs := match shuffle kw, random_state kw with
             | true, None => Some rs_new
             | _, r => r
             end).
  assert (Hone : exists rs',
             split_one (chkfinite finite) rounds lagtime kw rs d
             = Run (repeat (if (0 <? lagtime)%Z then Pair [] [] else Single []) rounds)
                   Running rs').
  { unfold split_one, chkfinite. rewrite Hfin.
    rewrite step_slice_Ok by exact Hs.
    assert (Hx : (if (0 <? lagtime)%Z
                  then step_slice (stride kw) (firstn (length d - Z.to_nat lagtime) d)
                  else step_slice_from_0 (stride kw) d)
                 = Ok (x_frames lagtime (stride kw) d)).
    { unfold x_frames. destruct (0 <? lagtime)%Z.
      - apply step_slice_Ok, Hs.
      - apply step_slice_from_0_Ok, Hs. }
    rewrite Hx, Hn, Hc. cbn [Z.to_nat].
    set (data := x_frames lagtime (stride kw) d).
    set (data_lagged := strided (stride kw) (skipn (Z.to_nat lagtime) d)).
    assert (Hposl : 0 < length data_lagged).
    { assert (Hne : data_lagged <> []).
      { apply strided_nonempty; [exact Hs |].
        intros Hnil. apply (f_equal (@length F)) in Hnil.
        rewrite length_drop in Hnil. cbn in Hnil. lia. }
      destruct data_lagged; [congruence | cbn; lia]. }
    assert (Hpos : 0 < length data).
    { unfold data, x_frames. destruct (Z.ltb_spec 0 lagtime) as [Hp | Hz].
      - rewrite strided_head_tail_length by exact Hs. exact Hposl.
      - rewrite strided_from_0_cases by exact Hs. destruct (0 <? stride kw)%Z.
        + unfold data_lagged in Hposl.
          replace (Z.to_nat lagtime) with 0 in Hposl by lia.
          rewrite drop_0 in Hposl. exact Hposl.
        + rewrite length_take. lia. }
    unfold rs. destruct (shuffle kw).
    - destruct (random_state kw) as [r |];
        destruct (rs_shuffle (seq 0 (length data)) _) as [ix' r'];
        rewrite over_chunks_zero by assumption; eexists; reflexivity.
    - rewrite over_chunks_zero by assumption. eexists; reflexivity. }
  destruct Hone as (rs' & Hone). cbn [over_inputs]. rewrite Hone.
  cbn [ended blocks]. split; reflexivity.
Qed.

Lemma firstn_add {X} k n (l : list X) :
  firstn (k + n) l = firstn k l ++ firstn n (skipn k l).
Proof.
  revert l. induction k as [| k IH]; intros l; [reflexivity |].
  destruct l as [| x l]; cbn [Nat.add firstn skipn app].
  - rewrite firstn_nil. reflexivity.
  - rewrite IH. reflexivity.
Qed.

Lemma cut_app {X} sizes1 sizes2 (l : list X) :
  cut (sizes1 ++ sizes2) l = cut sizes1 l ++ cut sizes2 (skipn (list_sum sizes1) l).
Proof.
  revert l. induction sizes1 as [| k ks IH]; intros l; cbn [app cut list_sum].
  - reflexivity.
  - rewrite IH, drop_drop. reflexivity.
Qed.

Lemma list_sum_repeat k n : list_sum (repeat k n) = n * k.
Proof.
  induction n as [| n IH]; [reflexivity |].
  cbn [repeat]. change (list_sum (k :: repeat k n)) with (k + list_sum (repeat k n)).
  rewrite IH. lia.
Qed.

Lemma repeat_lookup {X} (x y : X) n i : repeat x n !! i = Some y -> y = x /\ i < n.
Proof.
  revert i. induction n as [| n IH]; intros i H; cbn [repeat] in H.
  - rewrite lookup_nil in H. discriminate.
  - destruct i as [| i].
    + injection H as <-. split; [reflexivity | lia].
    + destruct (IH i H). split; [assumption | lia].
Qed.

(** The loop over splits of positive sizes cut from consecutive indices,
    followed by nothing or by an empty split (where the loop breaks). *)
Lemma over_splits_cut lagtime (data data_lagged : list F) tail :
  length data = length data_lagged ->
  (tail = [] \/ exists tl, tail = [] :: tl) ->
  forall sizes a m,
    Forall (fun k => 1 <= k) sizes ->
    list_sum sizes <= m ->
    a + m <= length data ->
    exists bs,
      over_splits lagtime data data_lagged (cut sizes (seq a m) ++ tail) = (bs, Exhausted)
      /\ map (fun b => length (block_x b)) bs = sizes
      /\ concat (map block_x bs) = firstn (list_sum sizes) (skipn a data)
      /\ concat (map block_lagged bs)
         = (if (0 <? lagtime)%Z then firstn (list_sum sizes) (skipn a data_lagged) else [])
      /\ Forall (fun b => if (0 <? lagtime)%Z
                          then exists x y, b = Pair x y /\ length x = length y
                          else exists x, b = Single x) bs.
Proof.
  intros Hlen Htail sizes. induction sizes as [| k ks IH]; intros a m Hpos Hsum Hle.
  - cbn [cut app list_sum firstn]. exists [].
    assert (Hstop : over_splits lagtime data data_lagged tail = ([], Exhausted)).
    { destruct Htail as [-> | (tl & ->)]; reflexivity. }
    rewrite Hstop. repeat split; try reflexivity.
    + destruct (0 <? lagtime)%Z; reflexivity.
    + constructor.
  - apply Forall_cons in Hpos as [Hk Hks].
    change (list_sum (k :: ks)) with (k + list_sum ks) in *.
    cbn [cut app over_splits]. rewrite take_seq, drop_seq.
    replace (Nat.min k m) with k by lia.
    rewrite length_seq. destruct (Nat.ltb_spec 0 k) as [_ | Hz]; [| lia].
    unfold make_block. rewrite index_seq by lia.
    destruct (IH (a + k) (m - k)) as (bs & Hrun & Hsizes & Hx & Hy & Hkind);
      [exact Hks | lia | lia |].
    assert (Hlk : forall l : list F, length l = length data ->
                    length (firstn k (skipn a l)) = k).
    { intros l Hl. rewrite length_take, length_drop. lia. }
    destruct (Z.ltb_spec 0 lagtime) as [Hlag | Hlag].
    + rewrite index_seq by lia. rewrite Hrun.
      eexists. split; [reflexivity |].
      cbn [map concat block_x block_lagged].
      rewrite Hsizes, Hx, Hy, (Hlk data eq_refl), !firstn_add, !drop_drop.
      repeat split.
      constructor; [| exact Hkind].
      eexists _, _. split; [reflexivity |].
      rewrite (Hlk data eq_refl), (Hlk data_lagged) by congruence. reflexivity.
    + rewrite Hrun.
      eexists. split; [reflexivity |].
      cbn [map concat block_x block_lagged].
      rewrite Hsizes, Hx, Hy, (Hlk data eq_refl), !firstn_add, !drop_drop.
      repeat split.
      constructor; [| exact Hkind].
      eexists. reflexivity.
Qed.

(** The loop over the splits of all indices: [np.array_split] followed by
    the loop that stops at the first empty split. *)
Lemma over_splits_array_split lagtime (data data_lagged : list F) N :
  length data = length data_lagged ->
  1 <= N ->
  exists bs,
    over_splits lagtime data data_lagged (array_split (seq 0 (length data)) N)
    = (bs, Exhausted)
    /\ length bs = Nat.min N (length data)
    /\ (forall i b, bs !! i = Some b ->
                    length (block_x b)
                    = length data / N + (if i <? length data mod N then 1 else 0))
    /\ concat (map block_x bs) = data
    /\ concat (map block_lagged bs) = (if (0 <? lagtime)%Z then data_lagged else [])
    /\ Forall (fun b => if (0 <? lagtime)%Z
                        then exists x y, b = Pair x y /\ length x = length y
                        else exists x, b = Single x) bs.
Proof.
  intros Hlen HN.
  set (L := length data) in *.
  pose proof (Nat.div_mod_eq L N) as Hdm.
  pose proof (Nat.mod_upper_bound L N ltac:(lia)) as Hmod.
  unfold array_split. rewrite length_seq. fold L.
  set (each := L / N) in *. set (extras := L mod N) in *.
  destruct (Nat.eq_dec each 0) as [Hz | Hnz].
  - (* fewer frames than splits: the loop breaks at the first empty split *)
    rewrite Hz in *. assert (HL : L = extras) by lia.
    rewrite cut_app.
    destruct (over_splits_cut lagtime data data_lagged
                (cut (repeat 0 (N - extras))
                     (skipn (list_sum (repeat 1 extras)) (seq 0 L))) Hlen)
      with (sizes := repeat 1 extras) (a := 0) (m := L)
      as (bs & Hrun & Hsizes & Hx & Hy & Hkind).
    + right. destruct (N - extras) as [| k] eqn:Hk; [lia |].
      cbn [repeat cut firstn]. eexists. reflexivity.
    + apply Forall_forall. intros k Hin. apply list_elem_of_In, repeat_spec in Hin. lia.
    + rewrite list_sum_repeat. lia.
    + unfold L. lia.
    + exists bs. split; [exact Hrun |].
      rewrite list_sum_repeat in Hx, Hy.
      assert (Hbs : length bs = extras).
      { rewrite <- (length_map (fun b => length (block_x b))), Hsizes.
        apply repeat_length. }
      split; [lia |]. split; [| split; [| split]].
      * intros i b Hb.
        assert (Hi : repeat 1 extras !! i = Some (length (block_x b))).
        { rewrite <- Hsizes, list_lookup_fmap, Hb. reflexivity. }
        apply repeat_lookup in Hi as [-> Hi].
        destruct (Nat.ltb_spec i extras); lia.
      * rewrite Hx. cbn [skipn]. apply take_ge. fold L. lia.
      * rewrite Hy. destruct (0 <? lagtime)%Z; [| reflexivity].
        cbn [skipn]. apply take_ge. rewrite <- Hlen. fold L. lia.
      * exact Hkind.
  - (* every split has at least one index *)
    rewrite <- (app_nil_r (cut _ (seq 0 L))).
    destruct (over_splits_cut lagtime data data_lagged [] Hlen)
      with (sizes := repeat (Datatypes.S each) extras ++ repeat each (N - extras))
           (a := 0) (m := L)
      as (bs & Hrun & Hsizes & Hx & Hy & Hkind).
    + left. reflexivity.
    + apply Forall_app. split; apply Forall_forall; intros k Hin;
        apply list_elem_of_In, repeat_spec in Hin; lia.
    + rewrite list_sum_app, !list_sum_repeat. nia.
    + unfold L. lia.
    + exists bs. split; [exact Hrun |].
      assert (Hsum : list_sum (repeat (Datatypes.S each) extras ++ repeat each (N - extras))
                     = L)
        by (rewrite list_sum_app, !list_sum_repeat; nia).
      rewrite Hsum in Hx, Hy.
      assert (Hbs : length bs = N).
      { rewrite <- (length_map (fun b => length (block_x b))), Hsizes.
        rewrite length_app, !repeat_length. lia. }
      assert (HNL : N <= L) by nia.
      split; [lia |]. split; [| split; [| split]].
      * intros i b Hb.
        assert (Hi : (repeat (Datatypes.S each) extras ++ repeat each (N - extras)) !! i
                     = Some (length (block_x b))).
        { rewrite <- Hsizes, list_lookup_fmap, Hb. reflexivity. }
        apply lookup_app_Some in Hi as [Hi | [Hge Hi]].
        -- apply repeat_lookup in Hi as [-> Hi].
           destruct (Nat.ltb_spec i extras); lia.
        -- rewrite repeat_length in Hge, Hi.
           apply repeat_lookup in Hi as [-> Hi].
           destruct (Nat.ltb_spec i extras); lia.
      * rewrite Hx. cbn [skipn]. apply take_ge. fold L. lia.
      * rewrite Hy. destruct (0 <? lagtime)%Z; [| reflexivity].
        cbn [skipn]. apply take_ge. rewrite <- Hlen. fold L. lia.
      * exact Hkind.
Qed.

(** X5.  One finite trajectory with more than [lagtime] frames, split by
    [n_splits = n >= 1] without shuffling: the generator is always exhausted,
    whatever [chunksize >= 0] says and with no bound on rounds; it yields
    [min(n, L)] blocks, [L] being the number of frames that go to [x]
    ([d[:-lagtime][::stride]], or [d[0::stride]] when [lagtime = 0]: one
    frame for a negative stride); block [i] has [L // n] frames and one more
    when [i < L % n]; and the blocks put end to end are those frames. *)
Theorem n_splits_cover_the_trajectory (finite : F -> bool) (rounds : nat) (d : list F)
    (lagtime : Z) (kw : kwargs) (n : Z) :
  forallb finite d = true ->
  (0 <= lagtime < Z.of_nat (length d))%Z ->
  (0 <= chunksize kw)%Z ->
  stride kw <> 0%Z ->
  n_splits kw = Some n ->
  (1 <= n)%Z ->
  shuffle kw = false ->
  exists bs,
    split_list (chkfinite finite) rounds [d] lagtime kw = Run bs Exhausted (random_state kw)
    /\ length bs = Nat.min (Z.to_nat n) (length (x_frames lagtime (stride kw) d))
    /\ (forall i b,
           bs !! i = Some b ->
           length (block_x b)
           = length (x_frames lagtime (stride kw) d) / Z.to_nat n
             + (if i <? length (x_frames lagtime (stride kw) d) mod Z.to_nat n
                then 1 else 0))
    /\ concat (map block_x bs) = x_frames lagtime (stride kw) d
    /\ concat (map block_lagged bs)
       = (if (0 <? lagtime)%Z then strided (stride kw) (skipn (Z.to_nat lagtime) d) else [])
    /\ Forall (fun b => if (0 <? lagtime)%Z
                        then exists x y, b = Pair x y /\ length x = length y
                        else exists x, b = Single x) bs.
Proof.
  intros Hfin Hlag Hc Hs Hn Hn1 Hsh.
  rewrite split_list_checked by first [lia | constructor; [lia | constructor]].
  rewrite Hsh. cbn [over_inputs].
  rewrite split_one_unshuffled by (try assumption; lia).
  cbv zeta. rewrite Hn.
  destruct (Z.ltb_spec n 1) as [Hbad | _]; [lia |].
  destruct (over_splits_array_split lagtime
              (x_frames lagtime (stride kw) d)
              (if (0 <? lagtime)%Z
               then strided (stride kw) (skipn (Z.to_nat lagtime) d)
               else x_frames lagtime (stride kw) d) (Z.to_nat n))
    as (bs & Hrun & Hnum & Hsize & Hx & Hy & Hkind);
    [apply x_frames_same_length; [exact Hs | lia] | lia |].
  rewrite Hrun. cbn [ended blocks random_state_after].
  exists bs. rewrite app_nil_r.
  split; [reflexivity |]. split; [exact Hnum |]. split; [exact Hsize |].
  split; [exact Hx |]. split; [| exact Hkind].
  rewrite Hy. destruct (0 <? lagtime)%Z; reflexivity.
Qed.

Lemma split_one_random_state (chk : list F -> res (list F)) rounds lagtime kw rs d :
  shuffle kw = false ->
  random_state_after (split_one chk rounds lagtime kw rs d) = rs.
Proof.
  intros Hsh. unfold split_one. rewrite Hsh.
  destruct (chk d); [| reflexivity].
  destruct (step_slice _ _); [| reflexivity].
  destruct (if (0 <? lagtime)%Z then _ else _); [| reflexivity].
  destruct (n_splits kw).
  - destruct (_ <? 1)%Z; [reflexivity |].
    destruct (over_splits _ _ _ _). reflexivity.
  - destruct (over_chunks _ _ _ _ _ _ _). reflexivity.
Qed.

(** X6.  Without shuffling, the trajectories of a list (each with more than
    [lagtime] frames) are split one after the other: the iteration over
    [d :: rest] yields the blocks of [d] alone and then those of [rest]; and
    when the iteration over [d] alone does not get exhausted (it raises, or
    never ends), that is all there is, [rest] is not reached. *)
Theorem trajectories_are_split_in_turn (chk : list F -> res (list F)) (rounds : nat)
    (d : list F) (rest : list (list F)) (lagtime : Z) (kw : kwargs) :
  shuffle kw = false ->
  (0 <= lagtime)%Z ->
  (0 <= chunksize kw)%Z ->
  Forall (fun d' => (lagtime < Z.of_nat (length d'))%Z) (d :: rest) ->
  split_list chk rounds (d :: rest) lagtime kw
  = match ended (split_list chk rounds [d] lagtime kw) with
    | Exhausted =>
        Run (blocks (split_list chk rounds [d] lagtime kw)
             ++ blocks (split_list chk rounds rest lagtime kw))
            (ended (split_list chk rounds rest lagtime kw))
            (random_state_after (split_list chk rounds rest lagtime kw))
    | _ => split_list chk rounds [d] lagtime kw
    end.
Proof.
  intros Hsh Hlag Hc Hall.
  pose proof Hall as Hall'. apply Forall_cons in Hall' as [Hd Hrest].
  rewrite !split_list_checked by first [assumption | constructor; [assumption | constructor]].
  rewrite Hsh. cbn [over_inputs].
  pose proof (split_one_random_state chk rounds lagtime kw (random_state kw) d Hsh) as Hrs.
  destruct (split_one chk rounds lagtime kw (random_state kw) d) as [bs e rs'].
  cbn [ended blocks random_state_after] in *. subst rs'.
  destruct e; cbn [ended blocks random_state_after]; try reflexivity.
  rewrite app_nil_r. reflexivity.
Qed.

(** X7.  Whether the frames are finite is checked trajectory by trajectory,
    when the loop gets there: if the second trajectory holds an infinity or a
    NaN, the blocks of the first are yielded as for the first alone, and
    only then the [ValueError] of [np.asarray_chkfinite] ends the iteration. *)
Theorem nonfinite_trajectory_is_found_late (finite : F -> bool) (rounds : nat)
    (d1 d2 : list F) (rest : list (list F)) (lagtime : Z) (kw : kwargs) :
  shuffle kw = false ->
  (0 <= lagtime)%Z ->
  (0 <= chunksize kw)%Z ->
  Forall (fun d' => (lagtime < Z.of_nat (length d'))%Z) (d1 :: d2 :: rest) ->
  ended (split_list (chkfinite finite) rounds [d1] lagtime kw) = Exhausted ->
  forallb finite d2 = false ->
  split_list (chkfinite finite) rounds (d1 :: d2 :: rest) lagtime kw
  = Run (blocks (split_list (chkfinite finite) rounds [d1] lagtime kw))
        (Raised (Exn ValueError "array must not contain infs or NaNs"))
        (random_state kw).
Proof.
  intros Hsh Hlag Hc Hall Hd1 Hd2.
  rewrite trajectories_are_split_in_turn by assumption. rewrite Hd1.
  apply Forall_cons in Hall as [_ Hall].
  assert (H2 : split_list (chkfinite finite) rounds (d2 :: rest) lagtime kw
               = Run [] (Raised (Exn ValueError "array must not contain infs or NaNs"))
                     (random_state kw)).
  { rewrite split_list_checked by assumption. rewrite Hsh. cbn [over_inputs].
    unfold split_one, chkfinite. rewrite Hd2. reflexivity. }
  rewrite H2. cbn [blocks ended random_state_after]. rewrite app_nil_r. reflexivity.
Qed.

End SplitModes.

(* ===================================================================== *)
(** * timeshifted_split: shuffling, and what is checked late            *)
(* ===================================================================== *)

Section SplitShuffled.
Import TimeshiftedSplit.
Context {R : RandomState} {F : Type}.

(** Indexing with indices in bounds returns. *)
Lemma index_total (data : list F) ixs :
  Forall (fun i => i < length data) ixs -> exists l, index data ixs = Ok l.
Proof.
  induction 1 as [| i ixs Hi _ [l IH]]; cbn [index].
  - exists []. reflexivity.
  - destruct (lookup_lt_is_Some_2 data i Hi) as [a Ha].
    rewrite Ha, IH. eexists. reflexivity.
Qed.

Lemma index_firstn (data : list F) ixs l k :
  index data ixs = Ok l -> index data (firstn k ixs) = Ok (firstn k l).
Proof.
  revert l k. induction ixs as [| i ixs IH]; intros l k H; cbn [index] in H.
  - injection H as <-. rewrite !firstn_nil. reflexivity.
  - destruct (data !! i) as [a |] eqn:Ha; [| discriminate].
    destruct (index data ixs) as [l' | e]; [| discriminate].
    injection H as <-. destruct k as [| k]; [reflexivity |].
    cbn [firstn index]. rewrite Ha, (IH l' k eq_refl). reflexivity.
Qed.

Lemma index_skipn (data : list F) ixs l k :
  index data ixs = Ok l -> index data (skipn k ixs) = Ok (skipn k l).
Proof.
  revert l k. induction ixs as [| i ixs IH]; intros l k H; cbn [index] in H.
  - injection H as <-. rewrite !skipn_nil. reflexivity.
  - destruct (data !! i) as [a |] eqn:Ha; [| discriminate].
    destruct (index data ixs) as [l' | e] eqn:Hl; [| discriminate].
    injection H as <-. destruct k as [| k].
    + cbn [skipn index]. rewrite Ha, Hl. reflexivity.
    + cbn [skipn]. apply IH. reflexivity.
Qed.

(** What indexing returns is made of the entries at the indices. *)
Lemma index_flat_map (data : list F) ixs l :
  index data ixs = Ok l -> l = flat_map (fun i => option_list (data !! i)) ixs.
Proof.
  revert l. induction ixs as [| i ixs IH]; intros l H; cbn [index] in H.
  - injection H as <-. reflexivity.
  - destruct (data !! i) as [a |] eqn:Ha; [| discriminate].
    destruct (index data ixs) as [l' | e]; [| discriminate].
    injection H as <-. cbn [flat_map]. rewrite Ha, <- (IH l' eq_refl). reflexivity.
Qed.

Lemma index_all (data : list F) : index data (seq 0 (length data)) = Ok data.
Proof. rewrite index_seq by lia. cbn [skipn]. rewrite firstn_all. reflexivity. Qed.

(** Indexing with a permutation of all indices permutes the entries. *)
Lemma index_permutation (data : list F) ixs l :
  ixs ≡ₚ seq 0 (length data) -> index data ixs = Ok l -> l ≡ₚ data.
Proof.
  intros Hp Hl. apply index_flat_map in Hl. subst l.
  etransitivity; [apply Permutation_flat_map, Hp |].
  rewrite <- (index_flat_map data _ data (index_all data)). reflexivity.
Qed.

Lemma permutation_in_bounds ixs n :
  ixs ≡ₚ seq 0 n -> length ixs = n /\ Forall (fun i => i < n) ixs.
Proof.
  intros Hp. split.
  - rewrite (Permutation_length Hp). apply length_seq.
  - apply Forall_forall. intros i Hi. rewrite Hp in Hi.
    apply elem_of_seq in Hi. lia.
Qed.

(** Blocks made with the indices [ix] of [data] and [data_lagged] are the
    blocks made with consecutive indices of [data[ix]] and
    [data_lagged[ix]]. *)
Lemma make_block_reindex lagtime (data data_lagged data' lagged' : list F) ix a k a' k' :
  index data ix = Ok data' ->
  index data_lagged ix = Ok lagged' ->
  length data' = length ix ->
  length lagged' = length ix ->
  make_block lagtime data data_lagged (firstn k (skipn a ix)) (firstn k' (skipn a' ix))
  = make_block lagtime data' lagged'
               (firstn k (skipn a (seq 0 (length ix))))
               (firstn k' (skipn a' (seq 0 (length ix)))).
Proof.
  intros Hd Hl Hlen Hlen'. unfold make_block.
  rewrite (index_firstn _ _ _ k (index_skipn _ _ _ a Hd)).
  rewrite (index_firstn _ _ _ k' (index_skipn _ _ _ a' Hl)).
  rewrite <- Hlen at 1. rewrite (index_firstn _ _ _ k (index_skipn _ _ _ a (index_all data'))).
  rewrite <- Hlen'. rewrite (index_firstn _ _ _ k' (index_skipn _ _ _ a' (index_all lagged'))).
  reflexivity.
Qed.

Lemma over_chunks_reindex lagtime c (data data_lagged data' lagged' : list F) ix :
  index data ix = Ok data' ->
  index data_lagged ix = Ok lagged' ->
  length ix = length data ->
  length data = length data_lagged ->
  forall rounds t,
    over_chunks rounds lagtime c data data_lagged ix t
    = over_chunks rounds lagtime c data' lagged' (seq 0 (length data')) t.
Proof.
  intros Hd Hl Hix Hlen.
  destruct (index_Ok_inv _ _ _ Hd) as [Hlen1 _].
  destruct (index_Ok_inv _ _ _ Hl) as [Hlen2 _].
  intros rounds. induction rounds as [| rounds IH]; intros t; cbn [over_chunks].
  - replace (length data') with (length data) by congruence.
    replace (length lagged') with (length data_lagged) by congruence. reflexivity.
  - replace (length data') with (length data) by congruence.
    replace (length lagged') with (length data_lagged) by congruence.
    destruct (t <? length data); [| reflexivity].
    destruct (t =? length data_lagged); [reflexivity |].
    unfold slice.
    rewrite (make_block_reindex lagtime data data_lagged data' lagged' ix) by congruence.
    rewrite IH. replace (length data') with (length data) by congruence.
    rewrite Hix. reflexivity.
Qed.

Lemma over_splits_reindex lagtime (data data_lagged data' lagged' : list F) ix :
  index data ix = Ok data' ->
  index data_lagged ix = Ok lagged' ->
  forall sizes a,
    over_splits lagtime data data_lagged (cut sizes (skipn a ix))
    = over_splits lagtime data' lagged' (cut sizes (skipn a (seq 0 (length ix)))).
Proof.
  intros Hd Hl.
  destruct (index_Ok_inv _ _ _ Hd) as [Hlen1 _].
  destruct (index_Ok_inv _ _ _ Hl) as [Hlen2 _].
  intros sizes. induction sizes as [| k ks IH]; intros a; cbn [cut over_splits].
  - reflexivity.
  - rewrite !length_take, !length_drop, length_seq.
    destruct (0 <? Nat.min k (length ix - a)); [| reflexivity].
    rewrite (make_block_reindex lagtime data data_lagged data' lagged' ix) by assumption.
    rewrite !drop_drop, IH. reflexivity.
Qed.

(** One finite trajectory, shuffled: the index array is shuffled once, with
    the random state given, and goes to the loop of the mode chosen. *)
Lemma split_one_shuffled (finite : F -> bool) rounds lagtime kw r d :
  forallb finite d = true -> stride kw <> 0%Z -> (0 <= lagtime)%Z ->
  shuffle kw = true ->
  split_one (chkfinite finite) rounds lagtime kw (Some r) d
  = let data := x_frames lagtime (stride kw) d in
    let data_lagged :=
      if (0 <? lagtime)%Z then strided (stride kw) (skipn (Z.to_nat lagtime) d) else data in
    let ix := fst (rs_shuffle (seq 0 (length data)) r) in
    let rs := Some (snd (rs_shuffle (seq 0 (length data)) r)) in
    match n_splits kw with
    | Some n =>
        if (n <? 1)%Z then Run [] (Raised (Exn AssertionError "")) rs
        else
          let '(bs, e) :=
            over_splits lagtime data data_lagged (array_split ix (Z.to_nat n)) in
          Run bs e rs
    | None =>
        let '(bs, e) :=
          over_chunks rounds lagtime (Z.to_nat (chunksize kw)) data data_lagged ix 0 in
        Run bs e rs
    end.
Proof.
  intros Hfin Hs Hlag Hsh. unfold split_one, chkfinite. rewrite Hfin, Hsh.
  rewrite step_slice_Ok by exact Hs.
  assert (Hx : (if (0 <? lagtime)%Z
                then step_slice (stride kw) (firstn (length d - Z.to_nat lagtime) d)
                else step_slice_from_0 (stride kw) d)
               = Ok (x_frames lagtime (stride kw) d)).
  { unfold x_frames. destruct (0 <? lagtime)%Z.
    - apply step_slice_Ok, Hs.
    - apply step_slice_from_0_Ok, Hs. }
  rewrite Hx. cbv zeta.
  destruct (x_frames_lagged_length lagtime (stride kw) d Hs Hlag) as [Hle _].
  destruct (rs_shuffle _ r) as [ix r']. cbn [fst snd].
  destruct (Z.ltb_spec 0 lagtime) as [Hpos | Hzero]; [reflexivity |].
  destruct (n_splits kw) as [n |].
  - destruct (n <? 1)%Z; [reflexivity |].
    rewrite (over_splits_unlagged lagtime _ _ (x_frames lagtime (stride kw) d))
      by exact Hzero.
    reflexivity.
  - rewrite (over_chunks_unlagged lagtime _ _ _ _ Hzero Hle). reflexivity.
Qed.

(** X19.  One finite trajectory with more than [lagtime] frames and
    [shuffle=True], in either mode ([n_splits >= 1], or [chunksize >= 1]
    with [len(d)] rounds), with a shuffle that permutes: the generator is
    exhausted; the index array is shuffled once, with the random state given
    or else a new one; the [x] of the blocks put end to end are the frames
    that go to [x] ([d[:-lagtime][::stride]], or [d[0::stride]] when
    [lagtime = 0]) taken at the shuffled indices, and for a positive
    [lagtime] the [x_lagged] are the strided lagged trajectory taken at the
    same indices.  So every such frame is yielded exactly once, next to its
    lagged frame. *)
Theorem shuffled_blocks_permute_the_trajectory (finite : F -> bool) (rounds : nat)
    (d : list F) (lagtime : Z) (kw : kwargs) :
  forallb finite d = true ->
  (0 <= lagtime < Z.of_nat (length d))%Z ->
  (0 <= chunksize kw)%Z ->
  stride kw <> 0%Z ->
  shuffle kw = true ->
  (forall ix r, fst (rs_shuffle ix r) ≡ₚ ix) ->
  match n_splits kw with
  | Some n => (1 <= n)%Z
  | None => (1 <= chunksize kw)%Z /\ length d <= rounds
  end ->
  let data := x_frames lagtime (stride kw) d in
  let data_lagged := strided (stride kw) (skipn (Z.to_nat lagtime) d) in
  let shuffled :=
    rs_shuffle (seq 0 (length data))
               (match random_state kw with Some r => r | None => rs_new end) in
  exists bs,
    split_list (chkfinite finite) rounds [d] lagtime kw
    = Run bs Exhausted (Some (snd shuffled))
    /\ index data (fst shuffled) = Ok (concat (map block_x bs))
    /\ ((0 < lagtime)%Z ->
        index data_lagged (fst shuffled) = Ok (concat (map block_lagged bs)))
    /\ concat (map block_x bs) ≡ₚ data
    /\ Forall (fun b => if (0 <? lagtime)%Z
                        then exists x y, b = Pair x y /\ length x = length y
                        else exists x, b = Single x) bs.
Proof.
  intros Hfin Hlag Hc Hs Hsh Hperm Hmode data data_lagged shuffled.
  rewrite split_list_checked by first [lia | constructor; [lia | constructor]].
  rewrite Hsh. cbn [over_inputs].
  assert (Hrs : match random_state kw with
                | Some r => Some r
                | None => Some rs_new
                end
                = Some (match random_state kw with Some r => r | None => rs_new end))
    by (destruct (random_state kw); reflexivity).
  rewrite Hrs. clear Hrs.
  rewrite split_one_shuffled by (try assumption; lia).
  cbv zeta. fold data shuffled.
  pose proof (x_frames_same_length lagtime (stride kw) d Hs ltac:(lia)) as Hlen.
  pose proof (x_frames_length_le lagtime (stride kw) d Hs) as Hled.
  fold data in Hlen, Hled.
  set (lagged := if (0 <? lagtime)%Z
                 then strided (stride kw) (skipn (Z.to_nat lagtime) d) else data) in *.
  pose proof (Hperm (seq 0 (length data))
                    (match random_state kw with Some r => r | None => rs_new end)) as Hp.
  fold shuffled in Hp.
  destruct (permutation_in_bounds _ _ Hp) as [Hixlen Hixin].
  destruct (index_total data (fst shuffled) Hixin) as (data' & Hd).
  destruct (index_total lagged (fst shuffled)) as (lagged' & Hl).
  { rewrite <- Hlen. exact Hixin. }
  destruct (index_Ok_inv _ _ _ Hd) as [Hlen1 _].
  destruct (index_Ok_inv _ _ _ Hl) as [Hlen2 _].
  assert (Hlen' : length data' = length lagged') by congruence.
  assert (Hfinal : forall bs,
             concat (map block_x bs) = data' ->
             concat (map block_lagged bs) = (if (0 <? lagtime)%Z then lagged' else []) ->
             index data (fst shuffled) = Ok (concat (map block_x bs))
             /\ ((0 < lagtime)%Z ->
                 index data_lagged (fst shuffled) = Ok (concat (map block_lagged bs)))
             /\ concat (map block_x bs) ≡ₚ data).
  { intros bs Hx Hy. rewrite Hx, Hy. split; [exact Hd | split].
    - intros Hpos. unfold lagged in Hl.
      destruct (Z.ltb_spec 0 lagtime); [exact Hl | lia].
    - eapply index_permutation; eassumption. }
  destruct (n_splits kw) as [n |].
  - destruct (Z.ltb_spec n 1) as [Hbad | _]; [lia |].
    assert (Hre : over_splits lagtime data lagged
                              (array_split (fst shuffled) (Z.to_nat n))
                  = over_splits lagtime data' lagged'
                                (array_split (seq 0 (length data')) (Z.to_nat n))).
    { unfold array_split. rewrite length_seq, Hlen1.
      pose proof (over_splits_reindex lagtime data lagged data' lagged'
                    (fst shuffled) Hd Hl) as E.
      specialize (E (repeat (Datatypes.S (length (fst shuffled) / Z.to_nat n))
                            (length (fst shuffled) mod Z.to_nat n)
                     ++ repeat (length (fst shuffled) / Z.to_nat n)
                               (Z.to_nat n - length (fst shuffled) mod Z.to_nat n)) 0).
      cbn [skipn] in E. exact E. }
    rewrite Hre.
    destruct (over_splits_array_split lagtime data' lagged' (Z.to_nat n) Hlen')
      as (bs & Hrun & _ & _ & Hx & Hy & Hkind); [lia |].
    rewrite Hrun. cbn [ended blocks random_state_after].
    exists bs. rewrite app_nil_r. split; [reflexivity |].
    destruct (Hfinal bs Hx Hy) as (H1 & H2 & H3). auto.
  - destruct Hmode as [Hc1 Hrounds].
    rewrite (over_chunks_reindex lagtime _ data lagged data' lagged' (fst shuffled)
               Hd Hl Hixlen Hlen).
    destruct (over_chunks_seq lagtime (Z.to_nat (chunksize kw)) data' lagged' Hlen')
      with (rounds := rounds) (t := 0)
      as (bs & Hrun & Hx & Hy & Hall & _); [lia | |].
    { rewrite Hlen1, Hixlen. lia. }
    rewrite Hrun. cbn [ended blocks random_state_after].
    exists bs. rewrite app_nil_r. split; [reflexivity |].
    cbn [skipn] in Hx, Hy.
    destruct (Hfinal bs Hx Hy) as (H1 & H2 & H3).
    split; [exact H1 | split; [exact H2 | split; [exact H3 |]]].
    eapply Forall_impl; [exact Hall |]. cbn. intros b [_ Hb]. exact Hb.
Qed.

End SplitShuffled.

Section SplitLateChecks.
Import TimeshiftedSplit.
Context {R : RandomState} {F : Type}.

Lemma over_inputs_first_raises (chk : list F -> res (list F)) rounds lagtime kw rs d rest e :
  blocks (split_one chk rounds lagtime kw rs d) = [] ->
  ended (split_one chk rounds lagtime kw rs d) = Raised e ->
  blocks (over_inputs chk rounds lagtime kw rs (d :: rest)) = []
  /\ ended (over_inputs chk rounds lagtime kw rs (d :: rest)) = Raised e.
Proof.
  intros Hb He. cbn [over_inputs]. cbv zeta. rewrite He. split; assumption.
Qed.

(** X20.  A zero [stride] and an [n_splits] below 1 are not among the
    checks of the arguments: for an empty list of trajectories the generator
    is exhausted without an error, and otherwise the error comes when the
    first trajectory is reached, [ValueError] of the slice for
    [stride = 0] and [AssertionError] for [n_splits < 1], before any
    block. *)
Theorem stride_and_n_splits_are_checked_late (finite : F -> bool) (rounds : nat)
    (lagtime : Z) (kw : kwargs) :
  (0 <= lagtime)%Z ->
  (0 <= chunksize kw)%Z ->
  (blocks (split_list (chkfinite finite) rounds [] lagtime kw) = []
   /\ ended (split_list (chkfinite finite) rounds [] lagtime kw) = Exhausted)
  /\ (forall d rest,
         Forall (fun d' => (lagtime < Z.of_nat (length d'))%Z) (d :: rest) ->
         forallb finite d = true ->
         (stride kw = 0%Z ->
          blocks (split_list (chkfinite finite) rounds (d :: rest) lagtime kw) = []
          /\ ended (split_list (chkfinite finite) rounds (d :: rest) lagtime kw)
             = Raised (Exn ValueError "slice step cannot be zero"))
         /\ (forall n,
                stride kw <> 0%Z -> n_splits kw = Some n -> (n < 1)%Z ->
                blocks (split_list (chkfinite finite) rounds (d :: rest) lagtime kw) = []
                /\ ended (split_list (chkfinite finite) rounds (d :: rest) lagtime kw)
                   = Raised (Exn AssertionError ""))).
Proof.
  intros Hlag Hc. split.
  - rewrite split_list_checked by first [assumption | constructor].
    split; reflexivity.
  - intros d rest Hall Hfin. split.
    + intros Hs. rewrite split_list_checked by assumption.
      apply over_inputs_first_raises;
        unfold split_one, chkfinite; rewrite Hfin, Hs, step_slice_zero; reflexivity.
    + intros n Hs Hn Hn1. rewrite split_list_checked by assumption.
      assert (Hone : forall rs,
                 (shuffle kw = true -> rs <> None) ->
                 blocks (split_one (chkfinite finite) rounds lagtime kw rs d) = []
                 /\ ended (split_one (chkfinite finite) rounds lagtime kw rs d)
                    = Raised (Exn AssertionError "")).
      { intros rs Hrs. unfold split_one, chkfinite. rewrite Hfin.
        rewrite step_slice_Ok by exact Hs.
        destruct (0 <? lagtime)%Z;
          [rewrite step_slice_Ok by exact Hs | rewrite step_slice_from_0_Ok by exact Hs];
          rewrite Hn; destruct (Z.ltb_spec n 1); try lia;
          destruct (shuffle kw); try (split; reflexivity);
          (destruct rs as [r |]; [| contradiction (Hrs eq_refl eq_refl)]);
          destruct (rs_shuffle _ r); split; reflexivity. }
      apply over_inputs_first_raises; apply Hone;
        intros Hsh; rewrite Hsh; destruct (random_state kw); discriminate.
Qed.

End SplitLateChecks.

(* ===================================================================== *)
(** * timeshifted_split: runs                                             *)
(* ===================================================================== *)

Section SplitRuns.
Import TimeshiftedSplit.
#[local] Existing Instance SplitInputs.reversing.

(** The two examples of the docstring. *)
Lemma docstring_chunksize :
  SplitInputs.split 7 (AsArray SplitInputs.data7) 1 (SplitInputs.kw_chunksize 4)
  = inl (Run [Pair [0; 1; 2; 3]%float [1; 2; 3; 4]%float; Pair [4; 5]%float [5; 6]%float]
             Exhausted None).
Proof. vm_compute. reflexivity. Qed.

Lemma docstring_n_splits :
  SplitInputs.split 0 (AsArray SplitInputs.data7) 1 (SplitInputs.kw_n_splits 2)
  = inl (Run [Pair [0; 1; 2]%float [1; 2; 3]%float; Pair [3; 4; 5]%float [4; 5; 6]%float]
             Exhausted None).
Proof. vm_compute. reflexivity. Qed.

Lemma timeshifted_pairs_are_shifted_witness :
  exists r,
    timeshifted_split PrimFloat.is_finite 7 (AsArray SplitInputs.data7) 2
                      SplitInputs.kw_shuffled = inl r
    /\ Forall (aligned_in 2 SplitInputs.data7) (blocks r).
Proof.
  exact (proj1 (proj2 (timeshifted_pairs_are_shifted PrimFloat.is_finite 7 2
                         SplitInputs.kw_shuffled eq_refl))
               SplitInputs.data7).
Defined.

Lemma split_rejects_arguments_first_witness :
  blocks (split_list (chkfinite PrimFloat.is_finite) 7
                     [SplitInputs.data7; SplitInputs.data3] 3 (SplitInputs.kw_chunksize 4))
  = []
  /\ ended (split_list (chkfinite PrimFloat.is_finite) 7
                       [SplitInputs.data7; SplitInputs.data3] 3 (SplitInputs.kw_chunksize 4))
     = Raised (Exn ValueError "Input contained to short (smaller than lagtime)").
Proof.
  apply (proj2 (proj2 (split_rejects_arguments_first (chkfinite PrimFloat.is_finite) 7
                         [SplitInputs.data7; SplitInputs.data3] 3
                         (SplitInputs.kw_chunksize 4)))).
  - lia.
  - cbn. lia.
  - constructor 2. constructor 1. cbn. lia.
Defined.

(** Without a lag, a negative stride leaves the first frame alone. *)
Lemma lagtime_zero_backwards :
  SplitInputs.split 7 (AsArray SplitInputs.data7) 0 (SplitInputs.kw_backwards None false)
  = inl (Run [Single [0]%float] Exhausted None)
  /\ SplitInputs.split 7 (AsArray SplitInputs.data7) 1 (SplitInputs.kw_backwards None false)
     = inl (Run [Pair [5; 4; 3; 2; 1; 0]%float [6; 5; 4; 3; 2; 1]%float] Exhausted None).
Proof. split; vm_compute; reflexivity. Qed.

Lemma chunks_cover_the_trajectory_witness :
  (exists bs,
      split_list (chkfinite PrimFloat.is_finite) 7 [SplitInputs.data7] 1
                 (SplitInputs.kw_chunksize 4)
      = Run bs Exhausted None
      /\ concat (map block_x bs) = [0; 1; 2; 3; 4; 5]%float
      /\ concat (map block_lagged bs) = [1; 2; 3; 4; 5; 6]%float)
  /\ (exists bs,
         split_list (chkfinite PrimFloat.is_finite) 7 [SplitInputs.data7] 0
                    (SplitInputs.kw_backwards None false)
         = Run bs Exhausted None
         /\ concat (map block_x bs) = [0]%float
         /\ concat (map block_lagged bs) = []).
Proof.
  split.
  - destruct (chunks_cover_the_trajectory PrimFloat.is_finite 7 SplitInputs.data7 1
                (SplitInputs.kw_chunksize 4))
      as (bs & Hrun & Hx & Hy & _).
    + reflexivity.
    + cbn. lia.
    + cbn. lia.
    + discriminate.
    + reflexivity.
    + reflexivity.
    + cbn. lia.
    + exists bs. split; [exact Hrun | split; [exact Hx | exact Hy]].
  - destruct (chunks_cover_the_trajectory PrimFloat.is_finite 7 SplitInputs.data7 0
                (SplitInputs.kw_backwards None false))
      as (bs & Hrun & Hx & Hy & _).
    + reflexivity.
    + cbn. lia.
    + cbn. lia.
    + discriminate.
    + reflexivity.
    + reflexivity.
    + cbn. lia.
    + exists bs. split; [exact Hrun | split; [exact Hx | exact Hy]].
Defined.

Lemma zero_chunksize_never_ends_witness :
  blocks (split_list (chkfinite PrimFloat.is_finite) 5
                     [SplitInputs.data7; SplitInputs.data3] 1 (SplitInputs.kw_chunksize 0))
  = [Pair [] []; Pair [] []; Pair [] []; Pair [] []; Pair [] []]
  /\ ended (split_list (chkfinite PrimFloat.is_finite) 5
                       [SplitInputs.data7; SplitInputs.data3] 1 (SplitInputs.kw_chunksize 0))
     = Running.
Proof.
  apply (zero_chunksize_never_ends PrimFloat.is_finite 5 SplitInputs.data7
           [SplitInputs.data3] 1 (SplitInputs.kw_chunksize 0)).
  - reflexivity.
  - lia.
  - repeat constructor.
  - reflexivity.
  - discriminate.
  - reflexivity.
Defined.

Lemma n_splits_cover_the_trajectory_witness :
  (exists bs,
      split_list (chkfinite PrimFloat.is_finite) 0 [SplitInputs.data7] 1
                 (SplitInputs.kw_n_splits 4)
      = Run bs Exhausted None
      /\ length bs = 4
      /\ map (fun b => length (block_x b)) bs = [2; 2; 1; 1]
      /\ concat (map block_x bs) = [0; 1; 2; 3; 4; 5]%float)
  /\ (exists bs,
         split_list (chkfinite PrimFloat.is_finite) 0 [SplitInputs.data7] 0
                    (SplitInputs.kw_backwards (Some 2%Z) false)
         = Run bs Exhausted None
         /\ length bs = 1
         /\ concat (map block_x bs) = [0]%float).
Proof.
  split.
  - destruct (n_splits_cover_the_trajectory PrimFloat.is_finite 0 SplitInputs.data7 1
                (SplitInputs.kw_n_splits 4) 4)
      as (bs & Hrun & Hnum & _ & Hx & _).
    + reflexivity.
    + cbn. lia.
    + cbn. lia.
    + discriminate.
    + reflexivity.
    + lia.
    + reflexivity.
    + exists bs. split; [exact Hrun |]. split; [exact Hnum |]. split; [| exact Hx].
      vm_compute in Hrun. injection Hrun as <-. reflexivity.
  - destruct (n_splits_cover_the_trajectory PrimFloat.is_finite 0 SplitInputs.data7 0
                (SplitInputs.kw_backwards (Some 2%Z) false) 2)
      as (bs & Hrun & Hnum & _ & Hx & _).
    + reflexivity.
    + cbn. lia.
    + cbn. lia.
    + discriminate.
    + reflexivity.
    + lia.
    + reflexivity.
    + exists bs. split; [exact Hrun | split; [exact Hnum | exact Hx]].
Defined.

Lemma trajectories_are_split_in_turn_witness :
  split_list (chkfinite PrimFloat.is_finite) 7 [SplitInputs.data7; SplitInputs.data3] 1
             (SplitInputs.kw_chunksize 4)
  = Run [Pair [0; 1; 2; 3]%float [1; 2; 3; 4]%float; Pair [4; 5]%float [5; 6]%float;
         Pair [7; 8]%float [8; 9]%float]
        Exhausted None.
Proof.
  rewrite (trajectories_are_split_in_turn (chkfinite PrimFloat.is_finite) 7
             SplitInputs.data7 [SplitInputs.data3] 1 (SplitInputs.kw_chunksize 4));
    [vm_compute; reflexivity | reflexivity | lia | cbn; lia | repeat constructor].
Defined.

Lemma nonfinite_trajectory_is_found_late_witness :
  split_list (chkfinite PrimFloat.is_finite) 7
             [SplitInputs.data7; SplitInputs.data_nan; SplitInputs.data3] 1
             (SplitInputs.kw_chunksize 4)
  = Run [Pair [0; 1; 2; 3]%float [1; 2; 3; 4]%float; Pair [4; 5]%float [5; 6]%float]
        (Raised (Exn ValueError "array must not contain infs or NaNs")) None.
Proof.
  rewrite (nonfinite_trajectory_is_found_late PrimFloat.is_finite 7
             SplitInputs.data7 SplitInputs.data_nan [SplitInputs.data3] 1
             (SplitInputs.kw_chunksize 4));
    [vm_compute; reflexivity | reflexivity | lia | cbn; lia | repeat constructor
     | vm_compute; reflexivity | vm_compute; reflexivity].
Defined.

Lemma reversing_permutes (ix : list nat) (r : nat) : fst (rs_shuffle ix r) ≡ₚ ix.
Proof. cbn. symmetry. apply Permutation_rev. Qed.

Lemma shuffled_blocks_permute_the_trajectory_witness :
  (exists bs,
      split_list (chkfinite PrimFloat.is_finite) 7 [SplitInputs.data7] 2
                 SplitInputs.kw_shuffled
      = Run bs Exhausted (Some 1)
      /\ concat (map block_x bs) ≡ₚ [4; 2; 0]%float)
  /\ (exists bs,
         split_list (chkfinite PrimFloat.is_finite) 7 [SplitInputs.data7] 0
                    (SplitInputs.kw_backwards None true)
         = Run bs Exhausted (Some 1)
         /\ concat (map block_x bs) ≡ₚ [0]%float).
Proof.
  split.
  - destruct (shuffled_blocks_permute_the_trajectory PrimFloat.is_finite 7
                SplitInputs.data7 2 SplitInputs.kw_shuffled)
      as (bs & Hrun & _ & _ & Hperm & _).
    + reflexivity.
    + cbn. lia.
    + cbn. lia.
    + discriminate.
    + reflexivity.
    + exact reversing_permutes.
    + cbn. lia.
    + exists bs. split; [exact Hrun | exact Hperm].
  - destruct (shuffled_blocks_permute_the_trajectory PrimFloat.is_finite 7
                SplitInputs.data7 0 (SplitInputs.kw_backwards None true))
      as (bs & Hrun & _ & _ & Hperm & _).
    + reflexivity.
    + cbn. lia.
    + cbn. lia.
    + discriminate.
    + reflexivity.
    + exact reversing_permutes.
    + cbn. lia.
    + exists bs. split; [exact Hrun | exact Hperm].
Defined.

Lemma stride_and_n_splits_are_checked_late_witness :
  blocks (split_list (chkfinite PrimFloat.is_finite) 7 [SplitInputs.data7; SplitInputs.data3]
                     1 (SplitInputs.kw_stride 0))
  = []
  /\ ended (split_list (chkfinite PrimFloat.is_finite) 7
                       [SplitInputs.data7; SplitInputs.data3] 1 (SplitInputs.kw_stride 0))
     = Raised (Exn ValueError "slice step cannot be zero").
Proof.
  apply (proj2 (stride_and_n_splits_are_checked_late PrimFloat.is_finite 7 1
                  (SplitInputs.kw_stride 0) ltac:(lia) ltac:(cbn; lia))
               SplitInputs.data7 [SplitInputs.data3]).
  - repeat constructor.
  - reflexivity.
  - reflexivity.
Defined.

End SplitRuns.

(* ===================================================================== *)
(** * TransitionMatrixSampler: edges and composition                    *)
(* ===================================================================== *)

Section TransitionMatrixSamplerEdges.
Import TransitionMatrixSampler.
Context {B : Backend}.

(** X8.  What the constructor refuses before it builds a back end, and what
    an object it returns holds.  A [prior] other than ['sparse'] raises the
    [ValueError] of the first statement.  With [prior='sparse'], a fixed
    stationary vector [mu] without [reversible=True] raises a [ValueError],
    and in the one case that reads [count_matrix.shape[0]] (reversible, no
    [mu], [n_steps=None]) a count matrix without a first axis raises an
    [IndexError].  So an object is returned only when none of the three
    holds.  It holds the count matrix as given and a number of steps; its
    back end is [SamplerNonRev] on the counts lowered by one when not
    reversible, [SamplerRev] on the counts as given when reversible without
    [mu], and [SamplerRevPi] with [mu]; [P0] goes to the reversible back
    ends. *)
Theorem init_refuses_or_builds (C : ndarray) (kw : init_kwargs) :
  (prior kw <> "sparse" ->
   __init__ C kw = Raise (Exn ValueError "Only Sparse prior is currently implemented"))
  /\ (prior kw = "sparse" -> reversible kw = false -> mu kw <> None ->
      __init__ C kw
      = Raise (Exn ValueError
                 "Non reversible sampling with fixed stationary vector not implemented"))
  /\ (prior kw = "sparse" -> reversible kw = true -> mu kw = None ->
      n_steps_arg kw = None -> shape C = [] ->
      __init__ C kw = Raise (Exn IndexError "tuple index out of range"))
  /\ (forall x, __init__ C kw = Ok x ->
        prior kw = "sparse"
        /\ (reversible kw = false -> mu kw = None)
        /\ (reversible kw = true -> mu kw = None -> n_steps_arg kw = None -> shape C <> [])
        /\ count_matrix x = C
        /\ n_steps x <> None
        /\ match sampler x with
           | SamplerNonRev C' => reversible kw = false /\ C' = sub_scalar C 1%float
           | SamplerRev C' P0' => reversible kw = true /\ mu kw = None /\ C' = C /\ P0' = P0 kw
           | SamplerRevPi C' mu' P0' =>
               reversible kw = true /\ mu kw = Some mu' /\ C' = C /\ P0' = P0 kw
           end).
Proof.
  unfold __init__.
  destruct (String.eqb_spec (prior kw) "sparse") as [Hp | Hp]; cbn [negb].
  2:{ repeat split; intros; congruence. }
  split; [intros Hp'; contradiction |].
  destruct (reversible kw), (mu kw) as [v |], (n_steps_arg kw) as [k |];
    unfold shape0; try destruct (shape C) as [| n sh] eqn:Hsh;
    (split; [| split]);
    try (intros; congruence);
    try (intros x Hx; discriminate Hx);
    try (intros x Hx; injection Hx as <-; cbn; repeat split; intros; congruence).
Qed.



(** X9.  For [nsamples < 1], [sample] draws nothing and calls no callback:
    the state of the back end and the record of events are as before.
    [nsamples = 0] returns empty stacks, a negative [nsamples] raises the
    [ValueError] of [np.zeros], and a count matrix without a first axis
    raises [IndexError] before either. *)
Theorem sample_below_one_draws_nothing (self : t) (nsamples : Z) (return_statdist : bool)
    (call_back : option callback) (w : world) :
  (nsamples < 1)%Z ->
  sample self nsamples return_statdist call_back w
  = (match shape0 (count_matrix self) with
     | Raise e => Raise e
     | Ok _ =>
         if (nsamples <? 0)%Z
         then Raise (Exn ValueError "negative dimensions are not allowed")
         else Ok (if return_statdist then StackPair [] [] else Stack [])
     end, w).
Proof.
  intros Hn. unfold sample.
  destruct (Z.eqb_spec nsamples 1) as [-> | _]; [lia |].
  unfold bind at 1. unfold lift at 1.
  destruct (shape0 (count_matrix self)) as [n | e]; [| reflexivity].
  unfold bind at 1. unfold lift at 1. unfold zeros_stack.
  destruct (Z.ltb_spec nsamples 0) as [Hneg | Hpos]; [reflexivity |].
  assert (nsamples = 0%Z) as -> by lia.
  destruct return_statdist; reflexivity.
Qed.









End TransitionMatrixSamplerEdges.

(* ===================================================================== *)
(** * BayesianHMMSampler: the arguments of the constructor              *)
(* ===================================================================== *)

Section BayesianHMMSamplerArguments.
Import BayesianHMMSampler.
Context {X : Collaborators}.

Lemma vector_shape_test (a : ndarray) n :
  (ndim a =? 1) && (nth 0 (shape a) 0 =? n) = true <-> shape a = [n].
Proof.
  unfold ndim. destruct (shape a) as [| k [| k' sh]]; cbn.
  - split; discriminate.
  - rewrite Nat.eqb_eq. split; [intros -> | intros H]; congruence.
  - split; discriminate.
Qed.

Lemma eq_str_true p s : eq_str p s = true <-> p = PStr s.
Proof.
  destruct p as [| s' | a | f]; cbn; try (split; discriminate).
  rewrite String.eqb_eq. split; [intros -> | intros H]; congruence.
Qed.

Lemma init_prior_n0_no_model nstates kw (h : list (HMM OM)) :
  (exists v, init_prior_n0 nstates kw None h = (Ok v, h))
  <-> (p0_prior kw = PNone \/ p0_prior kw = PStr "sparse" \/ p0_prior kw = PStr "mixed"
       \/ p0_prior kw = PStr "uniform"
       \/ exists a, p0_prior kw = PArray a /\ shape a = [nstates]).
Proof.
  unfold init_prior_n0.
  destruct (p0_prior kw) as [| s | a | f] eqn:Hp; cbn [is_None orb].
  - split; [intros _; left; reflexivity | intros _; eexists; reflexivity].
  - destruct (eq_str (PStr s) "sparse") eqn:E1.
    { apply eq_str_true in E1.
      split; [intros _; right; left; exact E1 | intros _; eexists; reflexivity]. }
    destruct (eq_str (PStr s) "mixed") eqn:E2.
    { apply eq_str_true in E2.
      split; [intros _; right; right; left; exact E2 |].
      intros _. destruct (initial_model_arg kw); eexists; reflexivity. }
    destruct (eq_str (PStr s) "uniform") eqn:E3.
    { apply eq_str_true in E3.
      split; [intros _; right; right; right; left; exact E3 | intros _; eexists; reflexivity]. }
    split; [intros [v Hv]; discriminate Hv |].
    intros [H | [H | [H | [H | (a & H & _)]]]]; try discriminate H;
      apply eq_str_true in H; congruence.
  - destruct ((ndim a =? 1) && (nth 0 (shape a) 0 =? nstates)) eqn:E.
    + apply vector_shape_test in E.
      split; [| intros _; eexists; reflexivity].
      intros _. right; right; right; right. exists a. auto.
    + split; [intros [v Hv]; discriminate Hv |].
      intros [H | [H | [H | [H | (a' & H & Hsh)]]]]; try discriminate H.
      injection H as <-. apply vector_shape_test in Hsh. congruence.
  - split; [intros [v Hv]; discriminate Hv |].
    intros [H | [H | [H | [H | (a' & H & Hsh)]]]]; discriminate H.
Qed.

Lemma init_prior_C_no_model nstates kw (h : list (HMM OM)) :
  (exists v, init_prior_C nstates kw None h = (Ok v, h))
  <-> (transition_matrix_prior kw = PNone \/ p0_prior kw = PStr "sparse"
       \/ (exists a, transition_matrix_prior kw = PArray a)
       \/ transition_matrix_prior kw = PStr "mixed" \/ p0_prior kw = PStr "uniform").
Proof.
  unfold init_prior_C.
  destruct (eq_str (p0_prior kw) "sparse") eqn:E0.
  { rewrite orb_true_r. apply eq_str_true in E0.
    split; [intros _; right; left; exact E0 | intros _; eexists; reflexivity]. }
  rewrite orb_false_r.
  assert (Hns : p0_prior kw <> PStr "sparse").
  { intros H. apply eq_str_true in H. congruence. }
  destruct (transition_matrix_prior kw) as [| s | a | f] eqn:Hp; cbn [is_None].
  - split; [intros _; left; reflexivity | intros _; eexists; reflexivity].
  - destruct (eq_str (PStr s) "mixed") eqn:E2.
    { apply eq_str_true in E2.
      split; [intros _; right; right; right; left; exact E2 |].
      intros _. destruct (initial_model_arg kw); eexists; reflexivity. }
    destruct (eq_str (p0_prior kw) "uniform") eqn:E3.
    { apply eq_str_true in E3.
      split; [intros _; right; right; right; right; exact E3 | intros _; eexists; reflexivity]. }
    split; [intros [v Hv]; discriminate Hv |].
    intros [H | [H | [(a & H) | [H | H]]]]; try discriminate H; try contradiction;
      apply eq_str_true in H; congruence.
  - split; [| intros _; destruct (shape_eqb _ _); eexists; reflexivity].
    intros _. right; right; left. exists a. reflexivity.
  - cbn [eq_str].
    destruct (eq_str (p0_prior kw) "uniform") eqn:E3.
    { apply eq_str_true in E3.
      split; [intros _; right; right; right; right; exact E3 | intros _; eexists; reflexivity]. }
    split; [intros [v Hv]; discriminate Hv |].
    intros [H | [H | [(a & H) | [H | H]]]]; try discriminate H; try contradiction.
    apply eq_str_true in H; congruence.
Qed.

(** X12.  Without an initial model, the constructor returns a sampler (and
    leaves the store alone) exactly when [p0_prior] is [None], ['sparse'],
    ['mixed'], ['uniform'] or an array of shape [(nstates,)], and
    [transition_matrix_prior] is [None], an array (of any shape) or
    ['mixed'], or else [p0_prior] is ['sparse'] or ['uniform'], with which
    any [transition_matrix_prior] passes. *)
Theorem init_accepts_known_priors (nstates : nat) (kw : init_kwargs) (h : list (HMM OM)) :
  initial_model_arg kw = None ->
  (exists x, __init__ nstates kw h = (Ok x, h))
  <-> (p0_prior kw = PNone \/ p0_prior kw = PStr "sparse" \/ p0_prior kw = PStr "mixed"
       \/ p0_prior kw = PStr "uniform"
       \/ exists a, p0_prior kw = PArray a /\ shape a = [nstates])
      /\ (transition_matrix_prior kw = PNone \/ p0_prior kw = PStr "sparse"
          \/ (exists a, transition_matrix_prior kw = PArray a)
          \/ transition_matrix_prior kw = PStr "mixed" \/ p0_prior kw = PStr "uniform").
Proof.
  intros Hno.
  rewrite <- (init_prior_n0_no_model nstates kw h), <- (init_prior_C_no_model nstates kw h).
  unfold __init__. rewrite Hno.
  rewrite (bind_Ok_eq _ _ _ None h) by reflexivity.
  pose proof (init_prior_n0_store nstates kw None h) as Hst0.
  pose proof (init_prior_C_store nstates kw None h) as HstC.
  destruct (init_prior_n0 nstates kw None h) as [[n0 | e] h1] eqn:Hn0; cbn in Hst0; subst h1.
  - rewrite (bind_Ok_eq _ _ _ _ _ Hn0).
    destruct (init_prior_C nstates kw None h) as [[pc | e] h1] eqn:HC; cbn in HstC; subst h1.
    + rewrite (bind_Ok_eq _ _ _ _ _ HC).
      assert (Hcheck : init_check (reversible_arg kw) None pc h = (Ok tt, h)).
      { unfold init_check. destruct (reversible_arg kw); reflexivity. }
      rewrite (bind_Ok_eq _ _ _ _ _ Hcheck).
      split; [intros _; split; eexists; reflexivity | intros _; eexists; reflexivity].
    + rewrite (bind_Raise_eq _ _ _ _ _ HC).
      split; [intros [x Hx]; discriminate Hx | intros [_ [v Hv]]; discriminate Hv].
  - rewrite (bind_Raise_eq _ _ _ _ _ Hn0).
    split; [intros [x Hx]; discriminate Hx | intros [[v Hv] _]; discriminate Hv].
Qed.

(** X13.  Given an initial model, the constructor appends one object to the
    store, a copy of that model, whatever its outcome, and changes no
    object.  The sampler it returns refers to the copy, its posterior is
    empty, and in ['mixed'] mode its prior vector and prior count matrix are
    the initial distribution and the transition matrix of the model. *)
Theorem init_copies_the_initial_model (nstates : nat) (kw : init_kwargs)
    (h : list (HMM OM)) (l0 : loc) (m : HMM OM) :
  initial_model_arg kw = Some l0 ->
  h !! l0 = Some m ->
  (forall r h', __init__ nstates kw h = (r, h') -> h' = h ++ [m])
  /\ (forall x h',
         __init__ nstates kw h = (Ok x, h') ->
         initial_model x = Some (length h)
         /\ h' !! length h = Some m
         /\ (forall l, l < length h -> h' !! l = h !! l)
         /\ (p0_prior kw = PStr "mixed" -> prior_n0 x = Some (initial_distribution m))
         /\ (transition_matrix_prior kw = PStr "mixed" -> p0_prior kw <> PStr "sparse" ->
             prior_C x = Val (Some (transition_matrix m)))
         /\ _model x = MkPosterior None None).
Proof.
  intros Harg Hl0.
  assert (Hnew : (h ++ [m]) !! length h = Some m).
  { rewrite lookup_app_r by lia. rewrite Nat.sub_diag. reflexivity. }
  assert (Hcopy : bind (copy l0) (fun l' => ret (Some l')) h
                  = (Ok (Some (length h)), h ++ [m])).
  { unfold copy, bind, deref, alloc, ret. rewrite Hl0. reflexivity. }
  assert (Hcheck : forall rv li pc, snd (init_check rv li pc (h ++ [m])) = h ++ [m]).
  { intros rv li pc. unfold init_check. destruct rv; [| reflexivity].
    destruct li as [l |]; [| reflexivity].
    unfold bind, deref, getattr, lift, ret, raise.
    destruct ((h ++ [m]) !! l); [| reflexivity].
    destruct pc as [| pc]; [reflexivity |].
    destruct (add_opt _ _ _); [| reflexivity].
    destruct (negb _); reflexivity. }
  unfold __init__. rewrite Harg.
  rewrite (bind_Ok_eq _ _ _ _ _ Hcopy).
  pose proof (init_prior_n0_store nstates kw (Some (length h)) (h ++ [m])) as Hst0.
  pose proof (init_prior_C_store nstates kw (Some (length h)) (h ++ [m])) as HstC.
  destruct (init_prior_n0 nstates kw (Some (length h)) (h ++ [m])) as [[n0 | e] h1] eqn:Hn0;
    cbn in Hst0; subst h1.
  2:{ rewrite (bind_Raise_eq _ _ _ _ _ Hn0).
      split; [intros r h' H; injection H as _ <-; reflexivity | intros x h' H; discriminate H]. }
  rewrite (bind_Ok_eq _ _ _ _ _ Hn0).
  destruct (init_prior_C nstates kw (Some (length h)) (h ++ [m])) as [[pc | e] h1] eqn:HC;
    cbn in HstC; subst h1.
  2:{ rewrite (bind_Raise_eq _ _ _ _ _ HC).
      split; [intros r h' H; injection H as _ <-; reflexivity | intros x h' H; discriminate H]. }
  rewrite (bind_Ok_eq _ _ _ _ _ HC).
  specialize (Hcheck (reversible_arg kw) (Some (length h)) pc).
  destruct (init_check (reversible_arg kw) (Some (length h)) pc (h ++ [m]))
    as [[[] | e] h1] eqn:Hck; cbn in Hcheck; subst h1.
  2:{ rewrite (bind_Raise_eq _ _ _ _ _ Hck).
      split; [intros r h' H; injection H as _ <-; reflexivity | intros x h' H; discriminate H]. }
  rewrite (bind_Ok_eq _ _ _ _ _ Hck).
  split; [intros r h' H; injection H as _ <-; reflexivity |].
  intros x h' H. injection H as <- <-. cbn.
  split; [reflexivity | split; [exact Hnew | split; [| split; [| split; [| reflexivity]]]]].
  - intros l Hl. apply lookup_app_l. exact Hl.
  - intros Hp. unfold init_prior_n0 in Hn0. rewrite Hp, Harg in Hn0. simpl in Hn0.
    unfold bind, deref, loc in Hn0. cbv beta in Hn0. rewrite Hnew in Hn0.
    injection Hn0 as <-. reflexivity.
  - intros Hp Hns. unfold init_prior_C in HC.
    destruct (eq_str (p0_prior kw) "sparse") eqn:E0.
    { apply eq_str_true in E0. contradiction. }
    rewrite Hp, Harg in HC. simpl in HC.
    unfold bind, deref, loc in HC. cbv beta in HC. rewrite Hnew in HC.
    injection HC as <-. reflexivity.
Qed.

End BayesianHMMSamplerArguments.

(* ===================================================================== *)
(** * Computations that may raise                                       *)
(* ===================================================================== *)

Section MonadOutcomes.
Context {S : Type}.

Lemma bind_inv {A A'} (m : M S A) (k : A -> M S A') s r s' :
  bind m k s = (r, s') ->
  (exists a s1, m s = (Ok a, s1) /\ k a s1 = (r, s'))
  \/ (exists e, m s = (Raise e, s') /\ r = Raise e).
Proof.
  unfold bind. destruct (m s) as [[a | e] s1]; intros H.
  - left. exists a, s1. split; [reflexivity | exact H].
  - right. injection H as <- <-. exists e. split; reflexivity.
Qed.

Context (R : S -> S -> Prop) (R_refl : forall s, R s s)
        (R_trans : forall s1 s2 s3, R s1 s2 -> R s2 s3 -> R s1 s3).

Lemma always_ret {A} (a : A) : always R (ret a).
Proof. intros s r s' H. injection H as _ <-. apply R_refl. Qed.

Lemma always_raise {A} e : always R (@raise S A e).
Proof. intros s r s' H. injection H as _ <-. apply R_refl. Qed.

Lemma always_lift {A} (r : res A) : always R (lift r).
Proof. intros s r' s' H. injection H as _ <-. apply R_refl. Qed.

Lemma always_gets {A} (f : S -> A) : always R (gets f).
Proof. intros s r s' H. injection H as _ <-. apply R_refl. Qed.

Lemma always_getattr {A} name (x : attr A) : always R (getattr name x).
Proof. destruct x; [apply always_raise | apply always_ret]. Qed.

Lemma always_bind {A A'} (m : M S A) (k : A -> M S A') :
  always R m -> (forall a, always R (k a)) -> always R (bind m k).
Proof.
  intros Hm Hk s r s' H.
  apply bind_inv in H as [(a & s1 & H1 & H2) | (e & H1 & _)].
  - eapply R_trans; [eapply Hm | eapply Hk]; eassumption.
  - eapply Hm, H1.
Qed.

Lemma always_for_from (body : nat -> M S unit) :
  (forall i, always R (body i)) ->
  forall n i, always R (for_from i n body).
Proof.
  intros Hb n. induction n as [| n IH]; intros i; cbn.
  - apply always_ret.
  - apply always_bind; [apply Hb | intros _; apply IH].
Qed.

Lemma always_for_range (body : nat -> M S unit) n :
  (forall i, always R (body i)) -> always R (for_range n body).
Proof. intros Hb. apply always_for_from, Hb. Qed.

Lemma always_fold_from {A} (body : nat -> A -> M S A) :
  (forall i a, always R (body i a)) ->
  forall n i a, always R (fold_from i n body a).
Proof.
  intros Hb n. induction n as [| n IH]; intros i a; cbn.
  - apply always_ret.
  - apply always_bind; [apply Hb | intros a'; apply IH].
Qed.

Lemma always_comprehension {A A'} (f : A -> M S A') xs :
  (forall x, always R (f x)) -> always R (comprehension f xs).
Proof.
  intros Hf. induction xs as [| x xs IH]; cbn.
  - apply always_ret.
  - apply always_bind; [apply Hf | intros y].
    apply always_bind; [apply IH | intros ys; apply always_ret].
Qed.

End MonadOutcomes.

Section BayesianHMMSamplerOutcomes.
Import BayesianHMMSampler.
Context {X : Collaborators}.

Lemma on_heap_inv {A} (f : M (list (HMM OM)) A) (s s' : state) r :
  on_heap f s = (r, s') ->
  exists h', f (heap s) = (r, h') /\ s' = MkState (self s) h' (ext s).
Proof.
  unfold on_heap. destruct (f (heap s)) as [r' h'].
  intros H. injection H as -> <-. exists h'. split; reflexivity.
Qed.

Lemma on_ext_inv {A} (f : W -> res A * W) (s s' : state) r :
  on_ext f s = (r, s') ->
  exists x', f (ext s) = (r, x') /\ s' = MkState (self s) (heap s) x'.
Proof.
  unfold on_ext. destruct (f (ext s)) as [r' x'].
  intros H. injection H as -> <-. exists x'. split; reflexivity.
Qed.

Lemma deref_inv (l : loc) (h h' : list (HMM OM)) r :
  deref l h = (r, h') -> h' = h.
Proof. unfold deref. destruct (h !! l); intros H; injection H as _ <-; reflexivity. Qed.

Lemma copy_inv (l : loc) (h h' : list (HMM OM)) r :
  copy l h = (r, h') ->
  (exists m, h !! l = Some m /\ r = Ok (length h) /\ h' = h ++ [m])
  \/ (exists e, r = Raise e /\ h' = h).
Proof.
  unfold copy, bind, deref, alloc. destruct (h !! l) as [m |]; intros H.
  - left. injection H as <- <-. exists m. auto.
  - right. injection H as <- <-. eexists. auto.
Qed.

Lemma sweeps_refl l (s : state) : sweeps l s s.
Proof. split; [apply frame_refl | auto]. Qed.

Lemma sweeps_trans l (s1 s2 s3 : state) : sweeps l s1 s2 -> sweeps l s2 s3 -> sweeps l s1 s3.
Proof.
  intros [Hf1 Hb1] [Hf2 Hb2]. split; [eapply frame_trans; eassumption | auto].
Qed.

(** A step that leaves the sampler object alone and the store as it is, but
    for more objects at its end and the object at [l]. *)
Lemma sweeps_store l (s : state) (h' : list (HMM OM)) x' :
  length (heap s) <= length h' ->
  (forall l', l' < length (heap s) -> l' <> l -> h' !! l' = heap s !! l') ->
  sweeps l s (MkState (self s) h' x').
Proof.
  intros Hlen Hobj. split; [| auto].
  split; [exact Hlen | split; [exact Hobj | reflexivity]].
Qed.

Lemma always_sweeps_deref l l' : always (sweeps l) (on_heap (deref l')).
Proof.
  intros s r s' H. apply on_heap_inv in H as (h' & H & ->).
  apply deref_inv in H as ->. apply sweeps_store; [lia | reflexivity].
Qed.

Lemma always_sweeps_store l m : always (sweeps l) (on_heap (store l m)).
Proof.
  intros s r s' H. apply on_heap_inv in H as (h' & H & ->).
  unfold store, modify in H. injection H as _ <-.
  apply sweeps_store; [rewrite length_insert; lia |].
  intros l' _ Hne. apply list_lookup_insert_ne. congruence.
Qed.

Lemma always_sweeps_alloc l m : always (sweeps l) (on_heap (alloc m)).
Proof.
  intros s r s' H. apply on_heap_inv in H as (h' & H & ->).
  unfold alloc in H. injection H as _ <-.
  apply sweeps_store; [rewrite length_app; lia |].
  intros l' Hl' _. apply lookup_app_l. exact Hl'.
Qed.

Lemma always_sweeps_on_ext l {A} (f : W -> res A * W) : always (sweeps l) (on_ext f).
Proof.
  intros s r s' H. apply on_ext_inv in H as (x' & _ & ->).
  apply sweeps_store; [lia | reflexivity].
Qed.

Lemma always_sweeps_set_alpha l v : always (sweeps l) (set_self (with__alpha (Val v))).
Proof.
  intros s r s' H. unfold set_self, modify in H. injection H as _ <-.
  split; [split; [cbn [heap self ext]; lia | split; reflexivity] |].
  intros [_ Hp]. split; [discriminate | exact Hp].
Qed.

Lemma always_sweeps_set_pobs l v : always (sweeps l) (set_self (with__pobs (Val v))).
Proof.
  intros s r s' H. unfold set_self, modify in H. injection H as _ <-.
  split; [split; [cbn [heap self ext]; lia | split; reflexivity] |].
  intros [Ha _]. split; [exact Ha | discriminate].
Qed.

End BayesianHMMSamplerOutcomes.

(** Walks a computation made of the steps above, whatever its outcome. *)
Ltac sweeps_steps l :=
  repeat
    (cbv beta zeta;
     lazymatch goal with
     | |- always _ (bind _ _) =>
         apply (always_bind _ (sweeps_trans l)); [| intros ?]
     | |- always _ (ret _) => apply (always_ret _ (sweeps_refl l))
     | |- always _ (raise _) => apply (always_raise _ (sweeps_refl l))
     | |- always _ (lift _) => apply (always_lift _ (sweeps_refl l))
     | |- always _ (gets _) => apply (always_gets _ (sweeps_refl l))
     | |- always _ (getattr _ _) => apply (always_getattr _ (sweeps_refl l))
     | |- always _ (BayesianHMMSampler.on_heap (BayesianHMMSampler.deref _)) =>
         apply always_sweeps_deref
     | |- always _ (BayesianHMMSampler.on_heap (BayesianHMMSampler.store _ _)) =>
         apply always_sweeps_store
     | |- always _ (BayesianHMMSampler.on_heap (BayesianHMMSampler.alloc _)) =>
         apply always_sweeps_alloc
     | |- always _ (BayesianHMMSampler.on_ext _) => apply always_sweeps_on_ext
     | |- always _ (BayesianHMMSampler.set_self (BayesianHMMSampler.with__alpha _)) =>
         apply always_sweeps_set_alpha
     | |- always _ (BayesianHMMSampler.set_self (BayesianHMMSampler.with__pobs _)) =>
         apply always_sweeps_set_pobs
     | |- always _ (comprehension _ _) =>
         apply (always_comprehension _ (sweeps_refl l) (sweeps_trans l)); intros ?
     | |- always _ (if ?b then _ else _) => destruct b
     | |- always _ (match ?x with _ => _ end) => destruct x
     end).

(** Opens the next step of a computation, whatever its outcome: the step
    returned and the computation went on, or the step raised. *)
Ltac outcome H a t Ht :=
  let e := fresh "e" in
  apply bind_inv in H as [(a & t & Ht & H) | (e & Ht & ->)].

Section BayesianHMMSamplerSweepOutcomes.
Import BayesianHMMSampler.
Context {X : Collaborators}.

Lemma always_sweeps_sample_path l obs :
  always (sweeps l) (_sample_hidden_state_trajectory l obs).
Proof. unfold _sample_hidden_state_trajectory. sweeps_steps l. Qed.

Lemma always_sweeps_trajectories l observations :
  always (sweeps l) (_update_hidden_state_trajectories l observations).
Proof.
  unfold _update_hidden_state_trajectories. sweeps_steps l.
  apply always_sweeps_sample_path.
Qed.

Lemma always_sweeps_emissions l observations :
  always (sweeps l) (_update_emission_probabilities l observations).
Proof. unfold _update_emission_probabilities. sweeps_steps l. Qed.

Lemma always_sweeps_transition_matrix l :
  always (sweeps l) (_update_transition_matrix l).
Proof. unfold _update_transition_matrix. sweeps_steps l. Qed.

Lemma always_sweeps_update l observations :
  always (sweeps l) (_update l observations).
Proof.
  unfold _update. sweeps_steps l.
  - apply always_sweeps_trajectories.
  - apply always_sweeps_emissions.
  - apply always_sweeps_transition_matrix.
Qed.

Lemma always_sweeps_rounds l observations n :
  always (sweeps l) (for_range n (fun _ => _update l observations)).
Proof.
  apply (always_for_range _ (sweeps_refl l) (sweeps_trans l)).
  intros _. apply always_sweeps_update.
Qed.

(** After a relation [sweeps l] from [s] to [s1], a state with the sampler
    object of [s1] and its store, but for more objects at the end. *)
Lemma sweeps_extend l (s s1 s' : state) :
  sweeps l s s1 ->
  self s' = self s1 ->
  length (heap s1) <= length (heap s') ->
  (forall l', l' < length (heap s1) -> heap s' !! l' = heap s1 !! l') ->
  sweeps l s s'.
Proof.
  intros [(Hlen & Hobj & Hself) Hbuf] Hs Hl Ho. split.
  - split; [lia | split].
    + intros l' Hl' Hne. rewrite Ho by lia. apply Hobj; assumption.
    + rewrite Hs. exact Hself.
  - rewrite Hs. exact Hbuf.
Qed.

Lemma invoke_inv call_back (s s' : state) r :
  invoke call_back s = (r, s') -> self s' = self s /\ heap s' = heap s.
Proof.
  destruct call_back as [cb |]; cbn; intros H.
  - apply on_ext_inv in H as (x' & _ & ->). split; reflexivity.
  - injection H as _ <-. split; reflexivity.
Qed.

(** One round of the collection loop, whatever its outcome. *)
Lemma always_sweeps_collect lsm observations kw models :
  always (sweeps lsm) (collect lsm observations kw models).
Proof.
  intros s r s' H. unfold collect in H.
  outcome H u1 s1 H1; apply always_sweeps_rounds in H1 as Hf1; [| exact Hf1].
  outcome H model_copy s2 H2; apply on_heap_inv in H2 as (h2 & Hc & ->);
    apply copy_inv in Hc as [(m0 & Hm0 & Hr & ->) | (e' & Hr & ->)]; try discriminate Hr.
  2:{ eapply sweeps_extend; [exact Hf1 | reflexivity | cbn; lia | reflexivity]. }
  injection Hr as ->.
  assert (Hs3 : forall r3 s3,
             (if negb (save_hidden_state_trajectory kw)
              then m <- on_heap (deref (length (heap s1))) ;;
                   on_heap (store (length (heap s1))
                                  (with_hidden_state_trajectory (Val None) m))
              else ret tt) (MkState (self s1) (heap s1 ++ [m0]) (ext s1)) = (r3, s3) ->
             self s3 = self s1
             /\ length (heap s1) <= length (heap s3)
             /\ (forall l', l' < length (heap s1) -> heap s3 !! l' = heap s1 !! l')).
  { intros r3 s3 H3. destruct (negb (save_hidden_state_trajectory kw)).
    - outcome H3 m s3' G; apply on_heap_inv in G as (h' & Hd & ->);
        apply deref_inv in Hd as ->; cbn [self heap ext] in *.
      + apply on_heap_inv in H3 as (h' & Hst & ->). cbn [self heap ext] in *.
        unfold store, modify in Hst. injection Hst as _ <-.
        split; [reflexivity | split; [rewrite length_insert, length_app; lia |]].
        intros l' Hl'. rewrite list_lookup_insert_ne by lia.
        apply lookup_app_l. exact Hl'.
      + split; [reflexivity | split; [rewrite length_app; lia |]].
        intros l' Hl'. apply lookup_app_l. exact Hl'.
    - injection H3 as _ <-. cbn [self heap ext].
      split; [reflexivity | split; [rewrite length_app; lia |]].
      intros l' Hl'. apply lookup_app_l. exact Hl'. }
  outcome H u3 s3 H3; apply Hs3 in H3 as (Hself3 & Hlen3 & Hobj3).
  2:{ eapply sweeps_extend; eassumption. }
  outcome H u4 s4 H4; apply invoke_inv in H4 as [Hself4 Hheap4].
  2:{ eapply sweeps_extend; [exact Hf1 | congruence | rewrite Hheap4; exact Hlen3 |].
      rewrite Hheap4. exact Hobj3. }
  injection H as _ <-.
  eapply sweeps_extend; [exact Hf1 | congruence | rewrite Hheap4; exact Hlen3 |].
  rewrite Hheap4. exact Hobj3.
Qed.

Lemma always_sweeps_collection lsm observations kw n :
  always (sweeps lsm)
         (fold_range n (fun _ models => collect lsm observations kw models) []).
Proof.
  apply (always_fold_from _ (sweeps_refl lsm) (sweeps_trans lsm)).
  intros _ models. apply always_sweeps_collect.
Qed.

End BayesianHMMSamplerSweepOutcomes.

Ltac keeps_steps n krefl ktrans :=
  repeat
    (cbv beta zeta;
     lazymatch goal with
     | |- always _ (bind _ _) => apply (always_bind _ (ktrans n)); [| intros ?]
     | |- always _ (ret _) => apply (always_ret _ (krefl n))
     | |- always _ (raise _) => apply (always_raise _ (krefl n))
     | |- always _ (lift _) => apply (always_lift _ (krefl n))
     | |- always _ (gets _) => apply (always_gets _ (krefl n))
     | |- always _ (getattr _ _) => apply (always_getattr _ (krefl n))
     | |- always _ (if ?b then _ else _) => destruct b
     | |- always _ (match ?x with _ => _ end) => destruct x
     end).

Section BayesianHMMSamplerFitOutcomes.
Import BayesianHMMSampler.
Context {X : Collaborators}.

Lemma keeps_refl n (s : state) : keeps n s s.
Proof. intros Hn. split; [exact Hn | split; reflexivity]. Qed.

Lemma keeps_trans n (s1 s2 s3 : state) : keeps n s1 s2 -> keeps n s2 s3 -> keeps n s1 s3.
Proof.
  intros H1 H2 Hn. destruct (H1 Hn) as (Hn2 & Hobj1 & Hmod1).
  destruct (H2 Hn2) as (Hn3 & Hobj2 & Hmod2).
  split; [exact Hn3 | split].
  - intros l Hl. rewrite Hobj2 by exact Hl. apply Hobj1, Hl.
  - congruence.
Qed.

Lemma sweeps_keeps n l (s s' : state) : n <= l -> sweeps l s s' -> keeps n s s'.
Proof.
  intros Hnl [(Hlen & Hobj & Hself) _] Hn. split; [lia | split].
  - intros l' Hl'. apply Hobj; lia.
  - exact (f_equal _model Hself).
Qed.

(** A step that appends objects to the store and keeps the posterior. *)
Lemma keeps_grow n (s s' : state) tl :
  heap s' = heap s ++ tl -> _model (self s') = _model (self s) -> keeps n s s'.
Proof.
  intros Hh Hm Hn. rewrite Hh. split; [rewrite length_app; lia | split; [| exact Hm]].
  intros l Hl. apply lookup_app_l. lia.
Qed.

Lemma always_keeps_on_ext n {A} (f : W -> res A * W) : always (keeps n) (on_ext f).
Proof.
  intros s r s' H. apply on_ext_inv in H as (x' & _ & ->).
  apply (keeps_grow n _ _ []); [cbn; rewrite app_nil_r |]; reflexivity.
Qed.

Lemma always_keeps_deref n l : always (keeps n) (on_heap (deref l)).
Proof.
  intros s r s' H. apply on_heap_inv in H as (h' & H & ->). apply deref_inv in H as ->.
  apply (keeps_grow n _ _ []); [cbn; rewrite app_nil_r |]; reflexivity.
Qed.

Lemma always_keeps_alloc n m : always (keeps n) (on_heap (alloc m)).
Proof.
  intros s r s' H. apply on_heap_inv in H as (h' & H & ->).
  unfold alloc in H. injection H as _ <-.
  apply (keeps_grow n _ _ [m]); reflexivity.
Qed.

Lemma always_keeps_copy n l : always (keeps n) (on_heap (copy l)).
Proof.
  intros s r s' H. apply on_heap_inv in H as (h' & H & ->).
  apply copy_inv in H as [(m & _ & _ & ->) | (e & _ & ->)].
  - apply (keeps_grow n _ _ [m]); reflexivity.
  - apply (keeps_grow n _ _ []); [cbn; rewrite app_nil_r |]; reflexivity.
Qed.

Lemma always_keeps_set_self n (f : sampler -> sampler) :
  (forall x, _model (f x) = _model x) -> always (keeps n) (set_self f).
Proof.
  intros Hf s r s' H. unfold set_self, modify in H. injection H as _ <-.
  apply (keeps_grow n _ _ []); [cbn; rewrite app_nil_r; reflexivity | apply Hf].
Qed.

(** The initial-model block, whatever its outcome, leaves the objects of the
    store and the posterior as they are. *)
Lemma always_keeps_own_initial_model n observations :
  always (keeps n) (own_initial_model observations).
Proof.
  unfold own_initial_model, _generateInitialModel.
  keeps_steps n keeps_refl keeps_trans;
    first [ apply always_keeps_on_ext | apply always_keeps_deref | apply always_keeps_alloc
          | apply always_keeps_set_self; intros ?; reflexivity ].
Qed.

Lemma lens_leave_state_always (observations : list ndarray) :
  always (fun s s' : state => s' = s) (comprehension (fun o => lift (len o)) observations).
Proof.
  apply always_comprehension.
  - reflexivity.
  - intros t1 t2 t3 -> ->. reflexivity.
  - intros o. apply always_lift. reflexivity.
Qed.

(** What the initial-model block does when it returns. *)
Lemma own_initial_model_effect observations (s s1 : state) li :
  own_initial_model observations s = (Ok li, s1) ->
  match initial_model (self s) with
  | Some l => li = l /\ s1 = s
  | None =>
      exists im x' c,
        mlhmm (nstates (self s)) (reversible (self s)) (output (self s)) observations (ext s)
        = (Ok im, x')
        /\ prior_C (self s) = Val c
        /\ li = length (heap s)
        /\ s1 = MkState
                  (MkSampler (reversible (self s)) (stationary (self s)) (nstates (self s))
                     (Some (length (heap s)))
                     (Some (match prior_n0 (self s) with
                            | Some v => v
                            | None => initial_distribution im
                            end))
                     (Val (Some (match c with
                                 | Some v => v
                                 | None => array (transition_matrix im)
                                 end)))
                     (transition_matrix_sampling_steps (self s)) (nsamples (self s))
                     (output (self s)) (_alpha (self s)) (_pobs (self s)) (_model (self s)))
                  (heap s ++ [im]) x'
  end.
Proof.
  destruct s as [x h w].
  destruct x as [rv st ns ini n0 pC steps nsmp out al po mo].
  unfold own_initial_model. intros H.
  next_step H t0 H0. apply gets_Ok_inv in H0 as [-> ->]. cbn [self initial_model] in *.
  destruct ini as [l |].
  - injection H as <- <-. auto.
  - next_value H l t1 H1. unfold _generateInitialModel in H1.
    next_step H1 u0 G0. apply gets_Ok_inv in G0 as [-> ->].
    next_value H1 im u1 G1. apply on_ext_Ok_inv in G1 as (x' & Hml & ->).
    apply on_heap_Ok_inv in H1 as (h' & Hal & ->). cbn [heap self ext] in *.
    unfold alloc in Hal. injection Hal as <- <-.
    next_step H t2 H2. apply set_self_Ok_inv in H2. subst t2. cbn [heap self ext] in H.
    next_value H m t3 H3. apply on_heap_Ok_inv in H3 as (h' & Hd & ->).
    cbn [heap self ext] in Hd. apply deref_Ok_inv in Hd as [Hlook ->].
    rewrite lookup_app_r in Hlook by lia. rewrite Nat.sub_diag in Hlook. cbn in Hlook.
    injection Hlook as <-.
    cbn [heap self ext] in H.
    next_step H t4 H4. apply gets_Ok_inv in H4 as [-> ->]. cbn [heap self ext] in H.
    cbn [with_initial_model prior_n0 prior_C reversible stationary nstates
           transition_matrix_sampling_steps nsamples output _alpha _pobs _model] in *.
    exists im, x'.
    destruct n0 as [v0 |].
    + next_step H t5 H5. injection H5 as _ <-.
      next_step H t6 H6. apply gets_Ok_inv in H6 as [-> ->]. cbn [heap self ext prior_C] in H.
      next_value H c t7 H7. apply getattr_Ok_inv in H7 as [Hc ->]. cbn in Hc. subst pC.
      exists c.
      destruct c as [vc |]; next_step H t8 H8;
        [injection H8 as _ <- | apply set_self_Ok_inv in H8; subst t8];
        injection H as <- <-; repeat split; assumption.
    + next_step H t5 H5. apply set_self_Ok_inv in H5. subst t5.
      next_step H t6 H6. apply gets_Ok_inv in H6 as [-> ->]. cbn [heap self ext prior_C] in H.
      cbn [with_prior_n0 prior_C] in H.
      next_value H c t7 H7. apply getattr_Ok_inv in H7 as [Hc ->]. cbn in Hc. subst pC.
      exists c.
      destruct c as [vc |]; next_step H t8 H8;
        [injection H8 as _ <- | apply set_self_Ok_inv in H8; subst t8];
        injection H as <- <-; repeat split; assumption.
Qed.

End BayesianHMMSamplerFitOutcomes.

Section BayesianHMMSamplerFitAnatomy.
Import BayesianHMMSampler.
Context {X : Collaborators}.

(** The rounds of the collection loop give as many objects, all of them new
    and no two the same. *)
Lemma collection_spec lsm observations kw n (s s' : state) ls :
  fold_range n (fun _ models => collect lsm observations kw models) [] s = (Ok ls, s') ->
  frame lsm s s'
  /\ length ls = Z.to_nat n
  /\ Forall (fun l => length (heap s) <= l /\ l < length (heap s')) ls
  /\ NoDup ls.
Proof.
  unfold fold_range. intros H.
  pose (I := fun (i : nat) (models : list loc) (t : state) =>
               frame lsm s t /\ length models = i
               /\ Forall (fun l => length (heap s) <= l /\ l < length (heap t)) models
               /\ NoDup models).
  apply (fold_from_invariant I) in H as (Hf & Hlen & Hall & Hnd).
  - split; [exact Hf | split; [exact Hlen | split; assumption]].
  - intros j models t models' t' (Hf & Hlen & Hall & Hnd) Hround.
    apply collect_spec in Hround as (Hft & l & m0 & m' & -> & Hge & Hlt & _).
    split; [eapply frame_trans; eassumption | split; [| split]].
    + rewrite length_app. cbn. lia.
    + apply Forall_app. split.
      * eapply Forall_impl; [exact Hall |]. cbn. intros l' [? ?].
        destruct Hft as (Hlent & _). lia.
      * constructor; [| constructor].
        destruct Hf as (Hlenf & _). lia.
    + apply NoDup_app. split; [exact Hnd | split; [| apply NoDup_singleton]].
      intros l' Hin Hin'. apply list_elem_of_singleton in Hin'. subst l'.
      rewrite Forall_forall in Hall. apply Hall in Hin. lia.
  - split; [apply frame_refl | split; [reflexivity | split; constructor]].
Qed.

(** One round of the collection loop: the sweeps, the snapshot of the working
    model as they left it in a new object, the callback. *)
Lemma collect_effect lsm observations kw models (s s' : state) models' :
  collect lsm observations kw models s = (Ok models', s') ->
  exists t m,
    for_range (nthin kw) (fun _ => _update lsm observations) s = (Ok tt, t)
    /\ heap t !! lsm = Some m
    /\ models' = models ++ [length (heap t)]
    /\ invoke (call_back kw)
              (MkState (self t) (heap t ++ [snapshot_of kw m]) (ext t))
       = (Ok tt, s').
Proof.
  unfold collect. intros H.
  next_value H u1 t H1. destruct u1.
  next_step H s2 H2. apply on_heap_Ok_inv in H2 as (h2 & Hc & ->).
  apply copy_Ok_inv in Hc as (m & Hm & -> & ->).
  next_step H s3 H3.
  next_value H u4 s4 H4. destruct u4.
  injection H as <- <-.
  exists t, m. split; [exact H1 | split; [exact Hm | split; [reflexivity |]]].
  unfold snapshot_of.
  destruct (save_hidden_state_trajectory kw); cbn [negb] in H3.
  - injection H3 as _ <-. exact H4.
  - next_step H3 u1 G1. apply on_heap_Ok_inv in G1 as (h' & Hd & ->).
    cbn [self heap ext] in Hd. apply deref_Ok_inv in Hd as [Hlook ->].
    rewrite lookup_app_r in Hlook by lia. rewrite Nat.sub_diag in Hlook.
    cbn in Hlook. injection Hlook as <-.
    apply on_heap_Ok_inv in H3 as (h' & Hst & ->). cbn [self heap ext] in Hst.
    unfold store, modify in Hst. injection Hst as Hst. subst h'.
    cbn [self heap ext] in H4.
    rewrite insert_app_r_alt in H4 by lia. rewrite Nat.sub_diag in H4.
    exact H4.
Qed.

(** The collection loop is the chain of its rounds. *)
Lemma collection_chain lsm observations kw :
  forall k i acc (s s' : state) ls,
    fold_from i k (fun _ models => collect lsm observations kw models) acc s = (Ok ls, s') ->
    exists snaps,
      snapshots lsm observations kw s snaps s'
      /\ ls = acc ++ map fst snaps
      /\ length snaps = k.
Proof.
  induction k as [| k IH]; intros i acc s s' ls H; cbn [fold_from] in H.
  - injection H as <- <-. exists []. cbn. rewrite app_nil_r. auto.
  - next_value H acc' s1 H1.
    apply collect_effect in H1 as (t & m & Hsw & Hm & -> & Hcb).
    apply IH in H as (snaps & Hchain & -> & Hlen).
    exists ((length (heap t), snapshot_of kw m) :: snaps).
    split; [| split; [cbn [map fst]; rewrite <- app_assoc; reflexivity | cbn; lia]].
    cbn [snapshots]. exists t, m, s1. auto 10.
Qed.

(** The objects a chain of rounds made are new, no two the same, and hold at
    the end what was stored in them: the later sweeps change the working
    model only. *)
Lemma snapshots_kept lsm observations kw snaps :
  forall (s s' : state),
    snapshots lsm observations kw s snaps s' ->
    frame lsm s s'
    /\ Forall (fun lc => length (heap s) <= lc.1 /\ lc.1 < length (heap s')
                         /\ heap s' !! lc.1 = Some lc.2) snaps
    /\ NoDup (map fst snaps).
Proof.
  induction snaps as [| [l c] rest IH]; intros s s' H; cbn [snapshots] in H.
  - subst s'. split; [apply frame_refl | split; constructor].
  - destruct H as (t & m & u & Hsw & Hm & -> & -> & Hcb & Hrest).
    apply establishes_frame_sweeps in Hsw as Hf1.
    apply invoke_leaves_store in Hcb as [Hself Hheap]. cbn [self heap] in Hself, Hheap.
    apply IH in Hrest as (Hf3 & Hall & Hnd).
    pose proof (lookup_lt_Some _ _ _ Hm) as Hlsm.
    assert (Hf2 : frame lsm t u).
    { split; [rewrite Hheap, length_app; lia | split].
      - intros l' Hl' _. rewrite Hheap. apply lookup_app_l. exact Hl'.
      - rewrite Hself. reflexivity. }
    assert (Hlenu : length (heap u) = Datatypes.S (length (heap t))).
    { rewrite Hheap, length_app. cbn. lia. }
    pose proof Hf1 as (Hlen1 & _).
    pose proof Hf3 as (Hlen3 & Hobj3 & _).
    split; [eapply frame_trans; [exact Hf1 | eapply frame_trans; eassumption] | split].
    + constructor; cbn [fst snd].
      * split; [lia | split; [lia |]].
        rewrite Hobj3 by lia. rewrite Hheap.
        rewrite lookup_app_r by lia. rewrite Nat.sub_diag. reflexivity.
      * eapply Forall_impl; [exact Hall |]. cbn. intros [l c] (? & ? & ?). cbn in *.
        split; [lia | split; assumption].
    + cbn [map fst]. constructor; [| exact Hnd].
      intros Hin. apply list_elem_of_fmap in Hin as ([l c] & Heq & Hin). cbn in Heq. subst l.
      rewrite Forall_forall in Hall. apply Hall in Hin. cbn in Hin. lia.
Qed.

(** What a successful [fit] leaves behind. *)
Lemma fit_success_anatomy (observations : list ndarray) (kw : fit_kwargs) (s s' : state) :
  fit observations kw s = (Ok tt, s') ->
  exists li lp ls im pn pc,
    self s' = MkSampler (reversible (self s)) (stationary (self s)) (nstates (self s))
                (Some li) pn pc (transition_matrix_sampling_steps (self s))
                (nsamples (self s)) (output (self s))
                Unset Unset (MkPosterior (Some lp) (Some ls))
    /\ initial_model_at_entry s observations im
    /\ match initial_model (self s) with
       | Some l =>
           li = l /\ lp = length (heap s) /\ pn = prior_n0 (self s) /\ pc = prior_C (self s)
       | None =>
           li = length (heap s) /\ lp = Datatypes.S (length (heap s))
           /\ pn = Some (match prior_n0 (self s) with
                         | Some v => v
                         | None => initial_distribution im
                         end)
           /\ exists c, prior_C (self s) = Val c
                        /\ pc = Val (Some (match c with
                                           | Some v => v
                                           | None => array (transition_matrix im)
                                           end))
       end
    /\ heap s' !! li = Some im
    /\ heap s' !! lp = Some im
    /\ (forall l, l < length (heap s) -> heap s' !! l = heap s !! l)
    /\ Forall (fun l => lp + 2 <= l /\ l < length (heap s')) ls
    /\ NoDup ls
    /\ length ls = Z.to_nat (nsamples (self s))
    /\ exists s8 s9 s10 snaps,
        heap s8 !! lp = Some im
        /\ heap s8 !! Datatypes.S lp = Some im
        /\ length (heap s8) = lp + 2
        /\ for_range (nburn kw) (fun _ => _update (Datatypes.S lp) observations) s8
           = (Ok tt, s9)
        /\ snapshots (Datatypes.S lp) observations kw s9 snaps s10
        /\ ls = map fst snaps
        /\ Forall (fun lc => heap s' !! lc.1 = Some lc.2) snaps
        /\ heap s' = heap s10
        /\ ext s' = ext s10.
Proof.
  unfold fit. destruct (length observations =? 0); [discriminate |].
  intros H.
  next_step H s1 H1. apply lens_leave_state in H1. subst s1.
  next_step H s2 H2. apply gets_Ok_inv in H2 as [-> ->].
  next_step H s3 H3. apply set_self_Ok_inv in H3. subst s3.
  next_step H s4 H4. apply gets_Ok_inv in H4 as [-> ->].
  next_step H s5 H5. apply set_self_Ok_inv in H5. subst s5.
  cbn [self heap ext] in H.
  next_value H li s6 H6. apply own_initial_model_effect in H6.
  cbn [self heap ext initial_model with__alpha with__pobs reversible stationary nstates
         prior_n0 prior_C transition_matrix_sampling_steps nsamples output _alpha _pobs
         _model] in H6.
  next_value H lp s7 H7. apply on_heap_Ok_inv in H7 as (h7 & Hc7 & ->).
  apply copy_Ok_inv in Hc7 as (im & Him & -> & ->).
  next_value H lsm s8 H8. apply on_heap_Ok_inv in H8 as (h8 & Hc8 & ->).
  cbn [self heap ext] in Hc8.
  apply copy_Ok_inv in Hc8 as (im' & Him' & -> & ->).
  rewrite lookup_app_r in Him' by lia. rewrite Nat.sub_diag in Him'. cbn in Him'.
  injection Him' as <-.
  pose proof (lookup_lt_Some _ _ _ Him) as Hli.
  cbn [self heap ext] in H.
  next_value H u9 s9 H9. destruct u9. apply establishes_frame_sweeps in H9 as Hf9.
  next_step H s10 H10. apply gets_Ok_inv in H10 as [-> ->].
  next_value H ls s11 H11.
  assert (Hchain : exists s8 s9' s10 snaps,
             heap s8 !! length (heap s6) = Some im
             /\ heap s8 !! Datatypes.S (length (heap s6)) = Some im
             /\ length (heap s8) = length (heap s6) + 2
             /\ for_range (nburn kw)
                          (fun _ => _update (Datatypes.S (length (heap s6))) observations) s8
                = (Ok tt, s9')
             /\ snapshots (Datatypes.S (length (heap s6))) observations kw s9' snaps s10
             /\ ls = map fst snaps
             /\ Forall (fun lc => heap s11 !! lc.1 = Some lc.2) snaps
             /\ heap s11 = heap s10
             /\ ext s11 = ext s10).
  { pose proof H11 as Hc. unfold fold_range in Hc.
    apply collection_chain in Hc as (snaps & Hsn & Hls & _). cbn [app] in Hls.
    pose proof (snapshots_kept _ _ _ _ _ _ Hsn) as (_ & Hkept & _).
    rewrite length_app in H9, Hsn. cbn [length] in H9, Hsn.
    rewrite Nat.add_1_r in H9, Hsn.
    eexists _, s9, s11, snaps.
    split; [| split; [| split; [| split; [exact H9 | split; [exact Hsn | split; [exact Hls |
      split; [| split; reflexivity]]]]]]]; cbn [heap].
    - rewrite lookup_app_l by (rewrite length_app; cbn; lia).
      rewrite lookup_app_r by lia. rewrite Nat.sub_diag. reflexivity.
    - rewrite lookup_app_r by (rewrite length_app; cbn; lia).
      rewrite length_app. cbn [length].
      replace (Datatypes.S (length (heap s6)) - (length (heap s6) + 1)) with 0 by lia.
      reflexivity.
    - rewrite !length_app. cbn. lia.
    - eapply Forall_impl; [exact Hkept |]. cbn. intros lc (_ & _ & Hlc). exact Hlc. }
  apply collection_spec in H11 as (Hf11 & Hlen11 & Hall11 & Hnd11).
  pose proof (frame_trans _ _ _ _ Hf9 Hf11) as (Hlen & Hobj & Hbuf).
  destruct Hf9 as (Hlen9 & _ & Hbuf9).
  cbn [self heap ext] in Hlen, Hobj, Hbuf, Hlen9, Hbuf9.
  rewrite !length_app in Hlen, Hobj, Hlen9. cbn [length] in Hlen, Hobj, Hlen9.
  next_step H s12 H12. apply gets_Ok_inv in H12 as [-> ->].
  next_step H s13 H13. apply set_self_Ok_inv in H13. subst s13.
  next_step H s14 H14. apply gets_Ok_inv in H14 as [-> ->].
  next_step H s15 H15. apply set_self_Ok_inv in H15. subst s15.
  next_step H s16 H16. apply delattr_Ok_inv in H16. subst s16.
  next_step H s17 H17. apply delattr_Ok_inv in H17. subst s17.
  injection H as <-. cbn [self heap ext].
  assert (Hself :
            with__pobs Unset
              (with__alpha Unset
                 (with__model
                    (MkPosterior (@Some loc (length (heap s6))) (Some ls))
                    (with__model
                       (MkPosterior (BayesianHMMSampler.prior (_model (self s11))) (Some ls))
                       (self s11))))
            = MkSampler (reversible (self s6)) (stationary (self s6)) (nstates (self s6))
                (initial_model (self s6)) (prior_n0 (self s6)) (prior_C (self s6))
                (transition_matrix_sampling_steps (self s6)) (nsamples (self s6))
                (output (self s6)) Unset Unset
                (MkPosterior (Some (length (heap s6))) (Some ls))).
  { assert (E : without_buffers (self s11) = without_buffers (self s6)) by exact Hbuf.
    destruct (self s11), (self s6). unfold without_buffers in E. cbn in E |- *.
    injection E as -> -> -> -> -> -> -> -> -> ->. reflexivity. }
  rewrite Hself. clear Hself.
  assert (Hns : nsamples (self s9) = nsamples (self s6)).
  { exact (f_equal nsamples Hbuf9). }
  assert (Hlp' : heap s11 !! length (heap s6) = Some im).
  { rewrite Hobj by lia.
    rewrite lookup_app_l by (rewrite length_app; cbn; lia).
    rewrite lookup_app_r by lia. rewrite Nat.sub_diag. reflexivity. }
  assert (Hli' : heap s11 !! li = Some im).
  { rewrite Hobj by lia. rewrite <- app_assoc. rewrite lookup_app_l by exact Hli. exact Him. }
  assert (Hls : Forall (fun l => length (heap s6) + 2 <= l /\ l < length (heap s11)) ls).
  { eapply Forall_impl; [exact Hall11 |]. cbn. intros l [? ?]. lia. }
  assert (Hold : forall l, l < length (heap s6) -> heap s11 !! l = heap s6 !! l).
  { intros l Hl. rewrite Hobj by lia. rewrite <- app_assoc. apply lookup_app_l. exact Hl. }
  destruct (initial_model (self s)) as [l0 |] eqn:Hinit.
  - destruct H6 as [-> ->]. cbn [self heap ext] in *.
    exists l0, (length (heap s)), ls, im, (prior_n0 (self s)), (prior_C (self s)).
    cbn [reversible stationary nstates initial_model prior_n0 prior_C
           transition_matrix_sampling_steps nsamples output with__alpha with__pobs] in *.
    rewrite Hinit.
    split; [reflexivity | split; [| split; [auto | split; [exact Hli' | split; [exact Hlp' |
      split; [exact Hold | split; [exact Hls | split; [exact Hnd11 | split;
      [| exact Hchain]]]]]]]]].
    + unfold initial_model_at_entry. rewrite Hinit. exact Him.
    + rewrite Hlen11, Hns. reflexivity.
  - destruct H6 as (im0 & x' & c & Hml & Hc & -> & ->). cbn [self heap ext] in *.
    rewrite lookup_app_r in Him by lia. rewrite Nat.sub_diag in Him. cbn in Him.
    injection Him as <-.
    rewrite length_app in *. cbn [length] in *.
    exists (length (heap s)), (Datatypes.S (length (heap s))), ls, im0.
    eexists _, _.
    cbn [reversible stationary nstates initial_model prior_n0 prior_C
           transition_matrix_sampling_steps nsamples output] in *.
    replace (length (heap s) + 1) with (Datatypes.S (length (heap s))) in * by lia.
    split; [reflexivity | split; [| split; [| split; [exact Hli' | split; [exact Hlp' |
      split; [| split; [exact Hls | split; [exact Hnd11 | split; [| exact Hchain]]]]]]]]].
    + unfold initial_model_at_entry. rewrite Hinit, Hml. reflexivity.
    + split; [reflexivity | split; [reflexivity | split; [reflexivity |]]].
      exists c. split; [exact Hc | reflexivity].
    + intros l Hl. rewrite Hold by lia. apply lookup_app_l. exact Hl.
    + rewrite Hlen11, Hns. reflexivity.
Qed.

End BayesianHMMSamplerFitAnatomy.

Section BayesianHMMSamplerPosteriorContent.
Import BayesianHMMSampler.
Context {X : Collaborators}.

(** C9.  After a successful [fit], the posterior object holds a list of
    exactly [nsamples] samples (the sampler's [nsamples]; none for a negative
    one) and one prior.  The prior is an object of its own, no sample and not
    [self.initial_model], whose content is the model [fit] started from:
    the initial model given at entry, or the one the maximum-likelihood
    estimator produced; no sweep has changed it.  The samples are objects
    made during the call, no two of them the same object and none of them
    the prior or the initial model.  They are the snapshots of the rounds of
    the collection loop, in the order of the rounds: the working model, a
    second copy of the initial model, is swept [nburn] times, and then each
    round sweeps it [nthin] times and stores its content in a new object,
    which holds that content when [fit] returns. *)
Theorem fit_posterior_samples_and_prior (observations : list ndarray) (kw : fit_kwargs)
    (s s' : state) :
  fit observations kw s = (Ok tt, s') ->
  exists lp ls li im,
    _model (self s') = MkPosterior (Some lp) (Some ls)
    /\ length ls = Z.to_nat (nsamples (self s))
    /\ heap s' !! lp = Some im
    /\ initial_model_at_entry s observations im
    /\ initial_model (self s') = Some li
    /\ heap s' !! li = Some im
    /\ li <> lp
    /\ (lp ∉ ls)
    /\ Forall (fun l => is_Some (heap s' !! l)) ls
    /\ NoDup ls
    /\ (li ∉ ls)
    /\ Forall (fun l => length (heap s) <= l) (lp :: ls)
    /\ exists s8 s9 s10 snaps,
        heap s8 !! lp = Some im
        /\ heap s8 !! Datatypes.S lp = Some im
        /\ length (heap s8) = lp + 2
        /\ for_range (nburn kw) (fun _ => _update (Datatypes.S lp) observations) s8
           = (Ok tt, s9)
        /\ snapshots (Datatypes.S lp) observations kw s9 snaps s10
        /\ ls = map fst snaps
        /\ Forall (fun lc => heap s' !! lc.1 = Some lc.2) snaps
        /\ heap s' = heap s10
        /\ ext s' = ext s10.
Proof.
  intros H.
  apply fit_success_anatomy in H
    as (li & lp & ls & im & pn & pc & Hself & Hentry & Hcase & Hli & Hlp & _ & Hls & Hnd
        & Hlen & Hchain).
  assert (Hlt : li < lp /\ length (heap s) <= lp).
  { unfold initial_model_at_entry in Hentry.
    destruct (initial_model (self s)) as [l |].
    - destruct Hcase as (-> & -> & _). apply lookup_lt_Some in Hentry. lia.
    - destruct Hcase as (-> & -> & _). lia. }
  destruct Hlt as [Hlt Hge].
  rewrite Forall_forall in Hls.
  exists lp, ls, li, im. rewrite Hself. cbn [_model initial_model].
  split; [reflexivity | split; [exact Hlen | split; [exact Hlp | split; [exact Hentry |
    split; [reflexivity | split; [exact Hli | split; [lia | split; [| split; [| split;
    [exact Hnd | split; [| split; [| exact Hchain]]]]]]]]]]]].
  - intros Hin. apply Hls in Hin. lia.
  - apply Forall_forall. intros l Hin. apply Hls in Hin.
    apply lookup_lt_is_Some. lia.
  - intros Hin. apply Hls in Hin. lia.
  - constructor; [exact Hge |].
    apply Forall_forall. intros l Hin. apply Hls in Hin. lia.
Qed.

End BayesianHMMSamplerPosteriorContent.

Section BayesianHMMSamplerFitEffects.
Import BayesianHMMSampler.
Context {X : Collaborators}.

(** X14.  A successful [fit] changes no object that was in the store
    before the call (the initial model of the constructor included); the
    prior and the samples of the posterior are objects made during the call,
    no two of them the same object. *)
Theorem fit_leaves_existing_objects (observations : list ndarray) (kw : fit_kwargs)
    (s s' : state) :
  fit observations kw s = (Ok tt, s') ->
  (forall l, l < length (heap s) -> heap s' !! l = heap s !! l)
  /\ exists lp ls,
      _model (self s') = MkPosterior (Some lp) (Some ls)
      /\ NoDup (lp :: ls)
      /\ Forall (fun l => length (heap s) <= l /\ l < length (heap s')) (lp :: ls).
Proof.
  intros H.
  apply fit_success_anatomy in H
    as (li & lp & ls & im & pn & pc & Hself & _ & Hcase & _ & Hlp & Hold & Hls & Hnd & _).
  split; [exact Hold |].
  exists lp, ls. rewrite Hself. cbn [_model].
  assert (Hge : length (heap s) <= lp).
  { destruct (initial_model (self s)); destruct Hcase as (_ & -> & _); lia. }
  split; [reflexivity | split].
  - constructor; [| exact Hnd].
    intros Hin. rewrite Forall_forall in Hls. apply Hls in Hin. lia.
  - constructor.
    + split; [exact Hge | eapply lookup_lt_Some, Hlp].
    + eapply Forall_impl; [exact Hls |]. cbn. intros l [? ?]. lia.
Qed.

(** X15.  A successful [fit] leaves [reversible], [stationary], [nstates],
    [transition_matrix_sampling_steps], [nsamples] and [output] as they
    were.  An initial model that the sampler had at entry is kept, and the
    priors with it; without one, [self.initial_model] becomes the
    maximum-likelihood model, a prior vector left open becomes the initial
    distribution of that model and a prior count matrix left open its
    transition matrix. *)
Theorem fit_keeps_configuration (observations : list ndarray) (kw : fit_kwargs)
    (s s' : state) :
  fit observations kw s = (Ok tt, s') ->
  reversible (self s') = reversible (self s)
  /\ stationary (self s') = stationary (self s)
  /\ nstates (self s') = nstates (self s)
  /\ transition_matrix_sampling_steps (self s') = transition_matrix_sampling_steps (self s)
  /\ nsamples (self s') = nsamples (self s)
  /\ output (self s') = output (self s)
  /\ exists li im,
      initial_model (self s') = Some li
      /\ heap s' !! li = Some im
      /\ initial_model_at_entry s observations im
      /\ match initial_model (self s) with
         | Some l =>
             li = l
             /\ prior_n0 (self s') = prior_n0 (self s)
             /\ prior_C (self s') = prior_C (self s)
         | None =>
             li = length (heap s)
             /\ prior_n0 (self s')
                = Some (match prior_n0 (self s) with
                        | Some v => v
                        | None => initial_distribution im
                        end)
             /\ exists c,
                 prior_C (self s) = Val c
                 /\ prior_C (self s')
                    = Val (Some (match c with
                                 | Some v => v
                                 | None => transition_matrix im
                                 end))
         end.
Proof.
  intros H.
  apply fit_success_anatomy in H
    as (li & lp & ls & im & pn & pc & Hself & Hentry & Hcase & Hli & _).
  rewrite Hself. cbn.
  repeat (split; [reflexivity |]).
  exists li, im. split; [reflexivity | split; [exact Hli | split; [exact Hentry |]]].
  destruct (initial_model (self s)).
  - destruct Hcase as (-> & _ & -> & ->). auto.
  - destruct Hcase as (-> & _ & -> & c & Hc & ->).
    split; [reflexivity | split; [reflexivity |]].
    exists c. split; [exact Hc | reflexivity].
Qed.

(** X16.  A second successful [fit] of the same sampler, whatever its
    observations, starts from the initial model of the first: the prior of
    its posterior has the content of the prior of the first posterior (no
    maximum-likelihood model is estimated for the new observations), and
    the initial model and the two priors of the sampler stay.  The [HMM]
    objects that the posterior referred to after the first [fit] are not
    changed, and it refers to none of them after the second. *)
Theorem refit_starts_from_the_same_model (observations observations' : list ndarray)
    (kw kw' : fit_kwargs) (s s1 s2 : state) :
  fit observations kw s = (Ok tt, s1) ->
  fit observations' kw' s1 = (Ok tt, s2) ->
  exists lp ls lp' ls' im,
    _model (self s1) = MkPosterior (Some lp) (Some ls)
    /\ _model (self s2) = MkPosterior (Some lp') (Some ls')
    /\ heap s1 !! lp = Some im
    /\ heap s2 !! lp' = Some im
    /\ initial_model_at_entry s observations im
    /\ (forall l, l ∈ lp :: ls -> heap s2 !! l = heap s1 !! l /\ (l ∉ lp' :: ls'))
    /\ initial_model (self s2) = initial_model (self s1)
    /\ prior_n0 (self s2) = prior_n0 (self s1)
    /\ prior_C (self s2) = prior_C (self s1).
Proof.
  intros H1 H2.
  apply fit_success_anatomy in H1
    as (li & lp & ls & im & pn & pc & Hself & Hentry & _ & Hli & Hlp & _ & Hls & _ & _).
  apply fit_success_anatomy in H2
    as (li' & lp' & ls' & im' & pn' & pc' & Hself' & Hentry' & Hcase' & _ & Hlp' & Hold'
        & Hls' & _ & _).
  unfold initial_model_at_entry in Hentry'.
  rewrite Hself in Hentry', Hcase'. cbn [initial_model prior_n0 prior_C] in Hentry', Hcase'.
  destruct Hcase' as (-> & -> & -> & ->).
  assert (im' = im) as -> by congruence.
  exists lp, ls, (length (heap s1)), ls', im.
  rewrite Hself, Hself'. cbn [_model initial_model prior_n0 prior_C].
  split; [reflexivity | split; [reflexivity | split; [exact Hlp | split; [exact Hlp' |
    split; [exact Hentry | split; [| auto]]]]]].
  intros l Hin.
  assert (Hl : l < length (heap s1)).
  { apply elem_of_cons in Hin as [-> | Hin].
    - eapply lookup_lt_Some, Hlp.
    - rewrite Forall_forall in Hls. apply Hls in Hin. lia. }
  split; [apply Hold', Hl |].
  intros Hin'. apply elem_of_cons in Hin' as [-> | Hin']; [lia |].
  rewrite Forall_forall in Hls'. apply Hls' in Hin'. lia.
Qed.

Lemma delattr_raise_inv {A} name (a : sampler -> attr A) clear (s s' : state) e :
  delattr name a clear s = (Raise e, s') -> a (self s) = Unset.
Proof.
  unfold delattr, bind, gets, getattr, set_self, modify, ret, raise.
  destruct (a (self s)); [reflexivity | discriminate].
Qed.

(** X17.  When [fit] raises, the posterior [self._model] and every object
    that was in the store before the call are as they were. *)
Theorem fit_failure_keeps_posterior (observations : list ndarray) (kw : fit_kwargs)
    (s s' : state) (e : exn) :
  fit observations kw s = (Raise e, s') ->
  _model (self s') = _model (self s)
  /\ (forall l, l < length (heap s) -> heap s' !! l = heap s !! l).
Proof.
  intros H.
  enough (Hk : keeps (length (heap s)) s s').
  { destruct (Hk (le_n _)) as (_ & Hobj & Hmod). split; assumption. }
  unfold fit in H. destruct (length observations =? 0).
  { injection H as _ <-. apply keeps_refl. }
  apply bind_inv in H as [(lens & s1 & H1 & H) | (e1 & H1 & _)];
    apply lens_leave_state_always in H1.
  2:{ subst s'. apply keeps_refl. }
  subst s1. rename s into s1.
  apply bind_inv in H as [(x2 & s2 & H2 & H) | (e1 & H1 & _)]; [| discriminate H1].
  apply gets_Ok_inv in H2 as [-> ->].
  apply bind_inv in H as [(u3 & s3 & H3 & H) | (e1 & H1 & _)]; [| discriminate H1].
  apply set_self_Ok_inv in H3. subst s3.
  apply bind_inv in H as [(x4 & s4 & H4 & H) | (e1 & H1 & _)]; [| discriminate H1].
  apply gets_Ok_inv in H4 as [-> ->].
  apply bind_inv in H as [(u5 & s5 & H5 & H) | (e1 & H1 & _)]; [| discriminate H1].
  apply set_self_Ok_inv in H5. cbn [self heap ext] in H5.
  assert (K5 : keeps (length (heap s1)) s1 s5).
  { subst s5. apply (keeps_grow _ _ _ []); [cbn; rewrite app_nil_r |]; reflexivity. }
  assert (B5 : buffers_set (self s5)).
  { subst s5. split; discriminate. }
  clear H5.
  apply bind_inv in H as [(li & s6 & H6 & H) | (e1 & H6 & _)];
    pose proof (always_keeps_own_initial_model (length (heap s1)) _ _ _ _ H6) as K6;
    pose proof (keeps_trans _ _ _ _ K5 K6) as K6'; [| exact K6'].
  assert (B6 : buffers_set (self s6)).
  { apply own_initial_model_effect in H6.
    destruct (initial_model (self s5)).
    - destruct H6 as [_ ->]. exact B5.
    - destruct H6 as (im & x' & c & _ & _ & _ & ->). exact B5. }
  clear K5 K6 B5 H6.
  apply bind_inv in H as [(lp & s7 & H7 & H) | (e1 & H7 & _)];
    pose proof (always_keeps_copy (length (heap s1)) _ _ _ _ H7) as K7;
    pose proof (keeps_trans _ _ _ _ K6' K7) as K7'; [| exact K7'].
  apply on_heap_Ok_inv in H7 as (h7 & Hc7 & ->).
  apply copy_Ok_inv in Hc7 as (im & Him & -> & ->).
  clear K6' K7.
  apply bind_inv in H as [(lsm & s8 & H8 & H) | (e1 & H8 & _)];
    pose proof (always_keeps_copy (length (heap s1)) _ _ _ _ H8) as K8;
    pose proof (keeps_trans _ _ _ _ K7' K8) as K8'; [| exact K8'].
  apply on_heap_Ok_inv in H8 as (h8 & Hc8 & ->). cbn [self heap ext] in Hc8.
  apply copy_Ok_inv in Hc8 as (im' & _ & -> & ->).
  clear K8.
  assert (Hlsm : length (heap s1) <= length (heap s6 ++ [im])).
  { destruct (K7' (le_n _)) as (Hge & _). exact Hge. }
  clear K7'. cbn [self heap ext] in H, K8'.
  remember (MkState (self s6) ((heap s6 ++ [im]) ++ [im']) (ext s6)) as s8 eqn:Hs8.
  assert (B8 : buffers_set (self s8)) by (subst s8; exact B6).
  clear Hs8 B6.
  remember (length (heap s6 ++ [im])) as lsm eqn:Hl. clear Hl.
  apply bind_inv in H as [(u9 & s9 & H9 & H) | (e1 & H9 & _)];
    apply always_sweeps_rounds in H9 as S9;
    pose proof (keeps_trans _ _ _ _ K8' (sweeps_keeps _ _ _ _ Hlsm S9)) as K9;
    [| exact K9].
  apply bind_inv in H as [(x10 & s10 & H10 & H) | (e1 & H1 & _)]; [| discriminate H1].
  apply gets_Ok_inv in H10 as [-> ->].
  apply bind_inv in H as [(ls & s11 & H11 & H) | (e1 & H11 & _)];
    apply always_sweeps_collection in H11 as S11;
    pose proof (keeps_trans _ _ _ _ K9 (sweeps_keeps _ _ _ _ Hlsm S11)) as K11;
    [| exact K11].
  assert (B11 : buffers_set (self s11)).
  { destruct S9 as [_ Hb9]. destruct S11 as [_ Hb11]. auto. }
  exfalso. clear - H B11.
  apply bind_inv in H as [(x12 & s12 & H12 & H) | (e1 & H1 & _)]; [| discriminate H1].
  apply gets_Ok_inv in H12 as [-> ->].
  apply bind_inv in H as [(u13 & s13 & H13 & H) | (e1 & H1 & _)]; [| discriminate H1].
  apply set_self_Ok_inv in H13. subst s13.
  apply bind_inv in H as [(x14 & s14 & H14 & H) | (e1 & H1 & _)]; [| discriminate H1].
  apply gets_Ok_inv in H14 as [-> ->].
  apply bind_inv in H as [(u15 & s15 & H15 & H) | (e1 & H1 & _)]; [| discriminate H1].
  apply set_self_Ok_inv in H15. subst s15.
  destruct B11 as [Ba Bp].
  apply bind_inv in H as [(u16 & s16 & H16 & H) | (e1 & H16 & _)].
  2:{ apply delattr_raise_inv in H16. cbn in H16. contradiction. }
  apply delattr_Ok_inv in H16. subst s16.
  apply bind_inv in H as [(u17 & s17 & H17 & H) | (e1 & H17 & _)].
  2:{ apply delattr_raise_inv in H17. cbn in H17. contradiction. }
  discriminate H.
Qed.

End BayesianHMMSamplerFitEffects.

(* ===================================================================== *)
(** * BayesianHMMSampler: the late error                                *)
(* ===================================================================== *)

Section BayesianHMMSamplerLateError.
Import BayesianHMMSampler.
Context {X : Collaborators}.

Lemma lens_return (observations : list ndarray) (s : state) :
  Forall (fun o => shape o <> []) observations ->
  exists lens, comprehension (fun o => lift (len o)) observations s = (Ok lens, s).
Proof.
  induction 1 as [| o os Ho _ [lens IH]]; cbn [comprehension].
  - exists []. reflexivity.
  - destruct (shape o) as [| k sh] eqn:Hk; [congruence |].
    exists (k :: lens).
    assert (Hlen : lift (len o) s = (Ok k, s)) by (unfold lift, len; rewrite Hk; reflexivity).
    rewrite (bind_Ok_eq _ _ _ _ _ Hlen), (bind_Ok_eq _ _ _ _ _ IH). reflexivity.
Qed.

(** Without [prior_C] the initial-model block raises once the model has
    been estimated and assigned. *)
Lemma own_initial_model_without_prior_C (observations : list ndarray) (s : state)
    (im : HMM OM) (x' : W) :
  initial_model (self s) = None ->
  prior_C (self s) = Unset ->
  mlhmm (nstates (self s)) (reversible (self s)) (output (self s)) observations (ext s)
  = (Ok im, x') ->
  exists s6,
    own_initial_model observations s = (Raise (Exn AttributeError "prior_C"), s6)
    /\ ext s6 = x'
    /\ heap s6 = heap s ++ [im]
    /\ initial_model (self s6) = Some (length (heap s))
    /\ _alpha (self s6) = _alpha (self s)
    /\ _pobs (self s6) = _pobs (self s)
    /\ _model (self s6) = _model (self s).
Proof.
  destruct s as [x h w]. destruct x as [rv st ns ini n0 pC steps nsmp out al po mo].
  cbn [self heap ext initial_model prior_C nstates reversible output _alpha _pobs _model].
  intros -> -> Hml.
  assert (Hgen : _generateInitialModel observations out
                   (MkState (MkSampler rv st ns None n0 Unset steps nsmp out al po mo) h w)
                 = (Ok (length h),
                    MkState (MkSampler rv st ns None n0 Unset steps nsmp out al po mo)
                            (h ++ [im]) x')).
  { unfold _generateInitialModel, bind, gets, on_ext, on_heap, alloc.
    cbn [self heap ext nstates reversible]. rewrite Hml. reflexivity. }
  unfold own_initial_model.
  erewrite (bind_Ok_eq (gets self)) by reflexivity. cbn [self initial_model output].
  rewrite (bind_Ok_eq _ _ _ _ _ Hgen).
  erewrite (bind_Ok_eq (set_self _)) by reflexivity. cbn [self heap ext with_initial_model
    reversible stationary nstates initial_model prior_n0 prior_C
    transition_matrix_sampling_steps nsamples output _alpha _pobs _model].
  erewrite (bind_Ok_eq (on_heap (deref (length h)))).
  2:{ apply on_heap_deref. cbn [heap]. rewrite lookup_app_r by lia.
      rewrite Nat.sub_diag. reflexivity. }
  erewrite (bind_Ok_eq (gets self)) by reflexivity.
  cbn [self prior_n0 with_initial_model].
  destruct n0 as [v0 |].
  - erewrite (bind_Ok_eq (ret tt)) by reflexivity.
    erewrite (bind_Ok_eq (gets self)) by reflexivity. cbn [self prior_C].
    eexists. split; [apply bind_Raise_eq; reflexivity |].
    cbn. repeat split.
  - erewrite (bind_Ok_eq (set_self _)) by reflexivity.
    erewrite (bind_Ok_eq (gets self)) by reflexivity. cbn [self prior_C with_prior_n0].
    eexists. split; [apply bind_Raise_eq; reflexivity |].
    cbn. repeat split.
Qed.

(** X18.  A sampler without an initial model whose [prior_C] was never
    assigned: [fit] on observations (at least one, each with a first axis)
    raises [AttributeError] for [prior_C], but only after the
    maximum-likelihood estimation has run.  When it raises, the estimated
    model is in the store and assigned to [self.initial_model], the scratch
    buffers are set, and the posterior is untouched. *)
Theorem fit_without_prior_C_fails_after_estimation (observations : list ndarray)
    (kw : fit_kwargs) (s : state) (im : HMM OM) (x' : W) :
  observations <> [] ->
  Forall (fun o => shape o <> []) observations ->
  initial_model (self s) = None ->
  prior_C (self s) = Unset ->
  mlhmm (nstates (self s)) (reversible (self s)) (output (self s)) observations (ext s)
  = (Ok im, x') ->
  exists s',
    fit observations kw s = (Raise (Exn AttributeError "prior_C"), s')
    /\ ext s' = x'
    /\ heap s' = heap s ++ [im]
    /\ initial_model (self s') = Some (length (heap s))
    /\ buffers_set (self s')
    /\ _model (self s') = _model (self s).
Proof.
  intros Hne Hsh Hinit HpC Hml.
  unfold fit. destruct (Nat.eqb_spec (length observations) 0) as [Hz | _].
  { destruct observations; [congruence | discriminate Hz]. }
  destruct (lens_return observations s Hsh) as (lens & Hlens).
  rewrite (bind_Ok_eq _ _ _ _ _ Hlens).
  erewrite (bind_Ok_eq (gets self)) by reflexivity.
  erewrite (bind_Ok_eq (set_self _)) by reflexivity.
  erewrite (bind_Ok_eq (gets self)) by reflexivity.
  erewrite (bind_Ok_eq (set_self _)) by reflexivity.
  cbn [self heap ext].
  match goal with
  | |- exists s', bind (own_initial_model _) _ ?s5 = _ /\ _ =>
      destruct (own_initial_model_without_prior_C observations s5 im x' Hinit HpC Hml)
        as (s6 & Hown & Hx & Hh & Hi & Ha & Hp & Hm)
  end.
  exists s6. split; [apply bind_Raise_eq, Hown |].
  cbn [self heap ext _alpha _pobs _model with__alpha with__pobs] in Hh, Ha, Hp, Hm.
  split; [exact Hx | split; [exact Hh | split; [exact Hi | split; [| exact Hm]]]].
  split; [rewrite Ha | rewrite Hp]; discriminate.
Qed.

End BayesianHMMSamplerLateError.

(* ===================================================================== *)
(** * Runs of the added properties                                      *)
(* ===================================================================== *)

Section TransitionMatrixSamplerEdgeRuns.
Import TransitionMatrixSampler.
#[local] Existing Instance Standin.backend.

Lemma init_refuses_or_builds_witness :
  __init__ Standin.C22 (InitKw false None None (Some (Int 1)) "dense")
  = Raise (Exn ValueError "Only Sparse prior is currently implemented")
  /\ __init__ Standin.C22 (InitKw false (Some (ones [2])) None (Some (Int 1)) "sparse")
     = Raise (Exn ValueError
                "Non reversible sampling with fixed stationary vector not implemented")
  /\ __init__ (NdArray [] [1%float]) (InitKw true None None None "sparse")
     = Raise (Exn IndexError "tuple index out of range")
  /\ count_matrix Standin.sampler22 = Standin.C22
  /\ n_steps Standin.sampler22 <> None.
Proof.
  split; [| split; [| split]].
  - apply (proj1 (init_refuses_or_builds
                    Standin.C22 (InitKw false None None (Some (Int 1)) "dense"))).
    discriminate.
  - apply (proj1 (proj2 (init_refuses_or_builds
                           Standin.C22
                           (InitKw false (Some (ones [2])) None (Some (Int 1)) "sparse"))));
      [reflexivity | reflexivity | discriminate].
  - apply (proj1 (proj2 (proj2 (init_refuses_or_builds
                                  (NdArray [] [1%float])
                                  (InitKw true None None None "sparse")))));
      reflexivity.
  - destruct (proj2 (proj2 (proj2 (init_refuses_or_builds
                                     Standin.C22
                                     (InitKw true None None (Some (Int 1)) "sparse"))))
                    Standin.sampler22 eq_refl)
      as (_ & _ & _ & Hc & Hn & _).
    split; [exact Hc | exact Hn].
Defined.

Lemma sample_below_one_draws_nothing_witness :
  sample Standin.sampler22 (-3) true (Some Standin.tick) Standin.world0
  = (Raise (Exn ValueError "negative dimensions are not allowed"), Standin.world0).
Proof.
  exact (sample_below_one_draws_nothing Standin.sampler22 (-3) true (Some Standin.tick)
           Standin.world0 eq_refl).
Defined.



End TransitionMatrixSamplerEdgeRuns.

Section BayesianHMMSamplerEffectRuns.
Import BayesianHMMSampler.
#[local] Existing Instance Standin.collaborators.

Lemma init_accepts_known_priors_witness :
  exists x,
    __init__ 2 (Standin.kw_transition_matrix_prior (PArray Standin.prior33)) [] = (Ok x, []).
Proof.
  apply (proj2 (init_accepts_known_priors 2
                  (Standin.kw_transition_matrix_prior (PArray Standin.prior33)) [] eq_refl)).
  split.
  - right. right. left. reflexivity.
  - right. right. left. exists Standin.prior33. reflexivity.
Defined.

Lemma init_copies_the_initial_model_witness :
  snd (__init__ 2 Standin.kw_initial_model [Standin.model_uniform])
  = [Standin.model_uniform; Standin.model_uniform].
Proof.
  exact (proj1 (init_copies_the_initial_model 2 Standin.kw_initial_model
                  [Standin.model_uniform] 0 Standin.model_uniform eq_refl eq_refl)
               _ _ (surjective_pairing _)).
Defined.

Lemma fit_posterior_samples_and_prior_witness :
  exists lp ls li im,
    _model (self Standin.state_mixed_fitted) = MkPosterior (Some lp) (Some ls)
    /\ length ls = 2
    /\ heap Standin.state_mixed_fitted !! lp = Some im
    /\ initial_model_at_entry Standin.state_mixed [Standin.obs3] im
    /\ initial_model (self Standin.state_mixed_fitted) = Some li
    /\ heap Standin.state_mixed_fitted !! li = Some im
    /\ li <> lp
    /\ (lp ∉ ls)
    /\ Forall (fun l => is_Some (heap Standin.state_mixed_fitted !! l)) ls
    /\ NoDup ls
    /\ (li ∉ ls)
    /\ Forall (fun l => 0 <= l) (lp :: ls)
    /\ exists s8 s9 s10 snaps,
        heap s8 !! lp = Some im
        /\ heap s8 !! Datatypes.S lp = Some im
        /\ length (heap s8) = lp + 2
        /\ for_range (nburn Standin.fit_burn_thin)
                     (fun _ => _update (Datatypes.S lp) [Standin.obs3]) s8
           = (Ok tt, s9)
        /\ snapshots (Datatypes.S lp) [Standin.obs3] Standin.fit_burn_thin s9 snaps s10
        /\ ls = map fst snaps
        /\ Forall (fun lc => heap Standin.state_mixed_fitted !! lc.1 = Some lc.2) snaps
        /\ heap Standin.state_mixed_fitted = heap s10
        /\ ext Standin.state_mixed_fitted = ext s10.
Proof.
  exact (fit_posterior_samples_and_prior [Standin.obs3] Standin.fit_burn_thin
           Standin.state_mixed Standin.state_mixed_fitted state_mixed_fit_returns).
Defined.

Lemma fit_leaves_existing_objects_witness :
  exists lp ls,
    _model (self Standin.state_mixed_fitted) = MkPosterior (Some lp) (Some ls)
    /\ NoDup (lp :: ls)
    /\ Forall (fun l => 0 <= l /\ l < length (heap Standin.state_mixed_fitted)) (lp :: ls).
Proof.
  exact (proj2 (fit_leaves_existing_objects [Standin.obs3] Standin.fit_burn_thin
                  Standin.state_mixed Standin.state_mixed_fitted state_mixed_fit_returns)).
Defined.

Lemma fit_keeps_configuration_witness :
  nsamples (self Standin.state_mixed_fitted) = 2%Z
  /\ initial_model (self Standin.state_mixed_fitted) = Some 0
  /\ prior_n0 (self Standin.state_mixed_fitted) = Some (Standin.uniform_vector 2)
  /\ prior_C (self Standin.state_mixed_fitted) = Val (Some (Standin.uniform_matrix 2)).
Proof.
  destruct (fit_keeps_configuration [Standin.obs3] Standin.fit_burn_thin
              Standin.state_mixed Standin.state_mixed_fitted state_mixed_fit_returns)
    as (_ & _ & _ & _ & Hn & _ & li & im & Hli & _ & Hentry & -> & Hp0 & c & Hc & HpC).
  injection Hentry as <-. injection Hc as <-.
  split; [exact Hn | split; [exact Hli | split; [exact Hp0 | exact HpC]]].
Defined.

Lemma state_mixed_refit_returns :
  fit [Standin.obs3] fit_defaults Standin.state_mixed_fitted
  = (Ok tt, Standin.state_mixed_refitted).
Proof. vm_compute. reflexivity. Defined.

Lemma refit_starts_from_the_same_model_witness :
  exists lp ls lp' ls' im,
    _model (self Standin.state_mixed_fitted) = MkPosterior (Some lp) (Some ls)
    /\ _model (self Standin.state_mixed_refitted) = MkPosterior (Some lp') (Some ls')
    /\ heap Standin.state_mixed_fitted !! lp = Some im
    /\ heap Standin.state_mixed_refitted !! lp' = Some im
    /\ initial_model_at_entry Standin.state_mixed [Standin.obs3] im
    /\ (forall l, l ∈ lp :: ls ->
          heap Standin.state_mixed_refitted !! l = heap Standin.state_mixed_fitted !! l
          /\ (l ∉ lp' :: ls'))
    /\ initial_model (self Standin.state_mixed_refitted)
       = initial_model (self Standin.state_mixed_fitted)
    /\ prior_n0 (self Standin.state_mixed_refitted)
       = prior_n0 (self Standin.state_mixed_fitted)
    /\ prior_C (self Standin.state_mixed_refitted)
       = prior_C (self Standin.state_mixed_fitted).
Proof.
  exact (refit_starts_from_the_same_model [Standin.obs3] [Standin.obs3]
           Standin.fit_burn_thin fit_defaults
           Standin.state_mixed Standin.state_mixed_fitted Standin.state_mixed_refitted
           state_mixed_fit_returns state_mixed_refit_returns).
Defined.

Lemma state_120_fit_raises :
  fit [Standin.obs3] Standin.fit_burn Standin.state_120
  = (Raise (Exn NotImplementedError
              "Encountered disconnected count matrix with sampling option reversible"),
     Standin.state_120_failed).
Proof. vm_compute. reflexivity. Defined.

Lemma fit_failure_keeps_posterior_witness :
  _model (self Standin.state_120_failed) = _create_model
  /\ heap Standin.state_120_failed !! 0 = Some Standin.model_120
  /\ heap Standin.state_120_failed !! 1 = Some Standin.model_120.
Proof.
  destruct (fit_failure_keeps_posterior [Standin.obs3] Standin.fit_burn
              Standin.state_120 Standin.state_120_failed _ state_120_fit_raises)
    as [Hm Hobj].
  split; [exact Hm | split].
  - apply (Hobj 0). cbn. lia.
  - apply (Hobj 1). cbn. lia.
Defined.

Lemma fit_without_prior_C_fails_after_estimation_witness :
  exists s',
    fit [Standin.obs3] fit_defaults Standin.state_unset
    = (Raise (Exn AttributeError "prior_C"), s')
    /\ ext s' = 1
    /\ heap s' = [Standin.model_uniform]
    /\ initial_model (self s') = Some 0
    /\ buffers_set (self s')
    /\ _model (self s') = _create_model.
Proof.
  apply (fit_without_prior_C_fails_after_estimation [Standin.obs3] fit_defaults
           Standin.state_unset Standin.model_uniform 1).
  - discriminate.
  - constructor; [discriminate | constructor].
  - reflexivity.
  - reflexivity.
  - reflexivity.
Defined.

End BayesianHMMSamplerEffectRuns.

(* ===================================================================== *)
(** * BayesianHMMSampler: one sweep                                       *)
(* ===================================================================== *)

Section BayesianHMMSamplerOneSweep.
Import BayesianHMMSampler.
Context {X : Collaborators}.

(** X21.  One round of Gibbs sampling on the object [model], whether it
    returns or raises in any of its three updates: no other object of the
    store is changed or removed, of the sampler nothing is assigned but the
    two scratch buffers, and a buffer that was set is still set (it is
    overwritten, never deleted). *)
Theorem sweep_touches_only_its_model (model : loc) (observations : list ndarray)
    (s s' : state) (r : res unit) :
  _update model observations s = (r, s') ->
  frame model s s' /\ (buffers_set (self s) -> buffers_set (self s')).
Proof. intros H. exact (always_sweeps_update model observations s r s' H). Qed.

End BayesianHMMSamplerOneSweep.

Section BayesianHMMSamplerOneSweepRuns.
Import BayesianHMMSampler.
#[local] Existing Instance Standin.collaborators.

Lemma sweep_touches_only_its_model_witness :
  frame 0 Standin.state_120 (snd (_update 0 [Standin.obs3] Standin.state_120))
  /\ (buffers_set (self Standin.state_120) ->
      buffers_set (self (snd (_update 0 [Standin.obs3] Standin.state_120)))).
Proof.
  exact (sweep_touches_only_its_model 0 [Standin.obs3] Standin.state_120
           (snd (_update 0 [Standin.obs3] Standin.state_120))
           (fst (_update 0 [Standin.obs3] Standin.state_120))
           (surjective_pairing _)).
Defined.

End BayesianHMMSamplerOneSweepRuns.
